(** * Iodine network object model (rkviewer/iodine.py)

    A shallow embedding of the model layer of the reaction-network editor:
    the entity records, the network container with its derived indices,
    the registry of networks, the snapshot-based undo/redo engine and the
    mutation API, followed by the properties established about them.

    Conventions of the embedding.
    - Python [int] is [Z]; Python [float] is [Q] (only comparisons with
      constants and the truncation [int(a*255)] are ever computed on it).
      A NaN has no counterpart: it passes every range test of the source
      ([a < 0 or a > 1] is false of it) and [int] raises [ValueError] on
      it, which the three alpha setters would do after their snapshot;
      the statement that a refused call changes nothing leaves these
      setters out.
    - [dict] is [gmap Z _], [set] is [gset Z]; a [defaultdict(set)] is a
      [gmap Z (gset Z)] whose read inserts the empty set at a missing key.
    - The module-level globals form the record [State]; every API function
      is a computation in the monad [M], which threads the state and
      carries a raised exception together with the state it leaves behind
      (a raise does not roll anything back).
    - [copy.deepcopy] is the identity on the immutable values used here.
    - [TNode.font] is one [TFont] object shared by all nodes; neither the
      font nor its seven setters are part of this development. *)

From Stdlib Require Import ZArith QArith String List.
From stdpp Require Import base gmap sets list strings.

Close Scope Q_scope.
Open Scope Z_scope.

(** ** Geometry, colours *)

Record Vec2 := mkVec2 { vx : Q; vy : Q }.

(** [Vec2()] *)
Definition Vec2_default : Vec2 := mkVec2 0%Q 0%Q.

Record TColor := mkTColor { tc_r : Z; tc_g : Z; tc_b : Z; tc_a : Z }.

(** [TColor.swapped], [None] standing for an omitted argument. *)
Definition swapped (c : TColor) (r g b a : option Z) : TColor :=
  mkTColor (default (tc_r c) r) (default (tc_g c) g)
           (default (tc_b c) b) (default (tc_a c) a).

(** Comparisons on floats, as booleans. *)
Definition Qltb (x y : Q) : bool := negb (Qle_bool y x).
Definition Qleb (x y : Q) : bool := Qle_bool x y.

(** [int(q)]: truncation towards zero (of a number; [int] of a NaN
    raises, and there is no NaN among the rationals). *)
Definition int_of_Q (q : Q) : Z := Z.quot (Qnum q) (Zpos (Qden q)).

(** ** Entities *)

(** [TNode], without its [font]. *)
Record TNode := mkTNode {
  n_id : string;
  n_position : Vec2;
  n_rectSize : Vec2;
  n_floating : bool;
  n_compi : Z;
  n_fillColor : TColor;
  n_outlineColor : TColor;
  n_outlineThickness : Q
}.

(** [TNode(id, position, rectSize, floating)] with the dataclass defaults. *)
Definition TNode_new (id : string) (pos size : Vec2) (floating : bool) : TNode :=
  mkTNode id pos size floating (-1)
          (mkTColor 255 150 80 255) (mkTColor 255 100 80 255) 3%Q.

Record TSpeciesNode := mkTSpeciesNode { sn_stoich : Q; sn_handlePos : Vec2 }.

(** [TSpeciesNode(stoich)] *)
Definition TSpeciesNode_new (stoich : Q) : TSpeciesNode :=
  mkTSpeciesNode stoich Vec2_default.

Record TReaction := mkTReaction {
  r_id : string;
  r_centerPos : option Vec2;
  r_rateLaw : string;
  r_reactants : gmap Z TSpeciesNode;
  r_products : gmap Z TSpeciesNode;
  r_fillColor : TColor;
  r_thickness : Q;
  r_centerHandlePos : Vec2;
  r_bezierCurves : bool
}.

(** [TReaction(id)] *)
Definition TReaction_new (id : string) : TReaction :=
  mkTReaction id None EmptyString ∅ ∅ (mkTColor 255 150 80 255) 3%Q
              Vec2_default true.

Record TCompartment := mkTCompartment {
  c_id : string;
  c_position : Vec2;
  c_rectSize : Vec2;
  c_node_indices : gset Z;
  c_volume : Q;
  c_fillColor : TColor;
  c_outlineColor : TColor;
  c_outlineThickness : Q
}.

(** [TCompartment(id, position, rectSize)] *)
Definition TCompartment_new (id : string) (pos size : Vec2) : TCompartment :=
  mkTCompartment id pos size ∅ 1%Q
                 (mkTColor 0 247 255 255) (mkTColor 0 106 255 255) 2%Q.

(** ** Field updates (Python attribute assignment) *)

Definition set_n_id (v : string) (n : TNode) : TNode :=
  mkTNode v (n_position n) (n_rectSize n) (n_floating n) (n_compi n)
          (n_fillColor n) (n_outlineColor n) (n_outlineThickness n).
Definition set_n_position (v : Vec2) (n : TNode) : TNode :=
  mkTNode (n_id n) v (n_rectSize n) (n_floating n) (n_compi n)
          (n_fillColor n) (n_outlineColor n) (n_outlineThickness n).
Definition set_n_rectSize (v : Vec2) (n : TNode) : TNode :=
  mkTNode (n_id n) (n_position n) v (n_floating n) (n_compi n)
          (n_fillColor n) (n_outlineColor n) (n_outlineThickness n).
Definition set_n_floating (v : bool) (n : TNode) : TNode :=
  mkTNode (n_id n) (n_position n) (n_rectSize n) v (n_compi n)
          (n_fillColor n) (n_outlineColor n) (n_outlineThickness n).
Definition set_n_compi (v : Z) (n : TNode) : TNode :=
  mkTNode (n_id n) (n_position n) (n_rectSize n) (n_floating n) v
          (n_fillColor n) (n_outlineColor n) (n_outlineThickness n).
Definition set_n_fillColor (v : TColor) (n : TNode) : TNode :=
  mkTNode (n_id n) (n_position n) (n_rectSize n) (n_floating n) (n_compi n)
          v (n_outlineColor n) (n_outlineThickness n).
Definition set_n_outlineColor (v : TColor) (n : TNode) : TNode :=
  mkTNode (n_id n) (n_position n) (n_rectSize n) (n_floating n) (n_compi n)
          (n_fillColor n) v (n_outlineThickness n).
Definition set_n_outlineThickness (v : Q) (n : TNode) : TNode :=
  mkTNode (n_id n) (n_position n) (n_rectSize n) (n_floating n) (n_compi n)
          (n_fillColor n) (n_outlineColor n) v.

Definition set_sn_stoich (v : Q) (sn : TSpeciesNode) : TSpeciesNode :=
  mkTSpeciesNode v (sn_handlePos sn).
Definition set_sn_handlePos (v : Vec2) (sn : TSpeciesNode) : TSpeciesNode :=
  mkTSpeciesNode (sn_stoich sn) v.

Definition set_r_id (v : string) (x : TReaction) : TReaction :=
  mkTReaction v (r_centerPos x) (r_rateLaw x) (r_reactants x) (r_products x)
              (r_fillColor x) (r_thickness x) (r_centerHandlePos x) (r_bezierCurves x).
Definition set_r_centerPos (v : option Vec2) (x : TReaction) : TReaction :=
  mkTReaction (r_id x) v (r_rateLaw x) (r_reactants x) (r_products x)
              (r_fillColor x) (r_thickness x) (r_centerHandlePos x) (r_bezierCurves x).
Definition set_r_rateLaw (v : string) (x : TReaction) : TReaction :=
  mkTReaction (r_id x) (r_centerPos x) v (r_reactants x) (r_products x)
              (r_fillColor x) (r_thickness x) (r_centerHandlePos x) (r_bezierCurves x).
Definition set_r_reactants (v : gmap Z TSpeciesNode) (x : TReaction) : TReaction :=
  mkTReaction (r_id x) (r_centerPos x) (r_rateLaw x) v (r_products x)
              (r_fillColor x) (r_thickness x) (r_centerHandlePos x) (r_bezierCurves x).
Definition set_r_products (v : gmap Z TSpeciesNode) (x : TReaction) : TReaction :=
  mkTReaction (r_id x) (r_centerPos x) (r_rateLaw x) (r_reactants x) v
              (r_fillColor x) (r_thickness x) (r_centerHandlePos x) (r_bezierCurves x).
Definition set_r_fillColor (v : TColor) (x : TReaction) : TReaction :=
  mkTReaction (r_id x) (r_centerPos x) (r_rateLaw x) (r_reactants x) (r_products x)
              v (r_thickness x) (r_centerHandlePos x) (r_bezierCurves x).
Definition set_r_thickness (v : Q) (x : TReaction) : TReaction :=
  mkTReaction (r_id x) (r_centerPos x) (r_rateLaw x) (r_reactants x) (r_products x)
              (r_fillColor x) v (r_centerHandlePos x) (r_bezierCurves x).
Definition set_r_centerHandlePos (v : Vec2) (x : TReaction) : TReaction :=
  mkTReaction (r_id x) (r_centerPos x) (r_rateLaw x) (r_reactants x) (r_products x)
              (r_fillColor x) (r_thickness x) v (r_bezierCurves x).
Definition set_r_bezierCurves (v : bool) (x : TReaction) : TReaction :=
  mkTReaction (r_id x) (r_centerPos x) (r_rateLaw x) (r_reactants x) (r_products x)
              (r_fillColor x) (r_thickness x) (r_centerHandlePos x) v.

Definition set_c_id (v : string) (c : TCompartment) : TCompartment :=
  mkTCompartment v (c_position c) (c_rectSize c) (c_node_indices c) (c_volume c)
                 (c_fillColor c) (c_outlineColor c) (c_outlineThickness c).
Definition set_c_position (v : Vec2) (c : TCompartment) : TCompartment :=
  mkTCompartment (c_id c) v (c_rectSize c) (c_node_indices c) (c_volume c)
                 (c_fillColor c) (c_outlineColor c) (c_outlineThickness c).
Definition set_c_rectSize (v : Vec2) (c : TCompartment) : TCompartment :=
  mkTCompartment (c_id c) (c_position c) v (c_node_indices c) (c_volume c)
                 (c_fillColor c) (c_outlineColor c) (c_outlineThickness c).
Definition set_c_node_indices (v : gset Z) (c : TCompartment) : TCompartment :=
  mkTCompartment (c_id c) (c_position c) (c_rectSize c) v (c_volume c)
                 (c_fillColor c) (c_outlineColor c) (c_outlineThickness c).
Definition set_c_volume (v : Q) (c : TCompartment) : TCompartment :=
  mkTCompartment (c_id c) (c_position c) (c_rectSize c) (c_node_indices c) v
                 (c_fillColor c) (c_outlineColor c) (c_outlineThickness c).
Definition set_c_fillColor (v : TColor) (c : TCompartment) : TCompartment :=
  mkTCompartment (c_id c) (c_position c) (c_rectSize c) (c_node_indices c) (c_volume c)
                 v (c_outlineColor c) (c_outlineThickness c).
Definition set_c_outlineColor (v : TColor) (c : TCompartment) : TCompartment :=
  mkTCompartment (c_id c) (c_position c) (c_rectSize c) (c_node_indices c) (c_volume c)
                 (c_fillColor c) v (c_outlineThickness c).
Definition set_c_outlineThickness (v : Q) (c : TCompartment) : TCompartment :=
  mkTCompartment (c_id c) (c_position c) (c_rectSize c) (c_node_indices c) (c_volume c)
                 (c_fillColor c) (c_outlineColor c) v.

(** ** [defaultdict(set)] *)

(** [m[k]] on a defaultdict: the value read and the map afterwards. *)
Definition dd_get (k : Z) (m : gmap Z (gset Z)) : gset Z * gmap Z (gset Z) :=
  match m !! k with
  | Some v => (v, m)
  | None => (∅, <[k := ∅]> m)
  end.

(** [m[k].add(x)] *)
Definition dd_add (k x : Z) (m : gmap Z (gset Z)) : gmap Z (gset Z) :=
  <[k := (dd_get k m).1 ∪ {[x]}]> m.

(** [m[k].remove(x)]; [None] is the [KeyError] of [set.remove], raised after
    the defaultdict has created the entry. *)
Definition dd_remove (k x : Z) (m : gmap Z (gset Z))
  : option (gmap Z (gset Z)) * gmap Z (gset Z) :=
  let '(v, m') := dd_get k m in
  if decide (x ∈ v) then (Some (<[k := v ∖ {[x]}]> m'), m') else (None, m').

(** What a client observes when it reads key [k]. *)
Definition dd_lookup (m : gmap Z (gset Z)) (k : Z) : gset Z :=
  default ∅ (m !! k).

(** ** TNetwork *)

Record TNetwork := mkTNetwork {
  net_id : string;
  nodes : gmap Z TNode;
  reactions : gmap Z TReaction;
  compartments : gmap Z TCompartment;
  baseNodes : gset Z;
  srcMap : gmap Z (gset Z);
  destMap : gmap Z (gset Z);
  lastNodeIdx : Z;
  lastReactionIdx : Z;
  lastCompartmentIdx : Z
}.

Definition set_nodes (v : gmap Z TNode) (n : TNetwork) : TNetwork :=
  mkTNetwork (net_id n) v (reactions n) (compartments n) (baseNodes n)
             (srcMap n) (destMap n) (lastNodeIdx n) (lastReactionIdx n)
             (lastCompartmentIdx n).
Definition set_reactions (v : gmap Z TReaction) (n : TNetwork) : TNetwork :=
  mkTNetwork (net_id n) (nodes n) v (compartments n) (baseNodes n)
             (srcMap n) (destMap n) (lastNodeIdx n) (lastReactionIdx n)
             (lastCompartmentIdx n).
Definition set_compartments (v : gmap Z TCompartment) (n : TNetwork) : TNetwork :=
  mkTNetwork (net_id n) (nodes n) (reactions n) v (baseNodes n)
             (srcMap n) (destMap n) (lastNodeIdx n) (lastReactionIdx n)
             (lastCompartmentIdx n).
Definition set_baseNodes (v : gset Z) (n : TNetwork) : TNetwork :=
  mkTNetwork (net_id n) (nodes n) (reactions n) (compartments n) v
             (srcMap n) (destMap n) (lastNodeIdx n) (lastReactionIdx n)
             (lastCompartmentIdx n).
Definition set_srcMap (v : gmap Z (gset Z)) (n : TNetwork) : TNetwork :=
  mkTNetwork (net_id n) (nodes n) (reactions n) (compartments n) (baseNodes n)
             v (destMap n) (lastNodeIdx n) (lastReactionIdx n)
             (lastCompartmentIdx n).
Definition set_destMap (v : gmap Z (gset Z)) (n : TNetwork) : TNetwork :=
  mkTNetwork (net_id n) (nodes n) (reactions n) (compartments n) (baseNodes n)
             (srcMap n) v (lastNodeIdx n) (lastReactionIdx n)
             (lastCompartmentIdx n).
Definition set_lastNodeIdx (v : Z) (n : TNetwork) : TNetwork :=
  mkTNetwork (net_id n) (nodes n) (reactions n) (compartments n) (baseNodes n)
             (srcMap n) (destMap n) v (lastReactionIdx n) (lastCompartmentIdx n).
Definition set_lastReactionIdx (v : Z) (n : TNetwork) : TNetwork :=
  mkTNetwork (net_id n) (nodes n) (reactions n) (compartments n) (baseNodes n)
             (srcMap n) (destMap n) (lastNodeIdx n) v (lastCompartmentIdx n).
Definition set_lastCompartmentIdx (v : Z) (n : TNetwork) : TNetwork :=
  mkTNetwork (net_id n) (nodes n) (reactions n) (compartments n) (baseNodes n)
             (srcMap n) (destMap n) (lastNodeIdx n) (lastReactionIdx n) v.

(** [max(d.keys(), default=-1)]: the greatest key, if there is one. *)
Definition max_key {V} (d : gmap Z V) : option Z :=
  map_fold (λ k _ acc, Some (match acc with Some a => Z.max k a | None => k end))
           None d.

(** [max(d.keys(), default=-1) + 1] *)
Definition next_index {V} (d : gmap Z V) : Z := default (-1) (max_key d) + 1.

(** The two loops of [TNetwork.__init__] that fill [srcMap] and [destMap]:
    every key of [side reaction] gets the reaction's index added. *)
Definition index_side (side : TReaction → gmap Z TSpeciesNode)
    (rs : gmap Z TReaction) : gmap Z (gset Z) :=
  map_fold (λ index reaction acc,
              set_fold (λ node acc', dd_add node index acc') acc (dom (side reaction)))
           ∅ rs.

(** [TNetwork.__init__(id, nodes, reactions, compartments)].  The base set
    is built with the truth value of [n.compi], i.e. [n.compi != 0]. *)
Definition TNetwork_init (id : string) (ns : gmap Z TNode)
    (rs : gmap Z TReaction) (cs : gmap Z TCompartment) : TNetwork :=
  mkTNetwork id ns rs cs
    (dom (filter (λ kv, n_compi kv.2 ≠ 0) ns))
    (index_side r_reactants rs)
    (index_side r_products rs)
    (next_index ns) (next_index rs) (next_index cs).

(** [TNetwork(id)] *)
Definition TNetwork_new (id : string) : TNetwork := TNetwork_init id ∅ ∅ ∅.

(** [TNetwork.addNode] *)
Definition net_addNode (node : TNode) (n : TNetwork) : TNetwork :=
  let n1 := set_nodes (<[lastNodeIdx n := node]> (nodes n)) n in
  let n2 := set_baseNodes (baseNodes n1 ∪ {[lastNodeIdx n1]}) n1 in
  set_lastNodeIdx (lastNodeIdx n2 + 1) n2.

(** [TNetwork.addReaction] *)
Definition net_addReaction (rea : TReaction) (n : TNetwork) : TNetwork :=
  let n1 := set_reactions (<[lastReactionIdx n := rea]> (reactions n)) n in
  let n2 := set_srcMap
              (set_fold (λ src acc, dd_add src (lastReactionIdx n1) acc)
                        (srcMap n1) (dom (r_reactants rea))) n1 in
  let n3 := set_destMap
              (set_fold (λ dest acc, dd_add dest (lastReactionIdx n2) acc)
                        (destMap n2) (dom (r_products rea))) n2 in
  set_lastReactionIdx (lastReactionIdx n3 + 1) n3.

(** [TNetwork.addCompartment], returning the index with the new network. *)
Definition net_addCompartment (comp : TCompartment) (n : TNetwork) : Z * TNetwork :=
  let ind := lastCompartmentIdx n in
  let n1 := set_compartments (<[ind := comp]> (compartments n)) n in
  (ind, set_lastCompartmentIdx (lastCompartmentIdx n1 + 1) n1).

(** ** Exceptions and the global state *)

Inductive Exn :=
| IDNotFoundError | IDRepeatError | NodeNotFreeError | NetIndexError
| ReactionIndexError | NodeIndexError | CompartmentIndexError | StoichError
| StackEmptyError | JSONError | FileError
| ValueError | KeyError | AssertionError | TypeError | ValidationError.

Global Instance Exn_eq_dec : EqDecision Exn.
Proof. solve_decision. Defined.

(** [ExceptionDict]: the class raised for an error code. *)
Definition ExceptionDict (code : Z) : option Exn :=
  match code with
  | -2 => Some IDNotFoundError
  | -3 => Some IDRepeatError
  | -4 => Some NodeNotFreeError
  | -5 => Some NetIndexError
  | -6 => Some ReactionIndexError
  | -7 => Some NodeIndexError
  | -8 => Some StoichError
  | -9 => Some StackEmptyError
  | -10 => Some JSONError
  | -11 => Some FileError
  | -12 => Some ValueError
  | -13 => Some CompartmentIndexError
  | _ => None
  end.

(** A registry value: what [networkDict] holds and what a snapshot is.
    ([TNetworkDict] also carries an attribute [lastNetIndex] that is set to
    0 on creation and never read or written again; the counter in use is
    the module-level global below.) *)
Abbreviation TNetworkDict := (gmap Z TNetwork).

(** [TStack.items]: most recent snapshot last. *)
Abbreviation TStack := (list TNetworkDict).

Record State := mkState {
  stackFlag : bool;
  errCode : Z;
  networkDict : TNetworkDict;
  netSetStack : TStack;
  redoStack : TStack;
  lastNetIndex : Z
}.

(** The module's initial globals, also what [reset()] installs. *)
Definition initial_state : State := mkState true 0 ∅ [] [] 0.

Definition set_stackFlag (v : bool) (s : State) : State :=
  mkState v (errCode s) (networkDict s) (netSetStack s) (redoStack s) (lastNetIndex s).
Definition set_errCode (v : Z) (s : State) : State :=
  mkState (stackFlag s) v (networkDict s) (netSetStack s) (redoStack s) (lastNetIndex s).
Definition set_networkDict (v : TNetworkDict) (s : State) : State :=
  mkState (stackFlag s) (errCode s) v (netSetStack s) (redoStack s) (lastNetIndex s).
Definition set_netSetStack (v : TStack) (s : State) : State :=
  mkState (stackFlag s) (errCode s) (networkDict s) v (redoStack s) (lastNetIndex s).
Definition set_redoStack (v : TStack) (s : State) : State :=
  mkState (stackFlag s) (errCode s) (networkDict s) (netSetStack s) v (lastNetIndex s).
Definition set_lastNetIndex (v : Z) (s : State) : State :=
  mkState (stackFlag s) (errCode s) (networkDict s) (netSetStack s) (redoStack s) v.

(** [TStack.push] (the deep copy is the identity) and [TStack.pop]. *)
Definition TStack_push (netDict : TNetworkDict) (items : TStack) : TStack :=
  items ++ [netDict].
Definition TStack_isEmpty (items : TStack) : bool :=
  match items with [] => true | _ => false end.
Definition TStack_pop (items : TStack) : option (TNetworkDict * TStack) :=
  match last items with
  | Some top => Some (top, removelast items)
  | None => None
  end.

(** ** The monad of API calls *)

Inductive result (A : Type) :=
| Ok (a : A) (s : State)
| Raise (e : Exn) (s : State).
Arguments Ok {A} a s.
Arguments Raise {A} e s.

(** The state a call leaves behind, whether it returned or raised. *)
Definition state_of {A} (x : result A) : State :=
  match x with Ok _ s => s | Raise _ s => s end.

Definition raised {A} (x : result A) : option Exn :=
  match x with Ok _ _ => None | Raise e _ => Some e end.

Definition M (A : Type) : Type := State → result A.

Global Instance M_ret : MRet M := λ A a s, Ok a s.
Global Instance M_bind : MBind M := λ A B f m s,
  match m s with
  | Ok a s' => f a s'
  | Raise e s' => Raise e s'
  end.

(** Binding with the computation first, so that the type of the bound
    variable is known when the continuation is elaborated. *)
Definition bind {A B} (m : M A) (f : A → M B) : M B := mbind f m.

Notation "'let*' x ':=' m 'in' k" := (bind m (λ x, k))
  (at level 10, x binder, m at level 100, k at level 200, only parsing).

Definition gets {A} (f : State → A) : M A := λ s, Ok (f s) s.
Definition modify (f : State → State) : M unit := λ s, Ok tt (f s).
Definition raise {A} (e : Exn) : M A := λ s, Raise e s.

(** [for x in xs: body(x)].  Where the source iterates over a set or over
    the keys of a dict, [xs] is [elements] of the set or of the key set:
    the order of the visits can differ from Python's, which shows only in
    how far a loop got when one of its steps raises. *)
Fixpoint for_each {A} (xs : list A) (body : A → M unit) : M unit :=
  match xs with
  | [] => mret tt
  | x :: xs' => body x ;; for_each xs' body
  end.

(** [try: body finally: fin].  [fin] runs on both exits; an exception
    raised by [fin] replaces the one in flight. *)
Definition try_finally {A} (body : M A) (fin : M unit) : M A := λ s,
  match body s with
  | Ok a s' => match fin s' with
               | Ok _ s'' => Ok a s''
               | Raise e s'' => Raise e s''
               end
  | Raise e s' => match fin s' with
                  | Ok _ s'' => Raise e s''
                  | Raise e' s'' => Raise e' s''
                  end
  end.

(** [raise ExceptionDict[errCode](errorDict[errCode])] with the current
    global [errCode]; a code outside the table is a [KeyError]. *)
Definition raise_errCode {A} : M A := λ s,
  match ExceptionDict (errCode s) with
  | Some e => Raise e s
  | None => Raise KeyError s
  end.

(** [if errCode < 0: raise ExceptionDict[errCode](...)] *)
Definition raise_if_errCode : M unit := λ s,
  if decide (errCode s < 0) then raise_errCode s else Ok tt s.

(** [_raiseError] *)
Definition _raiseError {A} (eCode : Z) : M A :=
  if decide (eCode < 0) then modify (set_errCode eCode) ;; raise_errCode
  else raise AssertionError.

(** [any(p(v) for v in d.values())] *)
Definition any_value {V} (p : V → bool) (d : gmap Z V) : bool :=
  existsb p ((map_to_list d).*2).

(** ** Undo/redo engine *)

Definition undo : M unit :=
  modify (set_errCode 0) ;;
  let* stack := gets netSetStack in
  (if TStack_isEmpty stack then modify (set_errCode (-9))
   else
     modify (λ s, set_redoStack (TStack_push (networkDict s) (redoStack s)) s) ;;
     match TStack_pop stack with
     | Some (top, rest) =>
         modify (λ s, set_networkDict top (set_netSetStack rest s))
     | None => raise KeyError
     end) ;;
  raise_if_errCode.

(** [redo] does not reset [errCode] on entry. *)
Definition redo : M unit :=
  let* stack := gets redoStack in
  (if TStack_isEmpty stack then modify (set_errCode (-9))
   else
     modify (λ s, set_netSetStack (TStack_push (networkDict s) (netSetStack s)) s) ;;
     match TStack_pop stack with
     | Some (top, rest) =>
         modify (λ s, set_networkDict top (set_redoStack rest s))
     | None => raise KeyError
     end) ;;
  raise_if_errCode.

Definition startGroup : M unit :=
  modify (set_redoStack []) ;;
  modify (λ s, set_netSetStack (TStack_push (networkDict s) (netSetStack s)) s) ;;
  modify (set_stackFlag false).

Definition endGroup : M unit :=
  modify (set_stackFlag true).

Definition _pushUndoStack : M unit :=
  let* flag := gets stackFlag in
  if flag then
    modify (set_redoStack []) ;;
    modify (λ s, set_netSetStack (TStack_push (networkDict s) (netSetStack s)) s)
  else mret tt.

Definition reset : M unit :=
  modify (λ _, initial_state).

(** ** Registry *)

Definition newNetwork (netID : string) : M unit :=
  modify (set_errCode 0) ;;
  let* d := gets networkDict in
  (if any_value (λ network, bool_decide (net_id network = netID)) d
   then modify (set_errCode (-3)) else mret tt) ;;
  let* code := gets errCode in
  if decide (code < 0) then raise_errCode
  else
    _pushUndoStack ;;
    modify (λ s, set_networkDict
                   (<[lastNetIndex s := TNetwork_new netID]> (networkDict s)) s) ;;
    modify (λ s, set_lastNetIndex (lastNetIndex s + 1) s).

Definition deleteNetwork (neti : Z) : M unit :=
  modify (set_errCode 0) ;;
  let* d := gets networkDict in
  (if decide (neti ∉ dom d) then modify (set_errCode (-5)) else mret tt) ;;
  let* code := gets errCode in
  if decide (code < 0) then raise_errCode
  else
    _pushUndoStack ;;
    modify (λ s, set_networkDict (delete neti (networkDict s)) s).

Definition clearNetworks : M unit :=
  modify (set_errCode 0) ;;
  _pushUndoStack ;;
  modify (set_networkDict ∅) ;;
  modify (set_lastNetIndex 0).

(** [_addNetwork] *)
Definition _addNetwork (network : TNetwork) : M Z :=
  let* d := gets networkDict in
  (if any_value (λ net, bool_decide (net_id net = net_id network)) d
   then _raiseError (-3) else mret tt) ;;
  _pushUndoStack ;;
  modify (λ s, set_networkDict (<[lastNetIndex s := network]> (networkDict s)) s) ;;
  modify (λ s, set_lastNetIndex (lastNetIndex s + 1) s) ;;
  let* i := gets lastNetIndex in
  mret (i - 1).

(** [_getNetwork]; its [errCode = -5] assigns a local, not the global. *)
Definition _getNetwork (neti : Z) : M TNetwork :=
  let* d := gets networkDict in
  match d !! neti with
  | Some net => mret net
  | None => raise NetIndexError
  end.

(** [_getNode] *)
Definition _getNode (neti nodei : Z) : M TNode :=
  let* net := _getNetwork neti in
  match nodes net !! nodei with
  | Some node => mret node
  | None => _raiseError (-7)
  end.

(** [_getReaction] *)
Definition _getReaction (neti reai : Z) : M TReaction :=
  let* net := _getNetwork neti in
  match reactions net !! reai with
  | Some rea => mret rea
  | None => _raiseError (-6)
  end.

(** [_getCompartment] *)
Definition _getCompartment (neti compi : Z) : M TCompartment :=
  let* net := _getNetwork neti in
  match compartments net !! compi with
  | Some comp => mret comp
  | None => modify (set_errCode (-13)) ;; raise CompartmentIndexError
  end.

(** In-place mutation of the objects reachable from [networkDict]. *)
Definition update_net (neti : Z) (f : TNetwork → TNetwork) : M unit :=
  modify (λ s, set_networkDict (alter f neti (networkDict s)) s).
Definition update_node (neti nodei : Z) (f : TNode → TNode) : M unit :=
  update_net neti (λ net, set_nodes (alter f nodei (nodes net)) net).
Definition update_reaction (neti reai : Z) (f : TReaction → TReaction) : M unit :=
  update_net neti (λ net, set_reactions (alter f reai (reactions net)) net).
Definition update_compartment (neti compi : Z) (f : TCompartment → TCompartment) : M unit :=
  update_net neti (λ net, set_compartments (alter f compi (compartments net)) net).

(** ** Python container operations that can raise *)

(** [s.remove(x)]: [None] is the [KeyError]. *)
Definition set_remove (x : Z) (X : gset Z) : option (gset Z) :=
  if decide (x ∈ X) then Some (X ∖ {[x]}) else None.

(** [n.baseNodes.remove(nodei)] on the network at [neti]. *)
Definition baseNodes_remove (neti nodei : Z) : M unit :=
  let* net := _getNetwork neti in
  match set_remove nodei (baseNodes net) with
  | Some X => update_net neti (set_baseNodes X)
  | None => raise KeyError
  end.

(** [n.compartments[compi].node_indices.remove(nodei)] *)
Definition node_indices_remove (neti compi nodei : Z) : M unit :=
  let* net := _getNetwork neti in
  match compartments net !! compi with
  | None => raise KeyError
  | Some comp =>
      match set_remove nodei (c_node_indices comp) with
      | Some X => update_compartment neti compi (set_c_node_indices X)
      | None => raise KeyError
      end
  end.

(** [net.srcMap[k]] as an expression: the read creates a missing entry. *)
Definition read_srcMap (neti k : Z) : M (gset Z) :=
  let* net := _getNetwork neti in
  update_net neti (set_srcMap (dd_get k (srcMap net)).2) ;;
  mret (dd_get k (srcMap net)).1.

Definition read_destMap (neti k : Z) : M (gset Z) :=
  let* net := _getNetwork neti in
  update_net neti (set_destMap (dd_get k (destMap net)).2) ;;
  mret (dd_get k (destMap net)).1.

(** [net.srcMap[k].remove(x)] *)
Definition srcMap_remove (neti k x : Z) : M unit :=
  let* net := _getNetwork neti in
  match dd_remove k x (srcMap net) with
  | (Some m, _) => update_net neti (set_srcMap m)
  | (None, m) => update_net neti (set_srcMap m) ;; raise KeyError
  end.

Definition destMap_remove (neti k x : Z) : M unit :=
  let* net := _getNetwork neti in
  match dd_remove k x (destMap net) with
  | (Some m, _) => update_net neti (set_destMap m)
  | (None, m) => update_net neti (set_destMap m) ;; raise KeyError
  end.

(** [assert errCode < 0] followed by the raise of the current code. *)
Definition raise_asserted {A} : M A := λ s,
  if decide (errCode s < 0) then raise_errCode s else Raise AssertionError s.

(** ** Mutation API: nodes *)

Definition addNode (neti : Z) (nodeID : string) (x y w h : Q)
    (floatingNode : bool) : M unit :=
  modify (set_errCode 0) ;;
  try_finally
    (let* n := _getNetwork neti in
     if any_value (λ i, bool_decide (n_id i = nodeID)) (nodes n)
     then modify (set_errCode (-3))
     else if Qltb x 0 || Qltb y 0 || Qleb w 0 || Qleb h 0
     then modify (set_errCode (-12))
     else
       _pushUndoStack ;;
       update_net neti
         (net_addNode (TNode_new nodeID (mkVec2 x y) (mkVec2 w h) floatingNode)))
    raise_if_errCode.

Definition getCompartmentOfNode (neti nodei : Z) : M Z :=
  let* net := _getNetwork neti in
  match nodes net !! nodei with
  | None => _raiseError (-7)
  | Some node => mret (n_compi node)
  end.

Definition deleteNode (neti nodei : Z) : M unit :=
  let* d := gets networkDict in
  match d !! neti with
  | None => modify (set_errCode (-5)) ;; raise_asserted
  | Some n =>
      if decide (nodei ∉ dom (nodes n))
      then modify (set_errCode (-7)) ;; raise_asserted
      else
        let* src := read_srcMap neti nodei in
        let* free :=
          (if decide (size src = 0%nat)
           then let* dest := read_destMap neti nodei in
                mret (bool_decide (size dest = 0%nat))
           else mret false) in
        if free : bool then
          modify (set_errCode 0) ;;
          _pushUndoStack ;;
          let* compi := getCompartmentOfNode neti nodei in
          (if decide (compi = -1) then baseNodes_remove neti nodei
           else node_indices_remove neti compi nodei) ;;
          update_net neti (λ net, set_nodes (delete nodei (nodes net)) net)
        else modify (set_errCode (-4)) ;; raise_asserted
  end.

Definition clearNetwork (neti : Z) : M unit :=
  modify (set_errCode 0) ;;
  let* d := gets networkDict in
  (if decide (neti ∉ dom d) then modify (set_errCode (-5)) else mret tt) ;;
  let* code := gets errCode in
  if decide (code < 0) then raise_errCode
  else
    _pushUndoStack ;;
    modify (λ s, set_networkDict
                   (alter (λ net, TNetwork_new (net_id net)) neti (networkDict s)) s).

Definition setNodeID (neti nodei : Z) (newID : string) : M unit :=
  modify (set_errCode 0) ;;
  let* d := gets networkDict in
  match d !! neti with
  | None => modify (set_errCode (-5)) ;; raise_errCode
  | Some net =>
      if decide (nodei ∉ dom (nodes net))
      then modify (set_errCode (-7)) ;; raise_errCode
      else if any_value (λ n, bool_decide (n_id n = newID)) (nodes net)
      then modify (set_errCode (-3)) ;; raise_errCode
      else _pushUndoStack ;; update_node neti nodei (set_n_id newID)
  end.

(** The shape shared by the node setters: resolve the network, resolve the
    node, test the value ([invalid] to code -12), snapshot, assign. *)
Definition node_setter (neti nodei : Z) (invalid : bool) (f : TNode → TNode) : M unit :=
  modify (set_errCode 0) ;;
  let* d := gets networkDict in
  match d !! neti with
  | None => modify (set_errCode (-5)) ;; raise_errCode
  | Some n =>
      if decide (nodei ∉ dom (nodes n))
      then modify (set_errCode (-7)) ;; raise_errCode
      else if invalid then modify (set_errCode (-12)) ;; raise_errCode
      else _pushUndoStack ;; update_node neti nodei f
  end.

Definition setNodeCoordinate (neti nodei : Z) (x y : Q)
    (allowNegativeCoordinates : bool) : M unit :=
  let lowerLimit : Q :=
    if allowNegativeCoordinates then inject_Z (-1000000000000) else 0%Q in
  node_setter neti nodei (Qltb x lowerLimit || Qltb y lowerLimit)
              (set_n_position (mkVec2 x y)).

Definition setNodeSize (neti nodei : Z) (w h : Q) : M unit :=
  node_setter neti nodei (Qleb w 0 || Qleb h 0) (set_n_rectSize (mkVec2 w h)).

Definition setNodeFloatingStatus (neti nodei : Z) (floatingStatus : bool) : M unit :=
  node_setter neti nodei false (set_n_floating floatingStatus).

(** [r < 0 or r > 255 or g < 0 or g > 255 or b < 0 or b > 255] *)
Definition rgb_out_of_range (r g b : Z) : bool :=
  bool_decide (r < 0) || bool_decide (r > 255) || bool_decide (g < 0)
  || bool_decide (g > 255) || bool_decide (b < 0) || bool_decide (b > 255).

(** [a < 0 or a > 1] *)
Definition alpha_out_of_range (a : Q) : bool := Qltb a 0 || Qltb 1 a.

Definition setNodeFillColorRGB (neti nodei r g b : Z) : M unit :=
  node_setter neti nodei (rgb_out_of_range r g b)
    (λ n, set_n_fillColor (swapped (n_fillColor n) (Some r) (Some g) (Some b) None) n).

Definition setNodeFillColorAlpha (neti nodei : Z) (a : Q) : M unit :=
  modify (set_errCode 0) ;;
  let* d := gets networkDict in
  if decide (neti ∉ dom d) then modify (set_errCode (-5)) ;; raise_errCode
  else
    let* node := _getNode neti nodei in
    if alpha_out_of_range a then modify (set_errCode (-12)) ;; raise_errCode
    else
      _pushUndoStack ;;
      update_node neti nodei
        (λ n, set_n_fillColor
                (swapped (n_fillColor n) None None None (Some (int_of_Q (a * 255)%Q))) n).

Definition setNodeOutlineColorRGB (neti nodei r g b : Z) : M unit :=
  node_setter neti nodei (rgb_out_of_range r g b)
    (λ n, set_n_outlineColor
            (swapped (n_outlineColor n) (Some r) (Some g) (Some b) None) n).

Definition setNodeOutlineColorAlpha (neti nodei : Z) (a : Q) : M unit :=
  node_setter neti nodei (alpha_out_of_range a)
    (λ n, set_n_outlineColor
            (swapped (n_outlineColor n) None None None (Some (int_of_Q (a * 255)%Q))) n).

Definition setNodeOutlineThickness (neti nodei : Z) (thickness : Q) : M unit :=
  node_setter neti nodei (Qleb thickness 0) (set_n_outlineThickness thickness).

(** ** Mutation API: reactions *)

(** [for k in keys: d[k] = TSpeciesNode(1)] *)
Definition species_of (keys : list Z) : gmap Z TSpeciesNode :=
  foldl (λ acc k, <[k := TSpeciesNode_new 1%Q]> acc) ∅ keys.

Definition createReaction (neti : Z) (reaID : string) (sources targets : list Z)
  : M unit :=
  modify (set_errCode 0) ;;
  if bool_decide (length sources = 0%nat) || bool_decide (length targets = 0%nat)
  then raise ValueError
  else
    let* net := _getNetwork neti in
    if any_value (λ r, bool_decide (r_id r = reaID)) (reactions net)
    then modify (set_errCode (-3)) ;; raise_errCode
    else
      (if existsb (λ nodei, bool_decide (nodei ∉ dom (nodes net))) sources
       then _raiseError (-7) else mret tt) ;;
      (if existsb (λ nodei, bool_decide (nodei ∉ dom (nodes net))) targets
       then _raiseError (-7) else mret tt) ;;
      if decide ((list_to_set sources : gset Z) = list_to_set targets)
      then raise ValueError
      else
        _pushUndoStack ;;
        let newReact :=
          set_r_products (species_of targets)
            (set_r_reactants (species_of sources) (TReaction_new reaID)) in
        update_net neti (net_addReaction newReact).

Definition deleteReaction (neti reai : Z) : M unit :=
  modify (set_errCode 0) ;;
  let* d := gets networkDict in
  match d !! neti with
  | None => modify (set_errCode (-5)) ;; raise_errCode
  | Some n =>
      if decide (reai ∉ dom (reactions n))
      then modify (set_errCode (-6)) ;; raise_errCode
      else
        _pushUndoStack ;;
        let* net := _getNetwork neti in
        let* reaction := _getReaction neti reai in
        for_each (elements (dom (r_reactants reaction)))
                 (λ src, srcMap_remove neti src reai) ;;
        for_each (elements (dom (r_products reaction)))
                 (λ dest, destMap_remove neti dest reai) ;;
        update_net neti (λ net, set_reactions (delete reai (reactions net)) net)
  end.

Definition clearReactions (neti : Z) : M unit :=
  modify (set_errCode 0) ;;
  let* d := gets networkDict in
  (if decide (neti ∉ dom d) then modify (set_errCode (-5)) else mret tt) ;;
  let* code := gets errCode in
  if decide (code < 0) then raise_errCode
  else
    _pushUndoStack ;;
    let* net := _getNetwork neti in
    update_net neti (set_reactions ∅) ;;
    update_net neti (set_srcMap ∅) ;;
    update_net neti (set_destMap ∅).

Definition setReactionID (neti reai : Z) (newID : string) : M unit :=
  modify (set_errCode 0) ;;
  let* d := gets networkDict in
  match d !! neti with
  | None => modify (set_errCode (-5)) ;; raise_errCode
  | Some net =>
      if decide (reai ∉ dom (reactions net))
      then modify (set_errCode (-6)) ;; raise_errCode
      else if any_value (λ r, bool_decide (r_id r = newID)) (reactions net)
      then modify (set_errCode (-3)) ;; raise_errCode
      else _pushUndoStack ;; update_reaction neti reai (set_r_id newID)
  end.

(** The shape shared by the reaction setters. *)
Definition reaction_setter (neti reai : Z) (invalid : bool)
    (f : TReaction → TReaction) : M unit :=
  modify (set_errCode 0) ;;
  let* d := gets networkDict in
  match d !! neti with
  | None => modify (set_errCode (-5)) ;; raise_errCode
  | Some n =>
      if decide (reai ∉ dom (reactions n))
      then modify (set_errCode (-6)) ;; raise_errCode
      else if invalid then modify (set_errCode (-12)) ;; raise_errCode
      else _pushUndoStack ;; update_reaction neti reai f
  end.

Definition setRateLaw (neti reai : Z) (rateLaw : string) : M unit :=
  reaction_setter neti reai false (set_r_rateLaw rateLaw).

(** [setReactionCenterPos] takes no snapshot and leaves [errCode] alone. *)
Definition setReactionCenterPos (neti reai : Z) (centerPos : option Vec2) : M unit :=
  let* r := _getReaction neti reai in
  update_reaction neti reai (set_r_centerPos centerPos).

(** The shape shared by the four per-species setters; [bad] is the value
    test that yields code -8 (absent for the handle positions). *)
Definition species_setter (side : TReaction → gmap Z TSpeciesNode)
    (set_side : gmap Z TSpeciesNode → TReaction → TReaction)
    (neti reai nodeIdx : Z) (bad : bool) (f : TSpeciesNode → TSpeciesNode)
  : M unit :=
  modify (set_errCode 0) ;;
  let* d := gets networkDict in
  match d !! neti with
  | None => modify (set_errCode (-5)) ;; raise_errCode
  | Some n =>
      match reactions n !! reai with
      | None => modify (set_errCode (-6)) ;; raise_errCode
      | Some rea =>
          if decide (nodeIdx ∉ dom (nodes n))
          then modify (set_errCode (-7)) ;; raise_errCode
          else if decide (nodeIdx ∉ dom (side rea)) then raise ValueError
          else if bad then modify (set_errCode (-8)) ;; raise_errCode
          else
            _pushUndoStack ;;
            update_reaction neti reai (λ r, set_side (alter f nodeIdx (side r)) r)
      end
  end.

Definition setReactionSrcNodeStoich (neti reai srcNodeIdx : Z) (newStoich : Q) : M unit :=
  species_setter r_reactants set_r_reactants neti reai srcNodeIdx
                 (Qleb newStoich 0) (set_sn_stoich newStoich).

Definition setReactionDestNodeStoich (neti reai destNodeIdx : Z) (newStoich : Q) : M unit :=
  species_setter r_products set_r_products neti reai destNodeIdx
                 (Qleb newStoich 0) (set_sn_stoich newStoich).

Definition setReactionSrcNodeHandlePosition (neti reai srcNodeIdx : Z)
    (handlePosX handlePosY : Q) : M unit :=
  species_setter r_reactants set_r_reactants neti reai srcNodeIdx
                 false (set_sn_handlePos (mkVec2 handlePosX handlePosY)).

Definition setReactionDestNodeHandlePosition (neti reai destNodeIdx : Z)
    (handlePosX handlePosY : Q) : M unit :=
  species_setter r_products set_r_products neti reai destNodeIdx
                 false (set_sn_handlePos (mkVec2 handlePosX handlePosY)).

Definition setReactionFillColorRGB (neti reai R G B : Z) : M unit :=
  reaction_setter neti reai (rgb_out_of_range R G B)
    (λ r, set_r_fillColor (swapped (r_fillColor r) (Some R) (Some G) (Some B) None) r).

Definition setReactionFillColorAlpha (neti reai : Z) (a : Q) : M unit :=
  reaction_setter neti reai (alpha_out_of_range a)
    (λ r, set_r_fillColor
            (swapped (r_fillColor r) None None None (Some (int_of_Q (a * 255)%Q))) r).

Definition setReactionLineThickness (neti reai : Z) (thickness : Q) : M unit :=
  reaction_setter neti reai (Qleb thickness 0) (set_r_thickness thickness).

Definition setReactionBezierCurves (neti reai : Z) (bezierCurves : bool) : M unit :=
  reaction_setter neti reai false (set_r_bezierCurves bezierCurves).

Definition setReactionCenterHandlePosition (neti reai : Z)
    (centerHandlePosX centerHandlePosY : Q) : M unit :=
  reaction_setter neti reai false
    (set_r_centerHandlePos (mkVec2 centerHandlePosX centerHandlePosY)).

(** [getSrcReactions], [getDestReactions]: the defaultdict read may add an
    empty entry. *)
Definition getSrcReactions (neti nodei : Z) : M (gset Z) :=
  let* net := _getNetwork neti in read_srcMap neti nodei.

Definition getDestReactions (neti nodei : Z) : M (gset Z) :=
  let* net := _getNetwork neti in read_destMap neti nodei.

(** ** Mutation API: compartments *)

Definition addCompartment (neti : Z) (compID : string) (x y w h : Q) : M Z :=
  (if Qltb x 0 || Qltb y 0 || Qltb w 0 || Qltb h 0
   then _raiseError (-12) else mret tt) ;;
  let* net := _getNetwork neti in
  let comp := TCompartment_new compID (mkVec2 x y) (mkVec2 w h) in
  (if any_value (λ c, bool_decide (compID = c_id c)) (compartments net)
   then _raiseError (-3) else mret tt) ;;
  _pushUndoStack ;;
  update_net neti (λ n, (net_addCompartment comp n).2) ;;
  mret (net_addCompartment comp net).1.

Definition deleteCompartment (neti compi : Z) : M unit :=
  let* net := _getNetwork neti in
  match compartments net !! compi with
  | None => _raiseError (-13)
  | Some comp =>
      _pushUndoStack ;;
      for_each (elements (c_node_indices comp))
        (λ nodei,
           let* cur := _getNetwork neti in
           match nodes cur !! nodei with
           | None => raise KeyError
           | Some node =>
               if decide (n_compi node = compi) then
                 update_node neti nodei (set_n_compi (-1)) ;;
                 update_net neti (λ n, set_baseNodes (baseNodes n ∪ {[nodei]}) n)
               else raise AssertionError
           end) ;;
      update_net neti (λ n, set_compartments (delete compi (compartments n)) n)
  end.

Definition setCompartmentOfNode (neti nodei compi : Z) : M unit :=
  let* net := _getNetwork neti in
  let* node := _getNode neti nodei in
  _pushUndoStack ;;
  (if decide (n_compi node ≠ -1)
   then node_indices_remove neti (n_compi node) nodei
   else baseNodes_remove neti nodei) ;;
  (if decide (compi ≠ -1) then
     let* newComp := _getCompartment neti compi in
     update_compartment neti compi
       (λ c, set_c_node_indices (c_node_indices c ∪ {[nodei]}) c)
   else update_net neti (λ n, set_baseNodes (baseNodes n ∪ {[nodei]}) n)) ;;
  update_node neti nodei (set_n_compi compi).

Definition setCompartmentPosition (neti compi : Z) (x y : Q) : M unit :=
  (if Qltb x 0 || Qltb y 0 then _raiseError (-12) else mret tt) ;;
  _pushUndoStack ;;
  let* comp := _getCompartment neti compi in
  update_compartment neti compi (set_c_position (mkVec2 x y)).

Definition setCompartmentSize (neti compi : Z) (w h : Q) : M unit :=
  (if Qltb w 0 || Qltb h 0 then _raiseError (-12) else mret tt) ;;
  _pushUndoStack ;;
  let* comp := _getCompartment neti compi in
  update_compartment neti compi (set_c_rectSize (mkVec2 w h)).

Definition setCompartmentVolume (neti compi : Z) (volume : Q) : M unit :=
  _pushUndoStack ;;
  let* comp := _getCompartment neti compi in
  update_compartment neti compi (set_c_volume volume).

Definition setCompartmentID (neti compi : Z) (id : string) : M unit :=
  _pushUndoStack ;;
  let* comp := _getCompartment neti compi in
  update_compartment neti compi (set_c_id id).

Definition setCompartmentFillColor (neti compi : Z) (color : TColor) : M unit :=
  _pushUndoStack ;;
  let* comp := _getCompartment neti compi in
  update_compartment neti compi (set_c_fillColor color).

Definition setCompartmentOutlineColor (neti compi : Z) (color : TColor) : M unit :=
  _pushUndoStack ;;
  let* comp := _getCompartment neti compi in
  update_compartment neti compi (set_c_outlineColor color).

Definition setCompartmentOutlineThickness (neti compi : Z) (thickness : Q) : M unit :=
  _pushUndoStack ;;
  let* comp := _getCompartment neti compi in
  update_compartment neti compi (set_c_outlineThickness thickness).

(** ** Serialization boundary

    [NetworkSchema] and its nested schemas are declared with the
    marshmallow library.  The embedding keeps what the declarations in
    iodine.py decide: the attribute each field reads (a schema field reads
    the attribute of its own name and is left out of the dump when the
    object has no such attribute), the validator attached to each field,
    and the constructor each [post_load] calls with the loaded fields as
    keyword arguments.  A dumped or to-be-loaded object is a record of
    optional entries, [None] standing for an absent key. *)

Record NodeObj := mkNodeObj {
  no_id : option string;
  no_position : option (list Q);
  no_rectSize : option (list Q);
  no_floating : option bool;
  no_compartment : option Z;
  no_fillColor : option (list Z);
  no_outlineColor : option (list Z);
  no_outlineThickness : option Q
}.

Record SpeciesObj := mkSpeciesObj {
  so_stoich : option Q;
  so_handlePos : option (list Q)
}.

Record ReactionObj := mkReactionObj {
  ro_id : option string;
  ro_rateLaw : option string;
  ro_reactants : option (gmap Z SpeciesObj);
  ro_products : option (gmap Z SpeciesObj);
  ro_fillColor : option (list Z);
  ro_thickness : option Q;
  ro_centerHandlePos : option (list Q)
}.

Record CompartmentObj := mkCompartmentObj {
  co_id : option string;
  co_position : option (list Q);
  co_rectSize : option (list Q);
  co_nodes : option (list Z);
  co_volume : option Q;
  co_fillColor : option (list Z);
  co_outlineColor : option (list Z);
  co_outlineThickness : option Q
}.

Record NetworkObj := mkNetworkObj {
  nwo_id : option string;
  nwo_nodes : option (gmap Z NodeObj);
  nwo_reactions : option (gmap Z ReactionObj);
  nwo_compartments : option (gmap Z CompartmentObj)
}.

(** *** Dump *)

(** [Color._serialize] *)
Definition Color_serialize (value : TColor) : list Z :=
  [tc_r value; tc_g value; tc_b value]
  ++ (if decide (tc_a value ≠ 255) then [tc_a value] else []).

(** [Dim2._serialize] *)
Definition Dim2_serialize (value : Vec2) : list Q := [vx value; vy value].

(** [NodeSchema] dump: [TNode] has no attribute [compartment]. *)
Definition NodeSchema_dump (n : TNode) : NodeObj :=
  mkNodeObj (Some (n_id n)) (Some (Dim2_serialize (n_position n)))
            (Some (Dim2_serialize (n_rectSize n))) (Some (n_floating n))
            None
            (Some (Color_serialize (n_fillColor n)))
            (Some (Color_serialize (n_outlineColor n)))
            (Some (n_outlineThickness n)).

Definition SpeciesNode_dump (sn : TSpeciesNode) : SpeciesObj :=
  mkSpeciesObj (Some (sn_stoich sn)) (Some (Dim2_serialize (sn_handlePos sn))).

Definition ReactionSchema_dump (x : TReaction) : ReactionObj :=
  mkReactionObj (Some (r_id x)) (Some (r_rateLaw x))
                (Some (SpeciesNode_dump <$> r_reactants x))
                (Some (SpeciesNode_dump <$> r_products x))
                (Some (Color_serialize (r_fillColor x)))
                (Some (r_thickness x))
                (Some (Dim2_serialize (r_centerHandlePos x))).

(** [CompartmentSchema] dump: [TCompartment] has no attribute [nodes]. *)
Definition CompartmentSchema_dump (c : TCompartment) : CompartmentObj :=
  mkCompartmentObj (Some (c_id c)) (Some (Dim2_serialize (c_position c)))
                   (Some (Dim2_serialize (c_rectSize c)))
                   None
                   (Some (c_volume c))
                   (Some (Color_serialize (c_fillColor c)))
                   (Some (Color_serialize (c_outlineColor c)))
                   (Some (c_outlineThickness c)).

Definition NetworkSchema_dump (net : TNetwork) : NetworkObj :=
  mkNetworkObj (Some (net_id net))
               (Some (NodeSchema_dump <$> nodes net))
               (Some (ReactionSchema_dump <$> reactions net))
               (Some (CompartmentSchema_dump <$> compartments net)).

Definition dumpNetwork (neti : Z) : M NetworkObj :=
  let* net := _getNetwork neti in
  mret (NetworkSchema_dump net).

(** *** Load *)

(** Outcome of loading one value: the value, a recorded validation error
    ([Invalid], reported as [ValidationError] once all fields were seen),
    or an exception of a constructor called by a [post_load] ([Broken], a
    [TypeError] that propagates at once). *)
Inductive loaded (A : Type) :=
| Loaded (a : A)
| Invalid
| Broken.
Arguments Loaded {A} a.
Arguments Invalid {A}.
Arguments Broken {A}.

(** Fields of one object are all visited: validation errors accumulate,
    a constructor exception wins over them. *)
Definition lap {A B} (f : loaded (A → B)) (x : loaded A) : loaded B :=
  match f, x with
  | Broken, _ | _, Broken => Broken
  | Invalid, _ | _, Invalid => Invalid
  | Loaded g, Loaded a => Loaded (g a)
  end.

Definition ljoin {A} (x : loaded (loaded A)) : loaded A :=
  match x with
  | Loaded y => y
  | Invalid => Invalid
  | Broken => Broken
  end.

(** An absent key is no error; the field is then not passed on. *)
Definition opt_field {A B} (f : A → loaded B) (x : option A) : loaded (option B) :=
  match x with
  | None => Loaded None
  | Some a => lap (Loaded Some) (f a)
  end.

Definition is_Broken {A} (x : loaded A) : bool :=
  match x with Broken => true | _ => false end.
Definition is_Invalid {A} (x : loaded A) : bool :=
  match x with Invalid => true | _ => false end.
Definition loaded_value {A} (x : loaded A) : option A :=
  match x with Loaded a => Some a | _ => None end.

(** A [Mapping]/[Dict] field with nested values. *)
Definition load_map {A B} (f : A → loaded B) (m : gmap Z A) : loaded (gmap Z B) :=
  let rs := f <$> m in
  if any_value is_Broken rs then Broken
  else if any_value is_Invalid rs then Invalid
  else Loaded (omap loaded_value rs).

(** [Color._deserialize]: 3 or 4 entries, each in [0, 255]. *)
Definition Color_deserialize (value : list Z) : loaded TColor :=
  if forallb (λ val, bool_decide (0 ≤ val ≤ 255)) value then
    match value with
    | [r; g; b] => Loaded (mkTColor r g b 255)
    | [r; g; b; a] => Loaded (mkTColor r g b a)
    | _ => Invalid
    end
  else Invalid.

(** Modelled from the spec: the one-argument constructor of [Vec2]
    (canvas/geometry.py is not among the sources); a Vec2 "serializes as a
    2-element array of numbers".  [Dim2._deserialize] checks the length. *)
Definition Dim2_deserialize (value : list Q) : loaded Vec2 :=
  match value with
  | [x; y] => Loaded (mkVec2 x y)
  | _ => Invalid
  end.

(** [Dim]: a float validated with [Range(min=0)]. *)
Definition Dim_deserialize (value : Q) : loaded Q :=
  if Qleb 0 value then Loaded value else Invalid.

(** [NodeSchema.post_load]: [TNode] applied to the loaded entries as keyword arguments.  The dataclass has no
    parameter [compartment]; [id], [position], [rectSize] and [floating]
    have no default. *)
Definition TNode_kwargs (id : option string) (position rectSize : option Vec2)
    (floating : option bool) (compartment : option Z)
    (fillColor outlineColor : option TColor) (outlineThickness : option Q)
  : loaded TNode :=
  match compartment, id, position, rectSize, floating with
  | None, Some i, Some p, Some sz, Some f =>
      Loaded (mkTNode i p sz f (-1)
                (default (mkTColor 255 150 80 255) fillColor)
                (default (mkTColor 255 100 80 255) outlineColor)
                (default 3%Q outlineThickness))
  | _, _, _, _, _ => Broken
  end.

Definition NodeSchema_load (o : NodeObj) : loaded TNode :=
  ljoin
    (lap (lap (lap (lap (lap (lap (lap (lap (Loaded TNode_kwargs)
      (opt_field Loaded (no_id o)))
      (opt_field Dim2_deserialize (no_position o)))
      (opt_field Dim2_deserialize (no_rectSize o)))
      (opt_field Loaded (no_floating o)))
      (opt_field Loaded (no_compartment o)))
      (opt_field Color_deserialize (no_fillColor o)))
      (opt_field Color_deserialize (no_outlineColor o)))
      (opt_field Dim_deserialize (no_outlineThickness o))).

(** [SpeciesNode.post_load]: [TSpeciesNode] applied to the loaded entries as keyword arguments. *)
Definition TSpeciesNode_kwargs (stoich : option Q) (handlePos : option Vec2)
  : loaded TSpeciesNode :=
  match stoich with
  | Some st => Loaded (mkTSpeciesNode st (default Vec2_default handlePos))
  | None => Broken
  end.

Definition SpeciesNode_load (o : SpeciesObj) : loaded TSpeciesNode :=
  ljoin
    (lap (lap (Loaded TSpeciesNode_kwargs)
      (opt_field Loaded (so_stoich o)))
      (opt_field Dim2_deserialize (so_handlePos o))).

(** [ReactionSchema.post_load]: [TReaction] applied to the loaded entries as keyword arguments. *)
Definition TReaction_kwargs (id rateLaw : option string)
    (reactants products : option (gmap Z TSpeciesNode))
    (fillColor : option TColor) (thickness : option Q)
    (centerHandlePos : option Vec2) : loaded TReaction :=
  match id with
  | Some i =>
      Loaded (mkTReaction i None (default EmptyString rateLaw)
                (default ∅ reactants) (default ∅ products)
                (default (mkTColor 255 150 80 255) fillColor)
                (default 3%Q thickness)
                (default Vec2_default centerHandlePos) true)
  | None => Broken
  end.

Definition ReactionSchema_load (o : ReactionObj) : loaded TReaction :=
  ljoin
    (lap (lap (lap (lap (lap (lap (lap (Loaded TReaction_kwargs)
      (opt_field Loaded (ro_id o)))
      (opt_field Loaded (ro_rateLaw o)))
      (opt_field (load_map SpeciesNode_load) (ro_reactants o)))
      (opt_field (load_map SpeciesNode_load) (ro_products o)))
      (opt_field Color_deserialize (ro_fillColor o)))
      (opt_field Dim_deserialize (ro_thickness o)))
      (opt_field Dim2_deserialize (ro_centerHandlePos o))).

(** [CompartmentSchema.post_load]: [TCompartment] applied to the loaded entries as keyword arguments.  The dataclass
    has no parameter [nodes]. *)
Definition TCompartment_kwargs (id : option string)
    (position rectSize : option Vec2) (nodes : option (list Z))
    (volume : option Q) (fillColor outlineColor : option TColor)
    (outlineThickness : option Q) : loaded TCompartment :=
  match nodes, id, position, rectSize with
  | None, Some i, Some p, Some sz =>
      Loaded (mkTCompartment i p sz ∅ (default 1%Q volume)
                (default (mkTColor 0 247 255 255) fillColor)
                (default (mkTColor 0 106 255 255) outlineColor)
                (default 2%Q outlineThickness))
  | _, _, _, _ => Broken
  end.

Definition CompartmentSchema_load (o : CompartmentObj) : loaded TCompartment :=
  ljoin
    (lap (lap (lap (lap (lap (lap (lap (lap (Loaded TCompartment_kwargs)
      (opt_field Loaded (co_id o)))
      (opt_field Dim2_deserialize (co_position o)))
      (opt_field Dim2_deserialize (co_rectSize o)))
      (opt_field Loaded (co_nodes o)))
      (opt_field Dim_deserialize (co_volume o)))
      (opt_field Color_deserialize (co_fillColor o)))
      (opt_field Color_deserialize (co_outlineColor o)))
      (opt_field Dim_deserialize (co_outlineThickness o))).

(** [NetworkSchema.post_load]: [TNetwork] applied to the loaded entries as keyword arguments. *)
Definition TNetwork_kwargs (id : option string) (ns : option (gmap Z TNode))
    (rs : option (gmap Z TReaction)) (cs : option (gmap Z TCompartment))
  : loaded TNetwork :=
  match id with
  | Some i => Loaded (TNetwork_init i (default ∅ ns) (default ∅ rs) (default ∅ cs))
  | None => Broken
  end.

Definition NetworkSchema_load (o : NetworkObj) : loaded TNetwork :=
  ljoin
    (lap (lap (lap (lap (Loaded TNetwork_kwargs)
      (opt_field Loaded (nwo_id o)))
      (opt_field (load_map NodeSchema_load) (nwo_nodes o)))
      (opt_field (load_map ReactionSchema_load) (nwo_reactions o)))
      (opt_field (load_map CompartmentSchema_load) (nwo_compartments o))).

Definition loadNetwork (net_object : NetworkObj) : M Z :=
  match NetworkSchema_load net_object with
  | Loaded net => clearNetworks ;; _addNetwork net ;; mret 0
  | Invalid => raise ValidationError
  | Broken => raise TypeError
  end.

(** ** Colour getters *)

(** The shape shared by the getters of a node: resolve the network,
    resolve the node, return; code -5 or -7 otherwise. *)
Definition node_getter {A} (neti nodei : Z) (f : TNode → A) : M A :=
  modify (set_errCode 0) ;;
  let* d := gets networkDict in
  match d !! neti with
  | None => modify (set_errCode (-5)) ;; raise_errCode
  | Some n =>
      match nodes n !! nodei with
      | None => modify (set_errCode (-7)) ;; raise_errCode
      | Some node => mret (f node)
      end
  end.


(** [color1 = c.r; color1 = (color1 << 8) | c.g; color1 = (color1 << 8) | c.b] *)
Definition pack_rgb (c : TColor) : Z :=
  Z.lor (Z.shiftl (Z.lor (Z.shiftl (tc_r c) 8) (tc_g c)) 8) (tc_b c).

Definition getNodeFillColorRGB (neti nodei : Z) : M Z :=
  node_getter neti nodei (λ n, pack_rgb (n_fillColor n)).



(** ** Recipes *)

(** [getReactionIndex]: the index of a reaction with the given id.  The
    source returns the first one in the order of the dict; the items are
    visited here in the order of [map_to_list], which gives the same index
    whenever at most one reaction has the id. *)
Definition getReactionIndex (neti : Z) (reaID : string) : M Z :=
  modify (set_errCode 0) ;;
  let* d := gets networkDict in
  match d !! neti with
  | None => modify (set_errCode (-5)) ;; raise_errCode
  | Some net =>
      modify (set_errCode (-2)) ;;
      match List.find (λ ir, bool_decide (r_id ir.2 = reaID))
                      (map_to_list (reactions net)) with
      | Some ir => modify (set_errCode 0) ;; mret ir.1
      | None => raise_errCode
      end
  end.

Definition createUniUni (neti : Z) (reaID rateLaw : string) (srci desti : Z)
    (srcStoich destStoich : Q) : M unit :=
  startGroup ;;
  createReaction neti reaID [srci] [desti] ;;
  let* reai := getReactionIndex neti reaID in
  setReactionSrcNodeStoich neti reai srci srcStoich ;;
  setReactionDestNodeStoich neti reai desti destStoich ;;
  setRateLaw neti reai rateLaw ;;
  endGroup.

Definition CreateUniBi (neti : Z) (reaID rateLaw : string) (srci dest1i dest2i : Z)
    (srcStoich dest1Stoich dest2Stoich : Q) : M unit :=
  startGroup ;;
  createReaction neti reaID [srci] [dest1i; dest2i] ;;
  let* reai := getReactionIndex neti reaID in
  setReactionSrcNodeStoich neti reai srci srcStoich ;;
  setReactionDestNodeStoich neti reai dest1i dest1Stoich ;;
  setReactionDestNodeStoich neti reai dest2i dest2Stoich ;;
  setRateLaw neti reai rateLaw ;;
  endGroup.

Definition CreateBiUni (neti : Z) (reaID rateLaw : string) (src1i src2i desti : Z)
    (src1Stoich src2Stoich destStoich : Q) : M unit :=
  startGroup ;;
  createReaction neti reaID [src1i; src2i] [desti] ;;
  let* reai := getReactionIndex neti reaID in
  setReactionSrcNodeStoich neti reai src1i src1Stoich ;;
  setReactionSrcNodeStoich neti reai src2i src2Stoich ;;
  setReactionDestNodeStoich neti reai desti destStoich ;;
  setRateLaw neti reai rateLaw ;;
  endGroup.

Definition CreateBiBi (neti : Z) (reaID rateLaw : string)
    (src1i src2i dest1i dest2i : Z)
    (src1Stoich src2Stoich dest1Stoich dest2Stoich : Q) : M unit :=
  startGroup ;;
  createReaction neti reaID [src1i; src2i] [dest1i; dest2i] ;;
  let* reai := getReactionIndex neti reaID in
  setReactionSrcNodeStoich neti reai src1i src1Stoich ;;
  setReactionSrcNodeStoich neti reai src2i src2Stoich ;;
  setReactionDestNodeStoich neti reai dest1i dest1Stoich ;;
  setReactionDestNodeStoich neti reai dest2i dest2Stoich ;;
  setRateLaw neti reai rateLaw ;;
  endGroup.

(** The four recipes as one family. *)
Inductive Recipe :=
| R_UniUni (neti : Z) (reaID rateLaw : string) (srci desti : Z)
           (srcStoich destStoich : Q)
| R_UniBi (neti : Z) (reaID rateLaw : string) (srci dest1i dest2i : Z)
          (srcStoich dest1Stoich dest2Stoich : Q)
| R_BiUni (neti : Z) (reaID rateLaw : string) (src1i src2i desti : Z)
          (src1Stoich src2Stoich destStoich : Q)
| R_BiBi (neti : Z) (reaID rateLaw : string) (src1i src2i dest1i dest2i : Z)
         (src1Stoich src2Stoich dest1Stoich dest2Stoich : Q).

Definition recipe (r : Recipe) : M unit :=
  match r with
  | R_UniUni neti reaID rateLaw srci desti a b =>
      createUniUni neti reaID rateLaw srci desti a b
  | R_UniBi neti reaID rateLaw srci dest1i dest2i a b c =>
      CreateUniBi neti reaID rateLaw srci dest1i dest2i a b c
  | R_BiUni neti reaID rateLaw src1i src2i desti a b c =>
      CreateBiUni neti reaID rateLaw src1i src2i desti a b c
  | R_BiBi neti reaID rateLaw src1i src2i dest1i dest2i a b c d =>
      CreateBiBi neti reaID rateLaw src1i src2i dest1i dest2i a b c d
  end.

(** ** Sequences of calls *)

(** The mutators of the API.  The recipes [createUniUni], [CreateUniBi],
    [CreateBiUni] and [CreateBiBi] are themselves
    [startGroup(); ...; endGroup()] around calls listed here. *)
Inductive Call :=
| C_newNetwork (netID : string)
| C_deleteNetwork (neti : Z)
| C_clearNetworks
| C_clearNetwork (neti : Z)
| C_loadNetwork (net_object : NetworkObj)
| C_addNode (neti : Z) (nodeID : string) (x y w h : Q) (floatingNode : bool)
| C_deleteNode (neti nodei : Z)
| C_setNodeID (neti nodei : Z) (newID : string)
| C_setNodeCoordinate (neti nodei : Z) (x y : Q) (allowNegativeCoordinates : bool)
| C_setNodeSize (neti nodei : Z) (w h : Q)
| C_setNodeFloatingStatus (neti nodei : Z) (floatingStatus : bool)
| C_setNodeFillColorRGB (neti nodei r g b : Z)
| C_setNodeFillColorAlpha (neti nodei : Z) (a : Q)
| C_setNodeOutlineColorRGB (neti nodei r g b : Z)
| C_setNodeOutlineColorAlpha (neti nodei : Z) (a : Q)
| C_setNodeOutlineThickness (neti nodei : Z) (thickness : Q)
| C_createReaction (neti : Z) (reaID : string) (sources targets : list Z)
| C_deleteReaction (neti reai : Z)
| C_clearReactions (neti : Z)
| C_setReactionID (neti reai : Z) (newID : string)
| C_setRateLaw (neti reai : Z) (rateLaw : string)
| C_setReactionCenterPos (neti reai : Z) (centerPos : option Vec2)
| C_setReactionSrcNodeStoich (neti reai srcNodeIdx : Z) (newStoich : Q)
| C_setReactionDestNodeStoich (neti reai destNodeIdx : Z) (newStoich : Q)
| C_setReactionSrcNodeHandlePosition (neti reai srcNodeIdx : Z) (x y : Q)
| C_setReactionDestNodeHandlePosition (neti reai destNodeIdx : Z) (x y : Q)
| C_setReactionFillColorRGB (neti reai R G B : Z)
| C_setReactionFillColorAlpha (neti reai : Z) (a : Q)
| C_setReactionLineThickness (neti reai : Z) (thickness : Q)
| C_setReactionBezierCurves (neti reai : Z) (bezierCurves : bool)
| C_setReactionCenterHandlePosition (neti reai : Z) (x y : Q)
| C_addCompartment (neti : Z) (compID : string) (x y w h : Q)
| C_deleteCompartment (neti compi : Z)
| C_setCompartmentOfNode (neti nodei compi : Z)
| C_setCompartmentPosition (neti compi : Z) (x y : Q)
| C_setCompartmentSize (neti compi : Z) (w h : Q)
| C_setCompartmentVolume (neti compi : Z) (volume : Q)
| C_setCompartmentID (neti compi : Z) (id : string)
| C_setCompartmentFillColor (neti compi : Z) (color : TColor)
| C_setCompartmentOutlineColor (neti compi : Z) (color : TColor)
| C_setCompartmentOutlineThickness (neti compi : Z) (thickness : Q).

(** Forget the value a call returns. *)
Definition void {A} (m : M A) : M unit := let* _ := m in mret tt.

Definition call (c : Call) : M unit :=
  match c with
  | C_newNetwork netID => newNetwork netID
  | C_deleteNetwork neti => deleteNetwork neti
  | C_clearNetworks => clearNetworks
  | C_clearNetwork neti => clearNetwork neti
  | C_loadNetwork o => void (loadNetwork o)
  | C_addNode neti nodeID x y w h fl => addNode neti nodeID x y w h fl
  | C_deleteNode neti nodei => deleteNode neti nodei
  | C_setNodeID neti nodei newID => setNodeID neti nodei newID
  | C_setNodeCoordinate neti nodei x y al => setNodeCoordinate neti nodei x y al
  | C_setNodeSize neti nodei w h => setNodeSize neti nodei w h
  | C_setNodeFloatingStatus neti nodei fl => setNodeFloatingStatus neti nodei fl
  | C_setNodeFillColorRGB neti nodei r g b => setNodeFillColorRGB neti nodei r g b
  | C_setNodeFillColorAlpha neti nodei a => setNodeFillColorAlpha neti nodei a
  | C_setNodeOutlineColorRGB neti nodei r g b => setNodeOutlineColorRGB neti nodei r g b
  | C_setNodeOutlineColorAlpha neti nodei a => setNodeOutlineColorAlpha neti nodei a
  | C_setNodeOutlineThickness neti nodei t => setNodeOutlineThickness neti nodei t
  | C_createReaction neti reaID srcs tgts => createReaction neti reaID srcs tgts
  | C_deleteReaction neti reai => deleteReaction neti reai
  | C_clearReactions neti => clearReactions neti
  | C_setReactionID neti reai newID => setReactionID neti reai newID
  | C_setRateLaw neti reai rl => setRateLaw neti reai rl
  | C_setReactionCenterPos neti reai p => setReactionCenterPos neti reai p
  | C_setReactionSrcNodeStoich neti reai i st => setReactionSrcNodeStoich neti reai i st
  | C_setReactionDestNodeStoich neti reai i st => setReactionDestNodeStoich neti reai i st
  | C_setReactionSrcNodeHandlePosition neti reai i x y =>
      setReactionSrcNodeHandlePosition neti reai i x y
  | C_setReactionDestNodeHandlePosition neti reai i x y =>
      setReactionDestNodeHandlePosition neti reai i x y
  | C_setReactionFillColorRGB neti reai R G B => setReactionFillColorRGB neti reai R G B
  | C_setReactionFillColorAlpha neti reai a => setReactionFillColorAlpha neti reai a
  | C_setReactionLineThickness neti reai t => setReactionLineThickness neti reai t
  | C_setReactionBezierCurves neti reai bz => setReactionBezierCurves neti reai bz
  | C_setReactionCenterHandlePosition neti reai x y =>
      setReactionCenterHandlePosition neti reai x y
  | C_addCompartment neti compID x y w h => void (addCompartment neti compID x y w h)
  | C_deleteCompartment neti compi => deleteCompartment neti compi
  | C_setCompartmentOfNode neti nodei compi => setCompartmentOfNode neti nodei compi
  | C_setCompartmentPosition neti compi x y => setCompartmentPosition neti compi x y
  | C_setCompartmentSize neti compi w h => setCompartmentSize neti compi w h
  | C_setCompartmentVolume neti compi v => setCompartmentVolume neti compi v
  | C_setCompartmentID neti compi id => setCompartmentID neti compi id
  | C_setCompartmentFillColor neti compi c => setCompartmentFillColor neti compi c
  | C_setCompartmentOutlineColor neti compi c => setCompartmentOutlineColor neti compi c
  | C_setCompartmentOutlineThickness neti compi t =>
      setCompartmentOutlineThickness neti compi t
  end.


(** Everything a client can invoke on the model, history included. *)
Inductive Op :=
| O_call (c : Call)
| O_undo
| O_redo
| O_startGroup
| O_endGroup
| O_reset
| O_getSrcReactions (neti nodei : Z)
| O_getDestReactions (neti nodei : Z).

Definition op (o : Op) : M unit :=
  match o with
  | O_call c => call c
  | O_undo => undo
  | O_redo => redo
  | O_startGroup => startGroup
  | O_endGroup => endGroup
  | O_reset => reset
  | O_getSrcReactions neti nodei => void (getSrcReactions neti nodei)
  | O_getDestReactions neti nodei => void (getDestReactions neti nodei)
  end.

Definition run_ops (os : list Op) (s : State) : State :=
  foldl (λ st o, state_of (op o st)) s os.

(** States the program can be in. *)
Definition reachable (s : State) : Prop :=
  ∃ os, s = run_ops os initial_state.

(** * Vocabulary of the properties

    The predicates, the derived views of a state and the concrete states
    that the statements below are about. *)

Local Open Scope string_scope.
Local Open Scope list_scope.
Local Open Scope Z_scope.

(** The state after: a network is created, its creation undone, and a
    second [undo] attempted on the now empty undo stack. *)
Definition after_failed_undo : State :=
  run_ops [O_call (C_newNetwork "a"); O_undo; O_undo] initial_state.

(** One network holding one node, the node in the base set. *)
Definition one_node_state : State :=
  run_ops [O_call (C_newNetwork "n");
           O_call (C_addNode 0 "A" 0 0 10 10 false)] initial_state.

(** The base set and the compartments' node sets cover exactly the node
    indices, do not overlap, and every node's [compi] names the container
    that holds it. *)
Definition partition_ok (net : TNetwork) : Prop :=
  (∀ i, i ∈ dom (nodes net)
        ↔ i ∈ baseNodes net
          ∨ ∃ c comp, compartments net !! c = Some comp ∧ i ∈ c_node_indices comp)
  ∧ (∀ c comp, compartments net !! c = Some comp →
               c_node_indices comp ## baseNodes net)
  ∧ (∀ c1 c2 comp1 comp2, c1 ≠ c2 →
       compartments net !! c1 = Some comp1 →
       compartments net !! c2 = Some comp2 →
       c_node_indices comp1 ## c_node_indices comp2)
  ∧ (∀ i node, nodes net !! i = Some node →
       if decide (n_compi node = -1) then i ∈ baseNodes net
       else ∃ comp, compartments net !! n_compi node = Some comp
                    ∧ i ∈ c_node_indices comp).

(** A nodes map and a compartments map that agree with each other: node 0
    lies in compartment 1. *)
Definition nodes_in_comp1 : gmap Z TNode :=
  {[ 0 := set_n_compi 1 (TNode_new "A" (mkVec2 0 0) (mkVec2 10 10) false) ]}.
Definition comps_with_comp1 : gmap Z TCompartment :=
  {[ 1 := set_c_node_indices {[0]}
            (TCompartment_new "C" (mkVec2 0 0) (mkVec2 100 100)) ]}.

(** A state is left as it was, up to the error code. *)
Definition same_but_errCode (s s' : State) : Prop :=
  stackFlag s' = stackFlag s ∧ networkDict s' = networkDict s
  ∧ netSetStack s' = netSetStack s ∧ redoStack s' = redoStack s
  ∧ lastNetIndex s' = lastNetIndex s.

(** One network with two compartments, ["C"] at index 0 and ["D"] at 1. *)
Definition two_compartments_state : State :=
  run_ops [O_call (C_newNetwork "n");
           O_call (C_addCompartment 0 "C" 0 0 100 100);
           O_call (C_addCompartment 0 "D" 0 0 100 100)] initial_state.

(** One network, node 0 placed in compartment 0. *)
Definition member_state : State :=
  run_ops [O_call (C_newNetwork "n");
           O_call (C_addNode 0 "A" 0 0 10 10 false);
           O_call (C_addCompartment 0 "C" 0 0 100 100);
           O_call (C_setCompartmentOfNode 0 0 0)] initial_state.

(** [keeps P m]: a state property that holds before [m] holds in the state
    [m] leaves, whether [m] returns or raises. *)
Definition keeps {A} (P : State → Prop) (m : M A) : Prop :=
  ∀ s, P s → P (state_of (m s)).


(** What a full scan of the reactions yields for node [k]: the indices of
    the reactions whose [side] (reactants or products) has key [k]. *)
Definition scan (side : TReaction → gmap Z TSpeciesNode)
    (rs : gmap Z TReaction) (k : Z) : gset Z :=
  dom (filter (λ ir, k ∈ dom (side ir.2)) rs).

(** The state with the network at [neti] replaced. *)
Definition put_net (neti : Z) (net : TNetwork) (s : State) : State :=
  set_networkDict (<[neti := net]> (networkDict s)) s.

(** The state after [_pushUndoStack]. *)
Definition pushed (s : State) : State :=
  if stackFlag s
  then set_netSetStack (TStack_push (networkDict s) (netSetStack s))
                       (set_redoStack [] s)
  else s.

(** A network's indices are those of a full scan; in addition the next
    reaction index is not in use, which is what lets [addReaction]
    register a new reaction without meeting an old one. *)
Definition net_indexed (net : TNetwork) : Prop :=
  (∀ k, dd_lookup (srcMap net) k = scan r_reactants (reactions net) k)
  ∧ (∀ k, dd_lookup (destMap net) k = scan r_products (reactions net) k)
  ∧ (∀ i, is_Some (reactions net !! i) → i < lastReactionIdx net).

Definition dict_indexed (d : TNetworkDict) : Prop :=
  map_Forall (λ _ net, net_indexed net) d.

(** The invariant: the current registry and every snapshot are indexed. *)
Definition indexed (s : State) : Prop :=
  dict_indexed (networkDict s)
  ∧ Forall dict_indexed (netSetStack s)
  ∧ Forall dict_indexed (redoStack s).

(** Calls that build a network of two nodes and one reaction, from node 0
    to node 1. *)
Definition reaction_ops : list Op :=
  [O_call (C_newNetwork "n");
   O_call (C_addNode 0 "A" 0 0 10 10 false);
   O_call (C_addNode 0 "B" 20 0 10 10 false);
   O_call (C_createReaction 0 "r" [0] [1])].

(** [comp.node_indices] without [nodei]. *)
Definition without_node (nodei : Z) (comp : TCompartment) : TCompartment :=
  set_c_node_indices (c_node_indices comp ∖ {[nodei]}) comp.

(** The network after the two defaultdict reads [deleteNode] makes. *)
Definition after_src_read (nodei : Z) (net : TNetwork) : TNetwork :=
  set_srcMap (dd_get nodei (srcMap net)).2 net.
Definition after_both_reads (nodei : Z) (net : TNetwork) : TNetwork :=
  set_destMap (dd_get nodei (destMap net)).2 (after_src_read nodei net).

(** What [deleteNode] does on an existing node of an existing network,
    case by case. *)
Definition deleteNode_outcome (s : State) (neti nodei : Z) (net : TNetwork)
    (node : TNode) : result unit :=
  if decide (dd_lookup (srcMap net) nodei = ∅) then
    if decide (dd_lookup (destMap net) nodei = ∅) then
      let net2 := after_both_reads nodei net in
      let s3 := pushed (set_errCode 0 (put_net neti net2 s)) in
      if decide (n_compi node = -1) then
        if decide (nodei ∈ baseNodes net) then
          Ok tt (put_net neti
                   (set_nodes (delete nodei (nodes net))
                      (set_baseNodes (baseNodes net ∖ {[nodei]}) net2)) s3)
        else Raise KeyError s3
      else
        match compartments net !! n_compi node with
        | Some comp =>
            if decide (nodei ∈ c_node_indices comp) then
              Ok tt (put_net neti
                       (set_nodes (delete nodei (nodes net))
                          (set_compartments
                             (<[n_compi node := without_node nodei comp]>
                                (compartments net)) net2)) s3)
            else Raise KeyError s3
        | None => Raise KeyError s3
        end
    else Raise NodeNotFreeError
               (set_errCode (-4) (put_net neti (after_both_reads nodei net) s))
  else Raise NodeNotFreeError
             (set_errCode (-4) (put_net neti (after_src_read nodei net) s)).

(** The node is in the container its [compi] names. *)
Definition held (net : TNetwork) (nodei : Z) (node : TNode) : Prop :=
  if decide (n_compi node = -1) then nodei ∈ baseNodes net
  else ∃ comp, compartments net !! n_compi node = Some comp
               ∧ nodei ∈ c_node_indices comp.

(** Nodes 0 and 1 joined by reaction 0, and a third node that is free. *)
Definition three_nodes_state : State :=
  run_ops (reaction_ops ++ [O_call (C_addNode 0 "C" 40 0 10 10 false)])
          initial_state.

(** Every channel of a colour is a byte. *)
Definition color_in_range (c : TColor) : Prop :=
  0 ≤ tc_r c ≤ 255 ∧ 0 ≤ tc_g c ≤ 255 ∧ 0 ≤ tc_b c ≤ 255 ∧ 0 ≤ tc_a c ≤ 255.

(** What the schema's validators accept of each entity. *)
Definition node_loadable (n : TNode) : Prop :=
  color_in_range (n_fillColor n) ∧ color_in_range (n_outlineColor n)
  ∧ Qleb 0 (n_outlineThickness n) = true.

Definition reaction_loadable (x : TReaction) : Prop :=
  color_in_range (r_fillColor x) ∧ Qleb 0 (r_thickness x) = true.

Definition compartment_loadable (c : TCompartment) : Prop :=
  color_in_range (c_fillColor c) ∧ color_in_range (c_outlineColor c)
  ∧ Qleb 0 (c_volume c) = true ∧ Qleb 0 (c_outlineThickness c) = true.

Definition network_loadable (net : TNetwork) : Prop :=
  map_Forall (λ _ n, node_loadable n) (nodes net)
  ∧ map_Forall (λ _ x, reaction_loadable x) (reactions net)
  ∧ map_Forall (λ _ c, compartment_loadable c) (compartments net).

(** What a reaction keeps through a dump and a load. *)
Definition reaction_reloaded (x : TReaction) : TReaction :=
  set_r_bezierCurves true (set_r_centerPos None x).

(** The network a dump of [net] loads as. *)
Definition network_reloaded (net : TNetwork) : TNetwork :=
  TNetwork_init (net_id net)
    (set_n_compi (-1) <$> nodes net)
    (reaction_reloaded <$> reactions net)
    (set_c_node_indices ∅ <$> compartments net).

(** A property of registries that holds of the current registry and of
    every snapshot on the two stacks. *)
Definition dict_inv (Pd : TNetworkDict → Prop) (s : State) : Prop :=
  Pd (networkDict s) ∧ Forall Pd (netSetStack s) ∧ Forall Pd (redoStack s).

(** A property of networks, lifted to registries. *)
Definition each_net (Pn : TNetwork → Prop) (d : TNetworkDict) : Prop :=
  map_Forall (λ _ net, Pn net) d.

(** No index in use has reached the network's next-index counter of its
    kind. *)
Definition counters_fresh (net : TNetwork) : Prop :=
  (∀ i, is_Some (nodes net !! i) → i < lastNodeIdx net)
  ∧ (∀ i, is_Some (reactions net !! i) → i < lastReactionIdx net)
  ∧ (∀ i, is_Some (compartments net !! i) → i < lastCompartmentIdx net).

(** A reaction between two nodes, then the deletion of the reaction and
    of its second node (refused while the reaction is there). *)
Definition delete_ops : list Op :=
  reaction_ops ++ [O_call (C_deleteNode 0 1); O_call (C_deleteReaction 0 0);
                   O_call (C_deleteNode 0 1)].

(** Every node and every reaction of the network passes the validators of
    the schema. *)
Definition entities_loadable (net : TNetwork) : Prop :=
  map_Forall (λ _ n, node_loadable n) (nodes net)
  ∧ map_Forall (λ _ x, reaction_loadable x) (reactions net).
(** Two nodes and a reaction; an alpha value is set on a node, and a
    colour out of range is refused. *)
Definition colour_ops : list Op :=
  reaction_ops ++ [O_call (C_setNodeFillColorAlpha 0 0 (1 # 2));
                   O_call (C_setNodeFillColorRGB 0 0 256 0 0);
                   O_call (C_setReactionLineThickness 0 0 0)].
(** A compartment added and given a negative volume, which
    [setCompartmentVolume] does not test. *)
Definition negative_volume_ops : list Op :=
  [O_call (C_newNetwork "n"); O_call (C_addCompartment 0 "C" 0 0 100 100);
   O_call (C_setCompartmentVolume 0 0 (-1))].

(** Partial correctness of a computation: from a state in [P], if it
    returns, the state is in [Q]. *)
Definition hoare {A} (P : State → Prop) (m : M A) (Q : State → Prop) : Prop :=
  ∀ s, P s → match m s with Ok _ s' => Q s' | Raise _ _ => True end.

(** Outside a group, before the snapshot of a call is taken and after. *)
Definition before (d : TNetworkDict) (stk : TStack) (s : State) : Prop :=
  stackFlag s = true ∧ networkDict s = d ∧ netSetStack s = stk.

Definition after (d : TNetworkDict) (stk : TStack) (s : State) : Prop :=
  stackFlag s = true ∧ netSetStack s = stk ++ [d] ∧ redoStack s = [].

(** The calls that take one snapshot: all but [loadNetwork] (two) and
    [setReactionCenterPos] (none). *)
Definition one_snapshot (c : Call) : bool :=
  match c with
  | C_loadNetwork _ | C_setReactionCenterPos _ _ _ => false
  | _ => true
  end.

(** The registry a call snapshots: the registry it is called with; for
    [deleteNode], after its two reads of the index maps, each of which
    leaves an empty entry at a missing key. *)
Definition snapshot_before (c : Call) (s : State) : TNetworkDict :=
  match c with
  | C_deleteNode neti nodei => alter (after_both_reads nodei) neti (networkDict s)
  | _ => networkDict s
  end.

(** Every global but [errCode] is as in [s0]. *)
Definition unchanged (s0 s : State) : Prop := set_errCode 0 s = set_errCode 0 s0.

(** The calls that make all their tests before they take the snapshot.
    The others: [deleteNode] reads the index maps first; [deleteReaction],
    [deleteCompartment] and [setCompartmentOfNode] can raise half-way; the
    seven setters of a compartment take the snapshot before they look the
    compartment up; the three alpha setters compute [int(a * 255)] after
    the snapshot, which raises on a NaN. *)
Definition validates_first (c : Call) : bool :=
  match c with
  | C_deleteNode _ _ | C_deleteReaction _ _ | C_deleteCompartment _ _
  | C_setCompartmentOfNode _ _ _ | C_setCompartmentPosition _ _ _ _
  | C_setCompartmentSize _ _ _ _ | C_setCompartmentVolume _ _ _
  | C_setCompartmentID _ _ _ | C_setCompartmentFillColor _ _ _
  | C_setCompartmentOutlineColor _ _ _
  | C_setCompartmentOutlineThickness _ _ _
  | C_setNodeFillColorAlpha _ _ _ | C_setNodeOutlineColorAlpha _ _ _
  | C_setReactionFillColorAlpha _ _ _ => false
  | _ => true
  end.

(** The seven setters of a compartment's fields. *)
Definition compartment_setter (c : Call) : bool :=
  match c with
  | C_setCompartmentPosition _ _ _ _ | C_setCompartmentSize _ _ _ _
  | C_setCompartmentVolume _ _ _ | C_setCompartmentID _ _ _
  | C_setCompartmentFillColor _ _ _ | C_setCompartmentOutlineColor _ _ _
  | C_setCompartmentOutlineThickness _ _ _ => true
  | _ => false
  end.

(** A network with one node. *)
Definition one_node_ops : list Op :=
  [O_call (C_newNetwork "n"); O_call (C_addNode 0 "A" 0 0 10 10 false)].








(** Inside a group opened at a state with undo stack [stk] and registry
    [d]. *)
Definition group_open (d : TNetworkDict) (stk : TStack) (s : State) : Prop :=
  stackFlag s = false ∧ netSetStack s = stk ++ [d] ∧ redoStack s = [].

(** Two nodes; then a recipe whose stoichiometry is refused. *)
Definition two_nodes_ops : list Op :=
  [O_call (C_newNetwork "n"); O_call (C_addNode 0 "A" 0 0 10 10 false);
   O_call (C_addNode 0 "B" 20 0 10 10 false)].

(** A computation run inside the group that closes it if it returns and
    leaves it open if it raises. *)
Definition closes_group (d : TNetworkDict) (stk : TStack) (m : M unit) : Prop :=
  ∀ s, group_open d stk s →
       netSetStack (state_of (m s)) = stk ++ [d]
       ∧ redoStack (state_of (m s)) = []
       ∧ stackFlag (state_of (m s))
         = match raised (m s) with None => true | Some _ => false end.

(** The network a call works on, if it names one. *)
Definition network_of (c : Call) : option Z :=
  match c with
  | C_newNetwork _ | C_clearNetworks | C_loadNetwork _ => None
  | C_deleteNetwork neti | C_clearNetwork neti
  | C_addNode neti _ _ _ _ _ _ | C_deleteNode neti _
  | C_setNodeID neti _ _ | C_setNodeCoordinate neti _ _ _ _
  | C_setNodeSize neti _ _ _ | C_setNodeFloatingStatus neti _ _
  | C_setNodeFillColorRGB neti _ _ _ _ | C_setNodeFillColorAlpha neti _ _
  | C_setNodeOutlineColorRGB neti _ _ _ _ | C_setNodeOutlineColorAlpha neti _ _
  | C_setNodeOutlineThickness neti _ _
  | C_createReaction neti _ _ _ | C_deleteReaction neti _
  | C_clearReactions neti | C_setReactionID neti _ _ | C_setRateLaw neti _ _
  | C_setReactionCenterPos neti _ _
  | C_setReactionSrcNodeStoich neti _ _ _ | C_setReactionDestNodeStoich neti _ _ _
  | C_setReactionSrcNodeHandlePosition neti _ _ _ _
  | C_setReactionDestNodeHandlePosition neti _ _ _ _
  | C_setReactionFillColorRGB neti _ _ _ _ | C_setReactionFillColorAlpha neti _ _
  | C_setReactionLineThickness neti _ _ | C_setReactionBezierCurves neti _ _
  | C_setReactionCenterHandlePosition neti _ _ _
  | C_addCompartment neti _ _ _ _ _ | C_deleteCompartment neti _
  | C_setCompartmentOfNode neti _ _ | C_setCompartmentPosition neti _ _ _
  | C_setCompartmentSize neti _ _ _ | C_setCompartmentVolume neti _ _
  | C_setCompartmentID neti _ _ | C_setCompartmentFillColor neti _ _
  | C_setCompartmentOutlineColor neti _ _
  | C_setCompartmentOutlineThickness neti _ _ => Some neti
  end.

(** * Properties *)

(** Unfolding of the monad's plumbing. *)
Ltac monad_unfold :=
  unfold void, bind, mbind, M_bind, mret, M_ret, gets, modify, raise,
    raise_if_errCode, raise_asserted, raise_errCode in *.

(** ** Stacks *)

Lemma TStack_pop_push (x : TNetworkDict) (items : TStack) :
  TStack_pop (TStack_push x items) = Some (x, items).
Proof.
  unfold TStack_pop, TStack_push.
  by rewrite last_snoc, removelast_last.
Qed.

Lemma TStack_isEmpty_true (items : TStack) :
  TStack_isEmpty items = true ↔ items = [].
Proof. destruct items; simpl; split; congruence. Qed.

Lemma TStack_pop_nonempty (items : TStack) :
  items ≠ [] → ∃ top rest, TStack_pop items = Some (top, rest) ∧ items = rest ++ [top].
Proof.
  intros Hne. destruct (exists_last Hne) as (rest & top & ->).
  exists top, rest. split; [apply TStack_pop_push | done].
Qed.

(** ** The undo/redo engine *)

(** [undo] on an empty stack raises [StackEmptyError] and changes nothing
    but [errCode]. *)
Lemma undo_empty (s : State) :
  netSetStack s = [] →
  undo s = Raise StackEmptyError (set_errCode (-9) (set_errCode 0 s)).
Proof.
  intros H. unfold undo. monad_unfold. simpl. rewrite H. simpl. reflexivity.
Qed.

(** [undo] on a non-empty stack returns: the current registry goes on top
    of the redo stack and the top snapshot becomes the registry. *)
Lemma undo_nonempty (s : State) (top : TNetworkDict) (rest : TStack) :
  netSetStack s = rest ++ [top] →
  undo s = Ok tt (mkState (stackFlag s) 0 top rest
                          (redoStack s ++ [networkDict s]) (lastNetIndex s)).
Proof.
  intros H. unfold undo. monad_unfold. simpl. rewrite H.
  change (rest ++ [top]) with (TStack_push top rest).
  rewrite TStack_pop_push.
  destruct rest; simpl; reflexivity.
Qed.

(** [redo] on an empty stack raises [StackEmptyError]. *)
Lemma redo_empty (s : State) :
  redoStack s = [] →
  redo s = Raise StackEmptyError (set_errCode (-9) s).
Proof.
  intros H. unfold redo. monad_unfold. simpl. rewrite H. simpl. reflexivity.
Qed.

(** On a non-empty stack [redo] always moves the snapshot; whether it then
    returns depends on the [errCode] left by earlier calls. *)
Lemma redo_nonempty (s : State) (top : TNetworkDict) (rest : TStack) :
  redoStack s = rest ++ [top] →
  let s' := mkState (stackFlag s) (errCode s) top
                    (netSetStack s ++ [networkDict s]) rest (lastNetIndex s) in
  redo s = if decide (errCode s < 0)
           then Raise (default KeyError (ExceptionDict (errCode s))) s'
           else Ok tt s'.
Proof.
  intros H. unfold redo. monad_unfold. simpl. rewrite H.
  change (rest ++ [top]) with (TStack_push top rest).
  rewrite TStack_pop_push.
  destruct rest; simpl; destruct (decide (errCode s < 0)); simpl;
    try reflexivity; destruct (ExceptionDict (errCode s)); reflexivity.
Qed.

(** C4. [redo] with one snapshot on the redo stack, called after an [undo]
    that failed: the snapshot is restored (the registry and both stacks
    change) and [StackEmptyError] is raised all the same, from the error
    code the failed [undo] left behind. *)
Theorem redo_raises_with_nonempty_stack :
  reachable after_failed_undo
  ∧ length (redoStack after_failed_undo) = 1%nat
  ∧ errCode after_failed_undo = -9
  ∧ raised (redo after_failed_undo) = Some StackEmptyError
  ∧ dom (networkDict after_failed_undo) = ∅
  ∧ dom (networkDict (state_of (redo after_failed_undo))) = {[0]}
  ∧ length (redoStack (state_of (redo after_failed_undo))) = 0%nat
  ∧ length (netSetStack (state_of (redo after_failed_undo)))
    = S (length (netSetStack after_failed_undo)).
Proof.
  split; [by eexists|].
  repeat split; vm_compute; reflexivity.
Qed.

(** C7 (as stated). From the initial state two [startGroup()] calls in a
    row leave two snapshots on the undo stack, not one. *)
Lemma startGroup_twice_pushes_two :
  ¬ (∀ s : State,
       length (netSetStack (run_ops [O_startGroup; O_startGroup] s))
       = S (length (netSetStack s))).
Proof.
  intros H. specialize (H initial_state). vm_compute in H. discriminate.
Qed.

(** C7 (amended). Every [startGroup()] pushes one snapshot of the current
    registry, whatever the group flag is; two calls in a row push two, and
    the flag is simply off afterwards. *)
Theorem startGroup_always_pushes (s : State) :
  startGroup s
  = Ok tt (mkState false (errCode s) (networkDict s)
                   (netSetStack s ++ [networkDict s]) [] (lastNetIndex s))
  ∧ netSetStack (run_ops [O_startGroup; O_startGroup] s)
    = netSetStack s ++ [networkDict s; networkDict s]
  ∧ stackFlag (run_ops [O_startGroup; O_startGroup] s) = false.
Proof.
  split; [reflexivity|]. split; [|reflexivity].
  simpl. unfold TStack_push. by rewrite <- app_assoc.
Qed.

(** ** The network counter *)

Lemma _pushUndoStack_frame (s : State) :
  ∃ s', _pushUndoStack s = Ok tt s'
        ∧ networkDict s' = networkDict s
        ∧ lastNetIndex s' = lastNetIndex s
        ∧ errCode s' = errCode s
        ∧ stackFlag s' = stackFlag s.
Proof.
  unfold _pushUndoStack. monad_unfold. simpl.
  destruct (stackFlag s) eqn:E; simpl; eexists; (split; [reflexivity|]); simpl; auto.
Qed.

Lemma newNetwork_returns (netID : string) (s s' : State) :
  newNetwork netID s = Ok tt s' →
  lastNetIndex s' = lastNetIndex s + 1
  ∧ networkDict s' = <[lastNetIndex s := TNetwork_new netID]> (networkDict s).
Proof.
  unfold newNetwork. monad_unfold. simpl.
  destruct (any_value _ _); simpl; [discriminate|].
  destruct (_pushUndoStack_frame (set_errCode 0 s)) as (s1 & -> & Hd & Hl & _).
  intros [= <-]. simpl in *. rewrite Hd, Hl. done.
Qed.

Lemma undo_lastNetIndex (s : State) :
  lastNetIndex (state_of (undo s)) = lastNetIndex s.
Proof.
  destruct (decide (netSetStack s = [])) as [E|E].
  - by rewrite (undo_empty s E).
  - destruct (exists_last E) as (rest & top & Hl).
    by rewrite (undo_nonempty s top rest Hl).
Qed.

(** C10. [undo()] leaves the global counter [lastNetIndex] as it is,
    whether it returns or raises; hence when a network is created, the
    creation undone and another network created, the second network gets
    the index following that of the undone one. *)
Theorem undo_keeps_lastNetIndex (s s1 s2 s3 : State) (id1 id2 : string) :
  newNetwork id1 s = Ok tt s1 →
  undo s1 = Ok tt s2 →
  newNetwork id2 s2 = Ok tt s3 →
  (∀ t, lastNetIndex (state_of (undo t)) = lastNetIndex t)
  ∧ networkDict s1 !! lastNetIndex s = Some (TNetwork_new id1)
  ∧ lastNetIndex s2 = lastNetIndex s1
  ∧ networkDict s3 !! (lastNetIndex s + 1) = Some (TNetwork_new id2)
  ∧ lastNetIndex s3 = lastNetIndex s + 2.
Proof.
  intros H1 H2 H3.
  apply newNetwork_returns in H1 as [Hl1 Hd1].
  apply newNetwork_returns in H3 as [Hl3 Hd3].
  pose proof (undo_lastNetIndex s1) as Hu. rewrite H2 in Hu. simpl in Hu.
  split; [apply undo_lastNetIndex|].
  split; [rewrite Hd1; apply lookup_insert_eq|].
  split; [done|].
  split.
  - rewrite Hd3, Hu, Hl1. apply lookup_insert_eq.
  - lia.
Qed.

Lemma undo_keeps_lastNetIndex_witness :
  let s := initial_state in
  let s1 := state_of (newNetwork "a" s) in
  let s2 := state_of (undo s1) in
  let s3 := state_of (newNetwork "b" s2) in
  newNetwork "a" s = Ok tt s1 ∧ undo s1 = Ok tt s2 ∧ newNetwork "b" s2 = Ok tt s3
  ∧ dom (networkDict s3) = {[1]}
  ∧ networkDict s3 !! (lastNetIndex s + 1) = Some (TNetwork_new "b").
Proof.
  assert (H1 : newNetwork "a" initial_state
               = Ok tt (state_of (newNetwork "a" initial_state)))
    by (vm_compute; reflexivity).
  assert (H2 : undo (state_of (newNetwork "a" initial_state))
               = Ok tt (state_of (undo (state_of (newNetwork "a" initial_state)))))
    by (vm_compute; reflexivity).
  assert (H3 : newNetwork "b" (state_of (undo (state_of (newNetwork "a" initial_state))))
               = Ok tt (state_of (newNetwork "b"
                   (state_of (undo (state_of (newNetwork "a" initial_state)))))))
    by (vm_compute; reflexivity).
  refine (conj H1 (conj H2 (conj H3 (conj _ _)))).
  - vm_compute; reflexivity.
  - exact (proj1 (proj2 (proj2 (proj2
      (undo_keeps_lastNetIndex _ _ _ _ "a" "b" H1 H2 H3))))).
Defined.

(** ** Failure after mutation: [setCompartmentOfNode] *)

(** C2. [setCompartmentOfNode(0, 0, 7)] on a network with node 0 and no
    compartment 7 raises [CompartmentIndexError] only after node 0 has
    been taken out of [baseNodes]: the call fails and the node is left in
    no container, its [compi] still -1. *)
Theorem setCompartmentOfNode_fails_after_removal :
  reachable one_node_state
  ∧ raised (setCompartmentOfNode 0 0 7 one_node_state) = Some CompartmentIndexError
  ∧ (baseNodes <$> networkDict one_node_state !! 0) = Some {[0]}
  ∧ (baseNodes <$> networkDict (state_of (setCompartmentOfNode 0 0 7 one_node_state)) !! 0)
    = Some ∅
  ∧ (networkDict (state_of (setCompartmentOfNode 0 0 7 one_node_state)) !! 0
       ≫= λ net, n_compi <$> nodes net !! 0) = Some (-1)
  ∧ (dom ∘ compartments <$>
       networkDict (state_of (setCompartmentOfNode 0 0 7 one_node_state)) !! 0)
    = Some ∅.
Proof.
  split; [by eexists|].
  repeat split; vm_compute; reflexivity.
Qed.

(** ** The partition of node indices *)

(** C8. Two ways in which the partition is lost.  (a) [TNetwork.__init__]
    given node 0 with [compi = 1] and compartment 1 holding node 0 puts
    node 0 into [baseNodes] as well, because the base set is filtered by
    the truth value of [compi].  (b) After the failed
    [setCompartmentOfNode(0, 0, 7)] on [one_node_state], a state the API
    reaches, node 0 exists and is in no container. *)
Theorem partition_broken :
  (let net := TNetwork_init "n" nodes_in_comp1 ∅ comps_with_comp1 in
   0 ∈ baseNodes net
   ∧ (c_node_indices <$> compartments net !! 1) = Some {[0]}
   ∧ ¬ partition_ok net)
  ∧ (let s := run_ops [O_call (C_setCompartmentOfNode 0 0 7)] one_node_state in
     reachable s
     ∧ ∃ net, networkDict s !! 0 = Some net
              ∧ dom (nodes net) = {[0]}
              ∧ baseNodes net = ∅
              ∧ compartments net = ∅
              ∧ ¬ partition_ok net).
Proof.
  split.
  - intros net.
    assert (Eb : baseNodes net = {[0]}) by (vm_compute; reflexivity).
    assert (Hc : compartments net !! 1
                 = Some (set_c_node_indices {[0]}
                           (TCompartment_new "C" (mkVec2 0 0) (mkVec2 100 100))))
      by (vm_compute; reflexivity).
    split; [rewrite Eb; set_solver|]. split; [by rewrite Hc|].
    intros (_ & Hdisj & _). specialize (Hdisj _ _ Hc).
    rewrite Eb in Hdisj. simpl in Hdisj. set_solver.
  - intros s.
    split; [by exists [O_call (C_newNetwork "n");
                       O_call (C_addNode 0 "A" 0 0 10 10 false);
                       O_call (C_setCompartmentOfNode 0 0 7)]|].
    destruct (networkDict s !! 0) as [net|] eqn:E; [|vm_compute in E; discriminate].
    assert (Hn : (dom ∘ nodes <$> networkDict s !! 0) = Some {[0]})
      by (vm_compute; reflexivity).
    assert (Hb : (baseNodes <$> networkDict s !! 0) = Some ∅)
      by (vm_compute; reflexivity).
    assert (Hc : (compartments <$> networkDict s !! 0) = Some ∅)
      by (vm_compute; reflexivity).
    rewrite E in Hn, Hb, Hc. simpl in Hn, Hb, Hc.
    injection Hn as Hn. injection Hb as Hb. injection Hc as Hc.
    exists net. repeat (split; [done|]).
    intros (Hcov & _). destruct (Hcov 0) as [Hcov' _].
    destruct Hcov' as [H|(c & comp & H & _)].
    + rewrite Hn. set_solver.
    + rewrite Hb in H. set_solver.
    + rewrite Hc, lookup_empty in H. discriminate.
Qed.

(** ** Identifier uniqueness *)

Lemma any_value_spec {V} (p : V → bool) (d : gmap Z V) :
  any_value p d = true ↔ ∃ k v, d !! k = Some v ∧ p v = true.
Proof.
  unfold any_value. rewrite existsb_exists. split.
  - intros (v & Hin & Hp). apply list_elem_of_In, list_elem_of_fmap in Hin.
    destruct Hin as ([k v'] & -> & Hin). apply elem_of_map_to_list in Hin.
    by exists k, v'.
  - intros (k & v & Hl & Hp). exists v. split; [|done].
    apply list_elem_of_In, list_elem_of_fmap. exists (k, v).
    split; [done|]. by apply elem_of_map_to_list.
Qed.

Lemma any_value_id_taken {V} (id_of : V → string) (d : gmap Z V) (k : Z) (v : V) :
  d !! k = Some v →
  any_value (λ x, bool_decide (id_of x = id_of v)) d = true.
Proof.
  intros H. apply any_value_spec. exists k, v. split; [done|].
  by apply bool_decide_eq_true.
Qed.

(** The five create/rename operations that do look for a duplicate: each
    raises [IDRepeatError] and changes nothing but [errCode] when the
    identifier is already that of an entity [e] of the same kind.  (For
    [createReaction] and [addCompartment] the earlier argument checks must
    pass, since they come first.) *)
Lemma addNode_rejects_duplicate (s : State) (neti k : Z) (net : TNetwork)
    (e : TNode) (x y w h : Q) (fl : bool) :
  networkDict s !! neti = Some net → nodes net !! k = Some e →
  ∃ s', addNode neti (n_id e) x y w h fl s = Raise IDRepeatError s'
        ∧ same_but_errCode s s'.
Proof.
  intros Hnet He. unfold addNode, try_finally, _getNetwork. monad_unfold. simpl.
  rewrite Hnet. simpl.
  rewrite (any_value_id_taken n_id _ _ _ He). simpl.
  eexists. split; [reflexivity|]. by repeat split.
Qed.

Lemma setNodeID_rejects_duplicate (s : State) (neti nodei k : Z)
    (net : TNetwork) (e : TNode) :
  networkDict s !! neti = Some net → nodei ∈ dom (nodes net) →
  nodes net !! k = Some e →
  ∃ s', setNodeID neti nodei (n_id e) s = Raise IDRepeatError s'
        ∧ same_but_errCode s s'.
Proof.
  intros Hnet Hn He. unfold setNodeID. monad_unfold. simpl.
  rewrite Hnet. destruct (decide (nodei ∉ dom (nodes net))); [done|].
  rewrite (any_value_id_taken n_id _ _ _ He). simpl.
  eexists. split; [reflexivity|]. by repeat split.
Qed.

Lemma createReaction_rejects_duplicate (s : State) (neti k : Z)
    (net : TNetwork) (e : TReaction) (sources targets : list Z) :
  networkDict s !! neti = Some net → reactions net !! k = Some e →
  sources ≠ [] → targets ≠ [] →
  ∃ s', createReaction neti (r_id e) sources targets s = Raise IDRepeatError s'
        ∧ same_but_errCode s s'.
Proof.
  intros Hnet He Hs Ht. unfold createReaction, _getNetwork. monad_unfold. simpl.
  destruct sources; [done|]. destruct targets; [done|]. simpl.
  rewrite Hnet. simpl.
  rewrite (any_value_id_taken r_id _ _ _ He). simpl.
  eexists. split; [reflexivity|]. by repeat split.
Qed.

Lemma setReactionID_rejects_duplicate (s : State) (neti reai k : Z)
    (net : TNetwork) (e : TReaction) :
  networkDict s !! neti = Some net → reai ∈ dom (reactions net) →
  reactions net !! k = Some e →
  ∃ s', setReactionID neti reai (r_id e) s = Raise IDRepeatError s'
        ∧ same_but_errCode s s'.
Proof.
  intros Hnet Hn He. unfold setReactionID. monad_unfold. simpl.
  rewrite Hnet. destruct (decide (reai ∉ dom (reactions net))); [done|].
  rewrite (any_value_id_taken r_id _ _ _ He). simpl.
  eexists. split; [reflexivity|]. by repeat split.
Qed.

Lemma addCompartment_rejects_duplicate (s : State) (neti k : Z)
    (net : TNetwork) (e : TCompartment) (x y w h : Q) :
  networkDict s !! neti = Some net → compartments net !! k = Some e →
  Qltb x 0 || Qltb y 0 || Qltb w 0 || Qltb h 0 = false →
  ∃ s', addCompartment neti (c_id e) x y w h s = Raise IDRepeatError s'
        ∧ same_but_errCode s s'.
Proof.
  intros Hnet He Hr. unfold addCompartment, _getNetwork, _raiseError.
  monad_unfold. simpl. rewrite Hr. simpl. rewrite Hnet. simpl.
  assert (Ha : any_value (λ c, bool_decide (c_id e = c_id c)) (compartments net) = true).
  { apply any_value_spec. exists k, e. split; [done|]. by apply bool_decide_eq_true. }
  rewrite Ha. simpl.
  eexists. split; [reflexivity|]. by repeat split.
Qed.

(** C5. [setCompartmentID] makes no duplicate check: renaming compartment
    1 to ["C"], the identifier of compartment 0, returns normally and
    leaves two compartments named ["C"] in the network. *)
Theorem setCompartmentID_accepts_duplicate :
  reachable two_compartments_state
  ∧ (networkDict two_compartments_state !! 0
       ≫= λ net, c_id <$> compartments net !! 0) = Some "C"
  ∧ (networkDict two_compartments_state !! 0
       ≫= λ net, c_id <$> compartments net !! 1) = Some "D"
  ∧ raised (setCompartmentID 0 1 "C" two_compartments_state) = None
  ∧ (networkDict (state_of (setCompartmentID 0 1 "C" two_compartments_state)) !! 0
       ≫= λ net, c_id <$> compartments net !! 0) = Some "C"
  ∧ (networkDict (state_of (setCompartmentID 0 1 "C" two_compartments_state)) !! 0
       ≫= λ net, c_id <$> compartments net !! 1) = Some "C".
Proof.
  split; [by eexists|].
  repeat split; vm_compute; reflexivity.
Qed.

(** ** Dump and load *)

(** The dump of a node does not depend on its compartment reference, nor
    the dump of a compartment on its node set. *)
Lemma NodeSchema_dump_ignores_compi (c : Z) (n : TNode) :
  NodeSchema_dump (set_n_compi c n) = NodeSchema_dump n.
Proof. reflexivity. Qed.

Lemma CompartmentSchema_dump_ignores_nodes (X : gset Z) (c : TCompartment) :
  CompartmentSchema_dump (set_c_node_indices X c) = CompartmentSchema_dump c.
Proof. reflexivity. Qed.

(** C9. Dumping the network of [member_state] and loading the dump into a
    fresh target succeeds, but the membership is gone: the dump carries
    neither the node's compartment nor the compartment's nodes, and in the
    loaded network node 0 has [compi = -1] and compartment 0 has no nodes,
    where the dumped network had [compi = 0] and node set {0}. *)
Theorem roundtrip_loses_membership :
  reachable member_state
  ∧ ∃ (net net' : TNetwork) (o : NetworkObj) (s' : State),
      networkDict member_state !! 0 = Some net
      ∧ dumpNetwork 0 member_state = Ok o member_state
      ∧ loadNetwork o initial_state = Ok 0 s'
      ∧ networkDict s' !! 0 = Some net'
      ∧ (n_compi <$> nodes net !! 0) = Some 0
      ∧ (c_node_indices <$> compartments net !! 0) = Some {[0]}
      ∧ (nwo_nodes o ≫= λ ns, ns !! 0 ≫= no_compartment) = None
      ∧ (nwo_compartments o ≫= λ cs, cs !! 0 ≫= co_nodes) = None
      ∧ (n_compi <$> nodes net' !! 0) = Some (-1)
      ∧ (c_node_indices <$> compartments net' !! 0) = Some ∅
      ∧ baseNodes net' = {[0]}.
Proof.
  split; [by eexists|].
  do 4 eexists.
  split; [vm_compute; reflexivity|].
  split; [vm_compute; reflexivity|].
  split; [vm_compute; reflexivity|].
  split; [vm_compute; reflexivity|].
  repeat split; vm_compute; reflexivity.
Qed.

(** ** Invariants of computations *)

Section keeps.
Context (P : State → Prop).

Lemma keeps_mret {A} (a : A) : keeps P (mret a : M A).
Proof. intros s H. exact H. Qed.

Lemma keeps_raise {A} (e : Exn) : keeps P (raise e : M A).
Proof. intros s H. exact H. Qed.

Lemma keeps_gets {A} (f : State → A) : keeps P (gets f).
Proof. intros s H. exact H. Qed.

Lemma keeps_modify (g : State → State) :
  (∀ s, P s → P (g s)) → keeps P (modify g).
Proof. intros Hg s H. by apply Hg. Qed.

Lemma keeps_mbind {A B} (m : M A) (f : A → M B) :
  keeps P m → (∀ a, keeps P (f a)) → keeps P (mbind f m).
Proof.
  intros Hm Hf s H. unfold mbind, M_bind. specialize (Hm s H).
  destruct (m s) as [a s'|e s']; simpl in *; [by apply Hf | done].
Qed.

Lemma keeps_bind {A B} (m : M A) (f : A → M B) :
  keeps P m → (∀ a, keeps P (f a)) → keeps P (bind m f).
Proof. apply keeps_mbind. Qed.

Lemma keeps_void {A} (m : M A) : keeps P m → keeps P (void m).
Proof. intros H. apply keeps_bind; [done|]. intros _. apply keeps_mret. Qed.

Lemma keeps_for_each {A} (xs : list A) (body : A → M unit) :
  (∀ x, keeps P (body x)) → keeps P (for_each xs body).
Proof.
  intros Hb. induction xs as [|x xs IH]; simpl.
  - apply keeps_mret.
  - apply keeps_mbind; [apply Hb | intros _; apply IH].
Qed.

Lemma keeps_try_finally {A} (body : M A) (fin : M unit) :
  keeps P body → keeps P fin → keeps P (try_finally body fin).
Proof.
  intros Hb Hf s H. unfold try_finally. specialize (Hb s H).
  destruct (body s) as [a s'|e s']; simpl in Hb; specialize (Hf s' Hb);
    destruct (fin s'); simpl in *; done.
Qed.

Lemma keeps_raise_errCode {A} : keeps P (raise_errCode : M A).
Proof. intros s H. unfold raise_errCode. by destruct (ExceptionDict _). Qed.

Lemma keeps_raise_if_errCode : keeps P raise_if_errCode.
Proof.
  intros s H. unfold raise_if_errCode. destruct (decide _); [|done].
  by apply keeps_raise_errCode.
Qed.

Lemma keeps_raise_asserted {A} : keeps P (raise_asserted : M A).
Proof.
  intros s H. unfold raise_asserted. destruct (decide _); [|done].
  by apply keeps_raise_errCode.
Qed.


Lemma keeps_run_ops (os : list Op) :
  (∀ o, keeps P (op o)) → ∀ s, P s → P (run_ops os s).
Proof.
  intros Ho. unfold run_ops.
  induction os as [|o os IH]; intros s H; simpl; [done|].
  apply IH. by apply Ho.
Qed.
End keeps.

(** One structural step of a [keeps] goal: follow the shape of the
    computation, splitting on its tests. *)
Ltac keeps_step :=
  match goal with
  | |- keeps _ (mret _) => apply keeps_mret
  | |- keeps _ (raise _) => apply keeps_raise
  | |- keeps _ (gets _) => apply keeps_gets
  | |- keeps _ raise_errCode => apply keeps_raise_errCode
  | |- keeps _ raise_if_errCode => apply keeps_raise_if_errCode
  | |- keeps _ raise_asserted => apply keeps_raise_asserted
  | |- keeps _ (mbind _ _) => apply keeps_mbind; [|intros ?]
  | |- keeps _ (bind _ _) => apply keeps_bind; [|intros ?]
  | |- keeps _ (void _) => apply keeps_void
  | |- keeps _ (for_each _ _) => apply keeps_for_each; intros ?
  | |- keeps _ (try_finally _ _) => apply keeps_try_finally
  | |- keeps _ (if ?b then _ else _) => destruct b
  | |- keeps _ (match ?x with _ => _ end) => destruct x
  | |- keeps _ (let '(_, _) := ?x in _) => destruct x
  end.

(** ** Grouped calls and the undo stack *)





(** ** The derived indices [srcMap] and [destMap] *)

Lemma elem_of_scan side (rs : gmap Z TReaction) (k i : Z) :
  i ∈ scan side rs k ↔ ∃ r, rs !! i = Some r ∧ k ∈ dom (side r).
Proof.
  unfold scan. rewrite elem_of_dom. split.
  - intros [r Hr]. apply map_lookup_filter_Some in Hr as [? ?]. by exists r.
  - intros (r & Hr & Hk). exists r. by apply map_lookup_filter_Some.
Qed.

Lemma scan_empty side (k : Z) : scan side ∅ k = ∅.
Proof. unfold scan. by rewrite map_filter_empty, dom_empty_L. Qed.

Lemma scan_insert_fresh side (rs : gmap Z TReaction) (i : Z) (r : TReaction) (k : Z) :
  rs !! i = None →
  scan side (<[i := r]> rs) k
  = if decide (k ∈ dom (side r)) then scan side rs k ∪ {[i]} else scan side rs k.
Proof.
  intros Hi. apply set_eq. intros j.
  destruct (decide (k ∈ dom (side r))) as [Hk|Hk];
    rewrite ?elem_of_union, ?elem_of_singleton, !elem_of_scan; split.
  - intros (r' & Hr' & Hk'). destruct (decide (j = i)) as [->|Hne]; [by right|].
    rewrite lookup_insert_ne in Hr' by done. left. by exists r'.
  - intros [(r' & Hr' & Hk')| ->].
    + exists r'. split; [|done]. rewrite lookup_insert_ne; [done|]. congruence.
    + exists r. split; [apply lookup_insert_eq|done].
  - intros (r' & Hr' & Hk'). destruct (decide (j = i)) as [->|Hne].
    + rewrite lookup_insert_eq in Hr'. by simplify_eq.
    + rewrite lookup_insert_ne in Hr' by done. by exists r'.
  - intros (r' & Hr' & Hk'). exists r'. split; [|done].
    rewrite lookup_insert_ne; [done|]. congruence.
Qed.

Lemma scan_delete side (rs : gmap Z TReaction) (i k : Z) :
  scan side (delete i rs) k = scan side rs k ∖ {[i]}.
Proof.
  apply set_eq. intros j.
  rewrite elem_of_difference, elem_of_singleton, !elem_of_scan. split.
  - intros (r & Hr & Hk). apply lookup_delete_Some in Hr as [? ?]. split; [by exists r|done].
  - intros [(r & Hr & Hk) Hne]. exists r. split; [|done].
    by apply lookup_delete_Some.
Qed.

(** Changing a reaction without changing the keys of [side]. *)
Lemma scan_alter side (g : TReaction → TReaction) (rs : gmap Z TReaction) (i k : Z) :
  (∀ r, dom (side (g r)) = dom (side r)) →
  scan side (alter g i rs) k = scan side rs k.
Proof.
  intros Hg. apply set_eq. intros j. rewrite !elem_of_scan. split.
  - intros (r & Hr & Hk). apply lookup_alter_Some in Hr as [(-> & r' & Hr' & ->)|[? ?]].
    + exists r'. split; [done|]. by rewrite <- Hg.
    + by exists r.
  - intros (r & Hr & Hk). destruct (decide (j = i)) as [->|Hne].
    + exists (g r). split; [by rewrite lookup_alter_eq, Hr|]. by rewrite Hg.
    + exists r. split; [|done]. by rewrite lookup_alter_ne.
Qed.

(** Reads and updates of a defaultdict, seen through [dd_lookup]. *)
Lemma dd_get_value (k : Z) (m : gmap Z (gset Z)) : (dd_get k m).1 = dd_lookup m k.
Proof. unfold dd_get, dd_lookup. by destruct (m !! k). Qed.

Lemma dd_get_lookup (k j : Z) (m : gmap Z (gset Z)) :
  dd_lookup (dd_get k m).2 j = dd_lookup m j.
Proof.
  unfold dd_get, dd_lookup. destruct (m !! k) eqn:E; simpl; [done|].
  destruct (decide (k = j)) as [->|Hne].
  - by rewrite lookup_insert_eq, E.
  - by rewrite lookup_insert_ne.
Qed.

Lemma dd_add_lookup (k x j : Z) (m : gmap Z (gset Z)) :
  dd_lookup (dd_add k x m) j
  = if decide (j = k) then dd_lookup m k ∪ {[x]} else dd_lookup m j.
Proof.
  unfold dd_add. rewrite dd_get_value. unfold dd_lookup at 1.
  destruct (decide (j = k)) as [->|Hne].
  - by rewrite lookup_insert_eq.
  - by rewrite lookup_insert_ne.
Qed.

Lemma dd_remove_present (k x : Z) (m : gmap Z (gset Z)) :
  x ∈ dd_lookup m k →
  ∃ m', dd_remove k x m = (Some m', (dd_get k m).2)
        ∧ ∀ j, dd_lookup m' j
               = if decide (j = k) then dd_lookup m k ∖ {[x]} else dd_lookup m j.
Proof.
  intros Hx. unfold dd_remove.
  rewrite (surjective_pairing (dd_get k m)), dd_get_value.
  destruct (decide (x ∈ dd_lookup m k)); [|done].
  eexists. split; [reflexivity|]. intros j. unfold dd_lookup at 1.
  destruct (decide (j = k)) as [->|Hne].
  - by rewrite lookup_insert_eq.
  - rewrite lookup_insert_ne by done. apply (dd_get_lookup k j m).
Qed.

(** Adding index [i] under every key of a set. *)
Lemma dd_add_all_lookup (i : Z) (X : gset Z) (m : gmap Z (gset Z)) (j : Z) :
  dd_lookup (set_fold (λ node acc, dd_add node i acc) m X) j
  = if decide (j ∈ X) then dd_lookup m j ∪ {[i]} else dd_lookup m j.
Proof.
  revert j.
  pose (P := λ (acc : gmap Z (gset Z)) (Y : gset Z),
               ∀ j : Z, dd_lookup acc j
                        = if decide (j ∈ Y) then dd_lookup m j ∪ {[i]}
                          else dd_lookup m j).
  change (P (set_fold (λ node acc, dd_add node i acc) m X) X).
  apply set_fold_ind_L; unfold P; clear P.
  - intros j. destruct (decide (j ∈ ∅)) as [Hj|]; [|done].
    by apply not_elem_of_empty in Hj.
  - intros x Y acc Hx IH j. rewrite dd_add_lookup.
    destruct (decide (j = x)) as [->|Hne].
    + rewrite IH. destruct (decide (x ∈ Y)); [done|].
      destruct (decide (x ∈ {[x]} ∪ Y)) as [|Hn]; [done|].
      exfalso. apply Hn, elem_of_union_l. by apply elem_of_singleton.
    + rewrite IH.
      destruct (decide (j ∈ Y)) as [Hj|Hj], (decide (j ∈ {[x]} ∪ Y)) as [Hj'|Hj'];
        try done; exfalso.
      * apply Hj'. by apply elem_of_union_r.
      * apply elem_of_union in Hj' as [Hj'|Hj']; [|done].
        by apply elem_of_singleton in Hj'.
Qed.

(** The constructor's loops compute the scan. *)
Lemma index_side_scan side (rs : gmap Z TReaction) (k : Z) :
  dd_lookup (index_side side rs) k = scan side rs k.
Proof.
  revert k. unfold index_side.
  pose (P := λ (acc : gmap Z (gset Z)) (m : gmap Z TReaction),
               ∀ k : Z, dd_lookup acc k = scan side m k).
  match goal with |- ∀ k, dd_lookup ?e k = _ => change (P e rs) end.
  apply map_fold_weak_ind; unfold P; clear P.
  - intros k. by rewrite scan_empty.
  - intros i r m acc Hi IH k.
    rewrite dd_add_all_lookup, scan_insert_fresh, IH by done. done.
Qed.

(** [next_index] is above every key. *)
Lemma next_index_above {V} (d : gmap Z V) (i : Z) :
  is_Some (d !! i) → i < next_index d.
Proof.
  unfold next_index, max_key.
  cut (∀ j, is_Some (d !! j) →
            ∃ a, map_fold (λ k (_ : V) acc,
                             Some (match acc with Some a => Z.max k a | None => k end))
                          None d = Some a ∧ j ≤ a).
  { intros H Hi. destruct (H i Hi) as (a & -> & Ha). simpl. lia. }
  pose (P := λ (acc : option Z) (m : gmap Z V),
               ∀ j : Z, is_Some (m !! j) → ∃ a, acc = Some a ∧ j ≤ a).
  match goal with |- ∀ j, _ → ∃ a, ?e = _ ∧ _ => change (P e d) end.
  apply map_fold_weak_ind; unfold P; clear P.
  - intros j [? H]. by rewrite lookup_empty in H.
  - intros k v m acc Hk IH j Hj.
    destruct (decide (j = k)) as [->|Hne].
    + destruct acc as [a|]; eexists; (split; [reflexivity|lia]).
    + rewrite lookup_insert_ne in Hj by done.
      destruct (IH j Hj) as (a & -> & Ha). eexists. split; [reflexivity|lia].
Qed.

(** ** Calls on an existing network *)

Lemma _getNetwork_at (s : State) (neti : Z) (net : TNetwork) :
  networkDict s !! neti = Some net → _getNetwork neti s = Ok net s.
Proof. intros H. unfold _getNetwork. monad_unfold. simpl. by rewrite H. Qed.

Lemma update_net_at (s : State) (neti : Z) (net : TNetwork) f :
  networkDict s !! neti = Some net →
  update_net neti f s = Ok tt (put_net neti (f net) s).
Proof.
  intros H. unfold update_net, put_net. monad_unfold.
  by rewrite (alter_alt_Some _ _ _ _ H).
Qed.

Lemma put_net_lookup (s : State) (neti : Z) (net : TNetwork) :
  networkDict (put_net neti net s) !! neti = Some net.
Proof. apply lookup_insert_eq. Qed.

Lemma put_net_put (s : State) (neti : Z) (n1 n2 : TNetwork) :
  put_net neti n2 (put_net neti n1 s) = put_net neti n2 s.
Proof. unfold put_net. simpl. by rewrite insert_insert_eq. Qed.

Lemma put_net_same (s : State) (neti : Z) (net : TNetwork) :
  networkDict s !! neti = Some net → put_net neti net s = s.
Proof.
  intros H. unfold put_net. rewrite (insert_id _ _ _ H). by destruct s.
Qed.

Lemma _pushUndoStack_eq (s : State) : _pushUndoStack s = Ok tt (pushed s).
Proof.
  unfold _pushUndoStack, pushed. monad_unfold. simpl. by destruct (stackFlag s).
Qed.

Lemma networkDict_pushed (s : State) : networkDict (pushed s) = networkDict s.
Proof. unfold pushed. by destruct (stackFlag s). Qed.

Lemma net_indexed_frame (net net' : TNetwork) :
  reactions net' = reactions net → srcMap net' = srcMap net →
  destMap net' = destMap net → lastReactionIdx net' = lastReactionIdx net →
  net_indexed net → net_indexed net'.
Proof. unfold net_indexed. by intros -> -> -> ->. Qed.

Lemma net_indexed_init (id : string) ns rs cs :
  net_indexed (TNetwork_init id ns rs cs).
Proof.
  split; [|split]; simpl.
  - apply index_side_scan.
  - apply index_side_scan.
  - apply next_index_above.
Qed.

Lemma net_indexed_addReaction (rea : TReaction) (net : TNetwork) :
  net_indexed net → net_indexed (net_addReaction rea net).
Proof.
  intros (Hs & Hd & Hf). unfold net_addReaction. simpl.
  assert (Hnone : reactions net !! lastReactionIdx net = None).
  { destruct (reactions net !! lastReactionIdx net) eqn:E; [|done].
    specialize (Hf (lastReactionIdx net)). rewrite E in Hf.
    specialize (Hf ltac:(by eexists)). lia. }
  split; [|split]; simpl.
  - intros k. rewrite dd_add_all_lookup, scan_insert_fresh, Hs by done.
    destruct (decide (k ∈ dom (r_reactants rea))); done.
  - intros k. rewrite dd_add_all_lookup, scan_insert_fresh, Hd by done.
    destruct (decide (k ∈ dom (r_products rea))); done.
  - intros i Hi. destruct (decide (i = lastReactionIdx net)) as [->|Hne]; [lia|].
    rewrite lookup_insert_ne in Hi by done. specialize (Hf i Hi). lia.
Qed.

Lemma net_indexed_alter_reaction (g : TReaction → TReaction) (i : Z) (net : TNetwork) :
  (∀ r, dom (r_reactants (g r)) = dom (r_reactants r)) →
  (∀ r, dom (r_products (g r)) = dom (r_products r)) →
  net_indexed net → net_indexed (set_reactions (alter g i (reactions net)) net).
Proof.
  intros Hr Hp (Hs & Hd & Hf). split; [|split]; simpl.
  - intros k. by rewrite scan_alter.
  - intros k. by rewrite scan_alter.
  - intros j Hj. apply Hf. by apply lookup_alter_is_Some in Hj.
Qed.

Lemma net_indexed_dd_get_src (k : Z) (net : TNetwork) :
  net_indexed net → net_indexed (set_srcMap (dd_get k (srcMap net)).2 net).
Proof.
  intros (Hs & Hd & Hf). split; [|split]; simpl; [|done|done].
  intros j. by rewrite dd_get_lookup.
Qed.

Lemma net_indexed_dd_get_dest (k : Z) (net : TNetwork) :
  net_indexed net → net_indexed (set_destMap (dd_get k (destMap net)).2 net).
Proof.
  intros (Hs & Hd & Hf). split; [|split]; simpl; [done| |done].
  intros j. by rewrite dd_get_lookup.
Qed.

Lemma net_indexed_cleared (net : TNetwork) :
  net_indexed net →
  net_indexed (set_destMap ∅ (set_srcMap ∅ (set_reactions ∅ net))).
Proof.
  intros (_ & _ & Hf). split; [|split]; simpl.
  - intros k. by rewrite scan_empty.
  - intros k. by rewrite scan_empty.
  - intros i [? Hi]. by rewrite lookup_empty in Hi.
Qed.

Lemma dict_indexed_insert (d : TNetworkDict) (neti : Z) (net : TNetwork) :
  net_indexed net → dict_indexed d → dict_indexed (<[neti := net]> d).
Proof. intros. by apply map_Forall_insert_2. Qed.

Lemma dict_indexed_alter (d : TNetworkDict) (neti : Z) f :
  (∀ net, net_indexed net → net_indexed (f net)) →
  dict_indexed d → dict_indexed (alter f neti d).
Proof.
  intros Hf Hd i net Hi.
  apply lookup_alter_Some in Hi as [(-> & net' & Hi & ->)|[? Hi]].
  - apply Hf. by apply (Hd _ _ Hi).
  - by apply (Hd _ _ Hi).
Qed.

Lemma indexed_put_net (s : State) (neti : Z) (net : TNetwork) :
  net_indexed net → indexed s → indexed (put_net neti net s).
Proof.
  intros Hn (Hd & Hu & Hr). split; [|done]. by apply dict_indexed_insert.
Qed.

Lemma indexed_pushed (s : State) : indexed s → indexed (pushed s).
Proof.
  intros (Hd & Hu & Hr). unfold pushed. destruct (stackFlag s); [|done].
  split; [done|]. split; simpl; [|done].
  apply Forall_app. split; [done|]. by apply Forall_singleton.
Qed.

(** Leaves of the API with respect to [indexed]. *)
Lemma indexed_pushUndoStack : keeps indexed _pushUndoStack.
Proof. intros s H. rewrite _pushUndoStack_eq. by apply indexed_pushed. Qed.

Lemma indexed_update_net (neti : Z) f :
  (∀ net, net_indexed net → net_indexed (f net)) →
  keeps indexed (update_net neti f).
Proof.
  intros Hf s (Hd & Hu & Hr). split; [|done]. simpl.
  by apply dict_indexed_alter.
Qed.

Lemma indexed_getNetwork (neti : Z) : keeps indexed (_getNetwork neti).
Proof.
  intros s H. unfold _getNetwork. monad_unfold. simpl.
  by destruct (networkDict s !! neti).
Qed.

Lemma indexed_read_srcMap (neti k : Z) : keeps indexed (read_srcMap neti k).
Proof.
  intros s H. unfold read_srcMap. monad_unfold.
  destruct (networkDict s !! neti) as [net|] eqn:E.
  - rewrite (_getNetwork_at _ _ _ E), (update_net_at _ _ _ _ E). simpl.
    apply indexed_put_net; [|done]. apply net_indexed_dd_get_src.
    by apply (proj1 H _ _ E).
  - unfold _getNetwork. monad_unfold. simpl. by rewrite E.
Qed.

Lemma indexed_read_destMap (neti k : Z) : keeps indexed (read_destMap neti k).
Proof.
  intros s H. unfold read_destMap. monad_unfold.
  destruct (networkDict s !! neti) as [net|] eqn:E.
  - rewrite (_getNetwork_at _ _ _ E), (update_net_at _ _ _ _ E). simpl.
    apply indexed_put_net; [|done]. apply net_indexed_dd_get_dest.
    by apply (proj1 H _ _ E).
  - unfold _getNetwork. monad_unfold. simpl. by rewrite E.
Qed.

Lemma srcMap_remove_at (s : State) (neti k x : Z) (net : TNetwork) :
  networkDict s !! neti = Some net → x ∈ dd_lookup (srcMap net) k →
  ∃ m1, srcMap_remove neti k x s = Ok tt (put_net neti (set_srcMap m1 net) s)
        ∧ ∀ j, dd_lookup m1 j
               = if decide (j = k) then dd_lookup (srcMap net) k ∖ {[x]}
                 else dd_lookup (srcMap net) j.
Proof.
  intros Hnet Hx.
  destruct (dd_remove_present k x (srcMap net) Hx) as (m1 & Hrem & Hm1).
  exists m1. split; [|done]. unfold srcMap_remove. monad_unfold.
  by rewrite (_getNetwork_at _ _ _ Hnet), Hrem, (update_net_at _ _ _ _ Hnet).
Qed.

Lemma destMap_remove_at (s : State) (neti k x : Z) (net : TNetwork) :
  networkDict s !! neti = Some net → x ∈ dd_lookup (destMap net) k →
  ∃ m1, destMap_remove neti k x s = Ok tt (put_net neti (set_destMap m1 net) s)
        ∧ ∀ j, dd_lookup m1 j
               = if decide (j = k) then dd_lookup (destMap net) k ∖ {[x]}
                 else dd_lookup (destMap net) j.
Proof.
  intros Hnet Hx.
  destruct (dd_remove_present k x (destMap net) Hx) as (m1 & Hrem & Hm1).
  exists m1. split; [|done]. unfold destMap_remove. monad_unfold.
  by rewrite (_getNetwork_at _ _ _ Hnet), Hrem, (update_net_at _ _ _ _ Hnet).
Qed.

(** The loop [for src in reaction.reactants: net.srcMap[src].remove(reai)]
    run on keys that all hold [reai]: it returns, and [reai] is gone from
    exactly those keys. *)
Lemma srcMap_remove_loop (neti reai : Z) (xs : list Z) :
  ∀ (s : State) (net : TNetwork),
    NoDup xs → networkDict s !! neti = Some net →
    (∀ x, x ∈ xs → reai ∈ dd_lookup (srcMap net) x) →
    ∃ m', for_each xs (λ src, srcMap_remove neti src reai) s
          = Ok tt (put_net neti (set_srcMap m' net) s)
          ∧ ∀ j, dd_lookup m' j
                 = if decide (j ∈ xs) then dd_lookup (srcMap net) j ∖ {[reai]}
                   else dd_lookup (srcMap net) j.
Proof.
  induction xs as [|x xs IH]; intros s net Hnd Hnet Hin.
  - exists (srcMap net). split.
    + simpl. replace (set_srcMap (srcMap net) net) with net by (by destruct net).
      by rewrite (put_net_same _ _ _ Hnet).
    + intros j. destruct (decide (j ∈ [])) as [Hj|]; [|done].
      by apply not_elem_of_nil in Hj.
  - apply NoDup_cons in Hnd as [Hx Hnd].
    destruct (srcMap_remove_at s neti x reai net Hnet) as (m1 & Hrem & Hm1).
    { apply Hin. by left. }
    destruct (IH (put_net neti (set_srcMap m1 net) s) (set_srcMap m1 net) Hnd
                 (put_net_lookup _ _ _)) as (m' & Hloop & Hm').
    { intros y Hy. simpl. rewrite Hm1.
      destruct (decide (y = x)) as [->|]; [done|]. apply Hin. by right. }
    exists m'. split.
    + simpl. unfold mbind, M_bind. rewrite Hrem, Hloop. by rewrite put_net_put.
    + intros j. rewrite Hm'. simpl. rewrite Hm1.
      destruct (decide (j = x)) as [->|Hne].
      * destruct (decide (x ∈ xs)); [done|].
        destruct (decide (x ∈ x :: xs)) as [|Hn]; [done|].
        exfalso. apply Hn. by left.
      * destruct (decide (j ∈ xs)) as [Hj|Hj], (decide (j ∈ x :: xs)) as [Hj'|Hj'];
          try done; exfalso.
        -- apply Hj'. by right.
        -- apply elem_of_cons in Hj' as [?|?]; done.
Qed.

Lemma destMap_remove_loop (neti reai : Z) (xs : list Z) :
  ∀ (s : State) (net : TNetwork),
    NoDup xs → networkDict s !! neti = Some net →
    (∀ x, x ∈ xs → reai ∈ dd_lookup (destMap net) x) →
    ∃ m', for_each xs (λ dest, destMap_remove neti dest reai) s
          = Ok tt (put_net neti (set_destMap m' net) s)
          ∧ ∀ j, dd_lookup m' j
                 = if decide (j ∈ xs) then dd_lookup (destMap net) j ∖ {[reai]}
                   else dd_lookup (destMap net) j.
Proof.
  induction xs as [|x xs IH]; intros s net Hnd Hnet Hin.
  - exists (destMap net). split.
    + simpl. replace (set_destMap (destMap net) net) with net by (by destruct net).
      by rewrite (put_net_same _ _ _ Hnet).
    + intros j. destruct (decide (j ∈ [])) as [Hj|]; [|done].
      by apply not_elem_of_nil in Hj.
  - apply NoDup_cons in Hnd as [Hx Hnd].
    destruct (destMap_remove_at s neti x reai net Hnet) as (m1 & Hrem & Hm1).
    { apply Hin. by left. }
    destruct (IH (put_net neti (set_destMap m1 net) s) (set_destMap m1 net) Hnd
                 (put_net_lookup _ _ _)) as (m' & Hloop & Hm').
    { intros y Hy. simpl. rewrite Hm1.
      destruct (decide (y = x)) as [->|]; [done|]. apply Hin. by right. }
    exists m'. split.
    + simpl. unfold mbind, M_bind. rewrite Hrem, Hloop. by rewrite put_net_put.
    + intros j. rewrite Hm'. simpl. rewrite Hm1.
      destruct (decide (j = x)) as [->|Hne].
      * destruct (decide (x ∈ xs)); [done|].
        destruct (decide (x ∈ x :: xs)) as [|Hn]; [done|].
        exfalso. apply Hn. by left.
      * destruct (decide (j ∈ xs)) as [Hj|Hj], (decide (j ∈ x :: xs)) as [Hj'|Hj'];
          try done; exfalso.
        -- apply Hj'. by right.
        -- apply elem_of_cons in Hj' as [?|?]; done.
Qed.

(** [deleteReaction] on an existing reaction of an indexed network: the
    call returns and the network's indices are those of the scan again. *)
Lemma deleteReaction_at (s : State) (neti reai : Z) (net : TNetwork) (rea : TReaction) :
  networkDict s !! neti = Some net → reactions net !! reai = Some rea →
  net_indexed net →
  ∃ net', deleteReaction neti reai s
          = Ok tt (put_net neti net' (pushed (set_errCode 0 s)))
          ∧ reactions net' = delete reai (reactions net)
          ∧ nodes net' = nodes net
          ∧ net_indexed net'.
Proof.
  intros Hnet Hrea (Hs & Hd & Hf).
  unfold deleteReaction. monad_unfold. simpl. rewrite Hnet.
  destruct (decide (reai ∉ dom (reactions net))) as [Hn|_].
  { exfalso. apply Hn, elem_of_dom. by eexists. }
  rewrite _pushUndoStack_eq.
  set (s1 := pushed (set_errCode 0 s)).
  assert (Hnet1 : networkDict s1 !! neti = Some net).
  { unfold s1. by rewrite networkDict_pushed. }
  rewrite (_getNetwork_at _ _ _ Hnet1).
  unfold _getReaction. monad_unfold. rewrite (_getNetwork_at _ _ _ Hnet1), Hrea.
  destruct (srcMap_remove_loop neti reai (elements (dom (r_reactants rea))) s1 net)
    as (m1 & -> & Hm1); [apply NoDup_elements | done | |].
  { intros x Hx. apply elem_of_elements in Hx. rewrite Hs.
    apply elem_of_scan. by exists rea. }
  destruct (destMap_remove_loop neti reai (elements (dom (r_products rea)))
              (put_net neti (set_srcMap m1 net) s1) (set_srcMap m1 net))
    as (m2 & -> & Hm2); [apply NoDup_elements | apply put_net_lookup | |].
  { intros x Hx. apply elem_of_elements in Hx. simpl. rewrite Hd.
    apply elem_of_scan. by exists rea. }
  rewrite put_net_put.
  rewrite (update_net_at _ _ _ _ (put_net_lookup _ _ _)), put_net_put.
  eexists. split; [reflexivity|]. split; [done|]. split; [done|].
  split; [|split]; simpl.
  - intros k. rewrite scan_delete, Hm1, Hs.
    destruct (decide (k ∈ elements (dom (r_reactants rea)))) as [|Hk]; [done|].
    apply set_eq. intros j. rewrite elem_of_difference, elem_of_singleton.
    split; [|by intros [? ?]]. intros Hj. split; [done|]. intros ->.
    apply elem_of_scan in Hj as (r & Hr & Hkr). rewrite Hrea in Hr.
    injection Hr as <-. apply Hk. by apply elem_of_elements.
  - intros k. rewrite scan_delete, Hm2. simpl. rewrite Hd.
    destruct (decide (k ∈ elements (dom (r_products rea)))) as [|Hk]; [done|].
    apply set_eq. intros j. rewrite elem_of_difference, elem_of_singleton.
    split; [|by intros [? ?]]. intros Hj. split; [done|]. intros ->.
    apply elem_of_scan in Hj as (r & Hr & Hkr). rewrite Hrea in Hr.
    injection Hr as <-. apply Hk. by apply elem_of_elements.
  - intros i Hi. apply Hf. destruct Hi as [r Hi].
    apply lookup_delete_Some in Hi as [_ Hi]. by eexists.
Qed.

(** A loaded network is built by [TNetwork.__init__]. *)
Lemma NetworkSchema_load_indexed (o : NetworkObj) (net : TNetwork) :
  NetworkSchema_load o = Loaded net → net_indexed net.
Proof.
  unfold NetworkSchema_load.
  destruct (opt_field Loaded (nwo_id o)) as [i| |];
    destruct (opt_field (load_map NodeSchema_load) (nwo_nodes o)) as [ns| |];
    destruct (opt_field (load_map ReactionSchema_load) (nwo_reactions o)) as [rs| |];
    destruct (opt_field (load_map CompartmentSchema_load) (nwo_compartments o))
      as [cs| |];
    simpl; try discriminate.
  unfold TNetwork_kwargs. destruct i; [|discriminate].
  intros [= <-]. apply net_indexed_init.
Qed.

Ltac indexed_leaf :=
  match goal with
  | |- keeps indexed _pushUndoStack => apply indexed_pushUndoStack
  | |- keeps indexed (_getNetwork _) => apply indexed_getNetwork
  | |- keeps indexed (read_srcMap _ _) => apply indexed_read_srcMap
  | |- keeps indexed (read_destMap _ _) => apply indexed_read_destMap
  | |- keeps indexed (update_reaction _ _ _) =>
      unfold update_reaction; apply indexed_update_net; intros ? ?;
      apply net_indexed_alter_reaction;
      [ intros ?; simpl; try apply dom_alter_L; reflexivity
      | intros ?; simpl; try apply dom_alter_L; reflexivity
      | assumption ]
  | |- keeps indexed (update_net _ (net_addReaction _)) =>
      apply indexed_update_net; intros ? ?; by apply net_indexed_addReaction
  | |- keeps indexed (update_net _ _) =>
      apply indexed_update_net;
      let n := fresh "n" in
      let H := fresh "H" in
      intros n H;
      apply (net_indexed_frame n); [reflexivity | reflexivity | reflexivity
                                   | reflexivity | exact H]
  | |- keeps indexed (modify (set_errCode _)) =>
      apply keeps_modify; let H := fresh "H" in intros ? H; exact H
  | |- keeps indexed (modify (λ s, set_lastNetIndex _ s)) =>
      apply keeps_modify; let H := fresh "H" in intros ? H; exact H
  | |- keeps indexed (modify (set_lastNetIndex _)) =>
      apply keeps_modify; let H := fresh "H" in intros ? H; exact H
  end.

Ltac indexed_tac :=
  repeat first
    [ keeps_step
    | indexed_leaf
    | progress unfold _raiseError, _getNode, _getReaction,
        _getCompartment, update_node, update_compartment,
        baseNodes_remove, node_indices_remove, getCompartmentOfNode,
        node_setter, reaction_setter, species_setter ].

Lemma indexed_deleteReaction (neti reai : Z) : keeps indexed (deleteReaction neti reai).
Proof.
  intros s H.
  destruct (networkDict s !! neti) as [net|] eqn:Hnet.
  - destruct (reactions net !! reai) as [rea|] eqn:Hrea.
    + destruct (deleteReaction_at s neti reai net rea Hnet Hrea)
        as (net' & -> & _ & _ & Hok); [by apply (proj1 H _ _ Hnet)|].
      simpl. apply indexed_put_net; [done|]. by apply indexed_pushed.
    + unfold deleteReaction. monad_unfold. simpl. rewrite Hnet.
      destruct (decide (reai ∉ dom (reactions net))) as [_|Hn]; [done|].
      exfalso. apply Hn. by apply not_elem_of_dom.
  - unfold deleteReaction. monad_unfold. simpl. by rewrite Hnet.
Qed.

Lemma indexed_clearReactions (neti : Z) : keeps indexed (clearReactions neti).
Proof.
  intros s H. unfold clearReactions. monad_unfold. simpl.
  destruct (decide (neti ∉ dom (networkDict s))) as [Hn|Hn]; simpl; [done|].
  apply dec_stable in Hn. apply elem_of_dom in Hn as [net Hnet].
  rewrite _pushUndoStack_eq.
  set (s1 := pushed (set_errCode 0 s)).
  assert (H1 : indexed s1) by (by apply indexed_pushed).
  assert (Hnet1 : networkDict s1 !! neti = Some net).
  { unfold s1. by rewrite networkDict_pushed. }
  rewrite (_getNetwork_at _ _ _ Hnet1). unfold update_net. monad_unfold. simpl.
  destruct H1 as (Hd & Hu & Hr). split; [|done]. simpl.
  rewrite !alter_alter_eq. apply dict_indexed_alter; [|done].
  intros n Hn. by apply net_indexed_cleared.
Qed.

Lemma indexed_loadNetwork (o : NetworkObj) : keeps indexed (loadNetwork o).
Proof.
  unfold loadNetwork.
  destruct (NetworkSchema_load o) as [net| |] eqn:E;
    [|apply keeps_raise|apply keeps_raise].
  apply NetworkSchema_load_indexed in E.
  unfold clearNetworks, _addNetwork. indexed_tac.
  - apply keeps_modify. intros s (_ & Hu & Hr). split; [|done].
    apply map_Forall_empty.
  - apply keeps_modify. intros s (Hd & Hu & Hr). split; [|done].
    by apply dict_indexed_insert.
Qed.

Lemma indexed_call (c : Call) : keeps indexed (call c).
Proof.
  destruct c; simpl;
    try lazymatch goal with
        | |- keeps _ (deleteReaction _ _) => apply indexed_deleteReaction
        | |- keeps _ (clearReactions _) => apply indexed_clearReactions
        | |- keeps _ (void (loadNetwork _)) =>
            apply keeps_void; apply indexed_loadNetwork
        end;
    unfold newNetwork, deleteNetwork, clearNetworks, clearNetwork,
      addNode, deleteNode, setNodeID, setNodeCoordinate,
      setNodeSize, setNodeFloatingStatus, setNodeFillColorRGB,
      setNodeFillColorAlpha, setNodeOutlineColorRGB, setNodeOutlineColorAlpha,
      setNodeOutlineThickness, createReaction,
      setReactionID, setRateLaw, setReactionCenterPos, setReactionSrcNodeStoich,
      setReactionDestNodeStoich, setReactionSrcNodeHandlePosition,
      setReactionDestNodeHandlePosition, setReactionFillColorRGB,
      setReactionFillColorAlpha, setReactionLineThickness,
      setReactionBezierCurves, setReactionCenterHandlePosition, addCompartment,
      deleteCompartment, setCompartmentOfNode, setCompartmentPosition,
      setCompartmentSize, setCompartmentVolume, setCompartmentID,
      setCompartmentFillColor, setCompartmentOutlineColor,
      setCompartmentOutlineThickness;
    indexed_tac.
  - (* newNetwork *)
    apply keeps_modify. intros s (Hd & Hu & Hr). split; [|done].
    apply dict_indexed_insert; [apply net_indexed_init|done].
  - (* deleteNetwork *)
    apply keeps_modify. intros s (Hd & Hu & Hr). split; [|done].
    by apply map_Forall_delete.
  - (* clearNetworks *)
    apply keeps_modify. intros s (Hd & Hu & Hr). split; [|done].
    apply map_Forall_empty.
  - (* clearNetwork *)
    apply keeps_modify. intros s (Hd & Hu & Hr). split; [|done].
    apply dict_indexed_alter; [|done]. intros ? _. apply net_indexed_init.
Qed.

Lemma indexed_op (o : Op) : keeps indexed (op o).
Proof.
  destruct o; simpl.
  - apply indexed_call.
  - (* undo *)
    intros s (Hd & Hu & Hr).
    destruct (decide (netSetStack s = [])) as [E|E].
    + rewrite (undo_empty s E). by split.
    + destruct (exists_last E) as (rest & top & Hl).
      rewrite (undo_nonempty s top rest Hl). rewrite Hl in Hu.
      apply Forall_app in Hu as [Hrest Htop].
      apply (proj1 (Forall_singleton _ _)) in Htop.
      split; [exact Htop|]. split; [exact Hrest|]. simpl.
      apply Forall_app. split; [done|]. by apply Forall_singleton.
  - (* redo *)
    intros s (Hd & Hu & Hr).
    destruct (decide (redoStack s = [])) as [E|E].
    + rewrite (redo_empty s E). by split.
    + destruct (exists_last E) as (rest & top & Hl).
      rewrite (redo_nonempty s top rest Hl). rewrite Hl in Hr.
      apply Forall_app in Hr as [Hrest Htop].
      apply (proj1 (Forall_singleton _ _)) in Htop.
      assert (Hnew : indexed (mkState (stackFlag s) (errCode s) top
                                (netSetStack s ++ [networkDict s]) rest
                                (lastNetIndex s))).
      { split; [exact Htop|]. split; [|exact Hrest]. simpl.
        apply Forall_app. split; [done|]. by apply Forall_singleton. }
      by destruct (decide (errCode s < 0)).
  - (* startGroup *)
    intros s (Hd & Hu & Hr). split; [done|]. split; simpl; [|done].
    apply Forall_app. split; [done|]. by apply Forall_singleton.
  - (* endGroup *)
    intros s H. exact H.
  - (* reset *)
    intros s _. split; [apply map_Forall_empty|]. by split.
  - apply keeps_void. unfold getSrcReactions. indexed_tac.
  - apply keeps_void. unfold getDestReactions. indexed_tac.
Qed.

Lemma indexed_initial : indexed initial_state.
Proof. split; [apply map_Forall_empty|]. by split. Qed.

(** C3. In every state reached from the initial one by any sequence of
    operations (mutating calls that return or raise, undo, redo, grouping,
    reset, reads of the indices), for every network of the registry and
    every node index [k], reading [srcMap] at [k] gives exactly the
    indices of the reactions whose reactants have key [k], and [destMap]
    at [k] those whose products have key [k] (see [elem_of_scan]).  The
    sequence may end with [createReaction], [deleteReaction] or
    [clearReactions]. *)
Theorem indices_match_scan (os : list Op) (neti : Z) (net : TNetwork) :
  networkDict (run_ops os initial_state) !! neti = Some net →
  ∀ k, dd_lookup (srcMap net) k = scan r_reactants (reactions net) k
       ∧ dd_lookup (destMap net) k = scan r_products (reactions net) k.
Proof.
  intros Hnet k.
  assert (H : indexed (run_ops os initial_state)).
  { apply keeps_run_ops; [apply indexed_op | apply indexed_initial]. }
  destruct (proj1 H _ _ Hnet) as (Hs & Hd & _). by split.
Qed.

Lemma indices_match_scan_witness :
  ∃ net, networkDict (run_ops reaction_ops initial_state) !! 0 = Some net
         ∧ dd_lookup (srcMap net) 0 = {[0]}
         ∧ dd_lookup (destMap net) 1 = {[0]}
         ∧ ∀ k, dd_lookup (srcMap net) k = scan r_reactants (reactions net) k
                ∧ dd_lookup (destMap net) k = scan r_products (reactions net) k.
Proof.
  eexists. split; [vm_compute; reflexivity|].
  split; [vm_compute; reflexivity|].
  split; [vm_compute; reflexivity|].
  apply (indices_match_scan reaction_ops 0). vm_compute; reflexivity.
Defined.

Example indices_after_deleteReaction :
  ∃ net, networkDict (run_ops (reaction_ops ++ [O_call (C_deleteReaction 0 0)])
                              initial_state) !! 0 = Some net
         ∧ dd_lookup (srcMap net) 0 = ∅
         ∧ dd_lookup (destMap net) 1 = ∅.
Proof.
  eexists. split; [vm_compute; reflexivity|].
  split; vm_compute; reflexivity.
Qed.

(** ** Deleting a node *)

Lemma read_srcMap_at (s : State) (neti k : Z) (net : TNetwork) :
  networkDict s !! neti = Some net →
  read_srcMap neti k s
  = Ok (dd_lookup (srcMap net) k)
       (put_net neti (set_srcMap (dd_get k (srcMap net)).2 net) s).
Proof.
  intros H. unfold read_srcMap. monad_unfold.
  by rewrite (_getNetwork_at _ _ _ H), (update_net_at _ _ _ _ H), dd_get_value.
Qed.

Lemma read_destMap_at (s : State) (neti k : Z) (net : TNetwork) :
  networkDict s !! neti = Some net →
  read_destMap neti k s
  = Ok (dd_lookup (destMap net) k)
       (put_net neti (set_destMap (dd_get k (destMap net)).2 net) s).
Proof.
  intros H. unfold read_destMap. monad_unfold.
  by rewrite (_getNetwork_at _ _ _ H), (update_net_at _ _ _ _ H), dd_get_value.
Qed.

Lemma getCompartmentOfNode_at (s : State) (neti nodei : Z) (net : TNetwork)
    (node : TNode) :
  networkDict s !! neti = Some net → nodes net !! nodei = Some node →
  getCompartmentOfNode neti nodei s = Ok (n_compi node) s.
Proof.
  intros H Hn. unfold getCompartmentOfNode. monad_unfold.
  by rewrite (_getNetwork_at _ _ _ H), Hn.
Qed.

Lemma baseNodes_remove_at (s : State) (neti nodei : Z) (net : TNetwork) :
  networkDict s !! neti = Some net →
  baseNodes_remove neti nodei s
  = if decide (nodei ∈ baseNodes net)
    then Ok tt (put_net neti (set_baseNodes (baseNodes net ∖ {[nodei]}) net) s)
    else Raise KeyError s.
Proof.
  intros H. unfold baseNodes_remove, set_remove. monad_unfold.
  rewrite (_getNetwork_at _ _ _ H).
  destruct (decide (nodei ∈ baseNodes net)); [|done].
  by rewrite (update_net_at _ _ _ _ H).
Qed.

Lemma node_indices_remove_at (s : State) (neti compi nodei : Z) (net : TNetwork) :
  networkDict s !! neti = Some net →
  node_indices_remove neti compi nodei s
  = match compartments net !! compi with
    | Some comp =>
        if decide (nodei ∈ c_node_indices comp)
        then Ok tt (put_net neti
                      (set_compartments
                         (<[compi := without_node nodei comp]> (compartments net))
                         net) s)
        else Raise KeyError s
    | None => Raise KeyError s
    end.
Proof.
  intros H. unfold node_indices_remove, set_remove. monad_unfold.
  rewrite (_getNetwork_at _ _ _ H).
  destruct (compartments net !! compi) as [comp|] eqn:E; [|done].
  destruct (decide (nodei ∈ c_node_indices comp)); [|done].
  unfold update_compartment. rewrite (update_net_at _ _ _ _ H).
  by rewrite (alter_alt_Some _ _ _ _ E).
Qed.

Lemma gset_size_zero (X : gset Z) : size X = 0%nat ↔ X = ∅.
Proof. rewrite size_empty_iff. by unfold_leibniz. Qed.

Lemma deleteNode_at (s : State) (neti nodei : Z) (net : TNetwork) (node : TNode) :
  networkDict s !! neti = Some net → nodes net !! nodei = Some node →
  deleteNode neti nodei s = deleteNode_outcome s neti nodei net node.
Proof.
  intros Hnet Hnode. unfold deleteNode, deleteNode_outcome.
  unfold bind at 1. unfold mbind, M_bind, gets. rewrite Hnet.
  destruct (decide (nodei ∉ dom (nodes net))) as [Hn|_].
  { exfalso. apply Hn, elem_of_dom. by eexists. }
  unfold bind at 1. unfold mbind, M_bind.
  rewrite (read_srcMap_at _ _ _ _ Hnet).
  fold (after_src_read nodei net).
  set (s1 := put_net neti (after_src_read nodei net) s).
  assert (H1 : networkDict s1 !! neti = Some (after_src_read nodei net))
    by apply put_net_lookup.
  unfold bind at 1. unfold mbind, M_bind.
  destruct (decide (dd_lookup (srcMap net) nodei = ∅)) as [Es|Es].
  - destruct (decide (size (dd_lookup (srcMap net) nodei) = 0%nat)) as [_|Hne];
      [|exfalso; by apply Hne, gset_size_zero].
    unfold bind at 1. unfold mbind, M_bind.
    rewrite (read_destMap_at _ _ _ _ H1). unfold s1. rewrite put_net_put.
    change (destMap (after_src_read nodei net)) with (destMap net).
    change (set_destMap (dd_get nodei (destMap net)).2 (after_src_read nodei net))
      with (after_both_reads nodei net).
    set (net2 := after_both_reads nodei net).
    unfold mret, M_ret.
    destruct (decide (dd_lookup (destMap net) nodei = ∅)) as [Ed|Ed].
    + rewrite bool_decide_eq_true_2 by (by apply gset_size_zero).
      unfold modify. rewrite _pushUndoStack_eq.
      unfold bind. unfold mbind, M_bind. cbv beta iota.
      set (s3 := pushed (set_errCode 0 (put_net neti net2 s))).
      assert (H3 : networkDict s3 !! neti = Some net2).
      { unfold s3. rewrite networkDict_pushed. apply put_net_lookup. }
      rewrite (getCompartmentOfNode_at s3 neti nodei net2 node H3 Hnode).
      destruct (decide (n_compi node = -1)) as [Ec|Ec].
      * rewrite (baseNodes_remove_at _ _ _ _ H3).
        change (baseNodes net2) with (baseNodes net).
        destruct (decide (nodei ∈ baseNodes net)); [|done].
        rewrite (update_net_at _ _ _ _ (put_net_lookup _ _ _)).
        by rewrite put_net_put.
      * rewrite (node_indices_remove_at _ _ _ _ _ H3).
        change (compartments net2) with (compartments net).
        destruct (compartments net !! n_compi node) as [comp|]; [|done].
        destruct (decide (nodei ∈ c_node_indices comp)); [|done].
        rewrite (update_net_at _ _ _ _ (put_net_lookup _ _ _)).
        by rewrite put_net_put.
    + rewrite bool_decide_eq_false_2 by (by rewrite gset_size_zero).
      unfold modify, raise_asserted, raise_errCode. simpl. done.
  - destruct (decide (size (dd_lookup (srcMap net) nodei) = 0%nat)) as [He|_];
      [exfalso; by apply Es, gset_size_zero|].
    unfold mret, M_ret, modify, raise_asserted, raise_errCode. simpl. done.
Qed.

(** [deleteNode] on an existing node [nodei] of an existing network, with
    [src] and [dest] what [srcMap] and [destMap] give for it:
    - if [src] or [dest] is non-empty, [deleteNode] raises
      [NodeNotFreeError] and the nodes (hence their number), the base set
      and the compartments are as before;
    - for a node held by the container its [compi] names, [deleteNode]
      returns exactly when [src] and [dest] are both empty;
    - whenever [deleteNode] returns, the node is gone from [nodes] and
      from the container that held it: from [baseNodes] if its [compi] is
      -1, from the node set of compartment [compi] otherwise, the other
      container being untouched. *)
Theorem deleteNode_spec (s : State) (neti nodei : Z) (net : TNetwork) (node : TNode) :
  networkDict s !! neti = Some net →
  nodes net !! nodei = Some node →
  let src := dd_lookup (srcMap net) nodei in
  let dest := dd_lookup (destMap net) nodei in
  (src ≠ ∅ ∨ dest ≠ ∅ →
     ∃ s' net', deleteNode neti nodei s = Raise NodeNotFreeError s'
                ∧ networkDict s' !! neti = Some net'
                ∧ nodes net' = nodes net
                ∧ size (nodes net') = size (nodes net)
                ∧ baseNodes net' = baseNodes net
                ∧ compartments net' = compartments net)
  ∧ (held net nodei node →
       ((∃ s', deleteNode neti nodei s = Ok tt s') ↔ src = ∅ ∧ dest = ∅))
  ∧ (∀ s', deleteNode neti nodei s = Ok tt s' →
       ∃ net', networkDict s' !! neti = Some net'
               ∧ nodes net' = delete nodei (nodes net)
               ∧ if decide (n_compi node = -1)
                 then nodei ∈ baseNodes net
                      ∧ baseNodes net' = baseNodes net ∖ {[nodei]}
                      ∧ compartments net' = compartments net
                 else ∃ comp, compartments net !! n_compi node = Some comp
                              ∧ nodei ∈ c_node_indices comp
                              ∧ baseNodes net' = baseNodes net
                              ∧ compartments net'
                                = <[n_compi node := without_node nodei comp]>
                                    (compartments net)).
Proof.
  intros Hnet Hnode src dest.
  rewrite (deleteNode_at s neti nodei net node Hnet Hnode).
  unfold deleteNode_outcome. fold src. fold dest.
  split; [|split].
  - intros Hbusy.
    destruct (decide (src = ∅)) as [Es|Es].
    + destruct (decide (dest = ∅)) as [Ed|Ed]; [by destruct Hbusy|].
      eexists _, _. split; [reflexivity|].
      split; [apply put_net_lookup|]. by repeat split.
    + eexists _, _. split; [reflexivity|].
      split; [apply put_net_lookup|]. by repeat split.
  - intros Hheld. unfold held in Hheld. split.
    + intros [s' Hok].
      destruct (decide (src = ∅)); [|discriminate].
      destruct (decide (dest = ∅)); [done|discriminate].
    + intros [Es Ed].
      destruct (decide (src = ∅)); [|done].
      destruct (decide (dest = ∅)); [|done].
      destruct (decide (n_compi node = -1)).
      * destruct (decide (nodei ∈ baseNodes net)); [by eexists|done].
      * destruct Hheld as (comp & -> & Hin).
        destruct (decide (nodei ∈ c_node_indices comp)); [by eexists|done].
  - intros s' Hok.
    destruct (decide (src = ∅)); [|discriminate].
    destruct (decide (dest = ∅)); [|discriminate].
    destruct (decide (n_compi node = -1)).
    + destruct (decide (nodei ∈ baseNodes net)); [|discriminate].
      injection Hok as <-. eexists. split; [apply put_net_lookup|].
      by repeat split.
    + destruct (compartments net !! n_compi node) as [comp|]; [|discriminate].
      destruct (decide (nodei ∈ c_node_indices comp)); [|discriminate].
      injection Hok as <-. eexists. split; [apply put_net_lookup|].
      split; [done|]. exists comp. by repeat split.
Qed.

(** C6. [deleteNode] does not return whenever both reaction sets of the
    node are empty.  After the failed [setCompartmentOfNode(0, 0, 7)] on
    [one_node_state], a state the API reaches, node 0 exists with [compi]
    -1, both its reaction sets are empty, and it is in no container:
    [deleteNode(0, 0)] takes its snapshot and then raises the [KeyError]
    of [baseNodes.remove], the node still being there. *)
Theorem deleteNode_raises_with_empty_sets :
  let s := run_ops [O_call (C_setCompartmentOfNode 0 0 7)] one_node_state in
  reachable s
  ∧ (networkDict s !! 0 ≫= λ net, n_compi <$> nodes net !! 0) = Some (-1)
  ∧ (networkDict s !! 0 ≫= λ net, Some (dd_lookup (srcMap net) 0)) = Some ∅
  ∧ (networkDict s !! 0 ≫= λ net, Some (dd_lookup (destMap net) 0)) = Some ∅
  ∧ (baseNodes <$> networkDict s !! 0) = Some ∅
  ∧ raised (deleteNode 0 0 s) = Some KeyError
  ∧ length (netSetStack (state_of (deleteNode 0 0 s)))
    = S (length (netSetStack s))
  ∧ (dom ∘ nodes <$> networkDict (state_of (deleteNode 0 0 s)) !! 0)
    = Some {[0]}.
Proof.
  intros s.
  split; [by exists [O_call (C_newNetwork "n");
                     O_call (C_addNode 0 "A" 0 0 10 10 false);
                     O_call (C_setCompartmentOfNode 0 0 7)]|].
  repeat split; vm_compute; reflexivity.
Qed.

Lemma deleteNode_spec_witness :
  ∃ net node0 node2,
    networkDict three_nodes_state !! 0 = Some net
    ∧ nodes net !! 0 = Some node0
    ∧ nodes net !! 2 = Some node2
    ∧ held net 2 node2
    ∧ (∃ s', deleteNode 0 2 three_nodes_state = Ok tt s')
    ∧ ∃ s' net', deleteNode 0 0 three_nodes_state = Raise NodeNotFreeError s'
                 ∧ networkDict s' !! 0 = Some net'
                 ∧ nodes net' = nodes net
                 ∧ size (nodes net') = size (nodes net)
                 ∧ baseNodes net' = baseNodes net
                 ∧ compartments net' = compartments net.
Proof.
  eexists _, _, _.
  split; [vm_compute; reflexivity|].
  split; [vm_compute; reflexivity|].
  split; [vm_compute; reflexivity|].
  split; [vm_compute; reflexivity|].
  split.
  - refine (proj2 (proj1 (proj2
              (deleteNode_spec three_nodes_state 0 2 _ _ _ _)) _) _).
    + vm_compute; reflexivity.
    + vm_compute; reflexivity.
    + vm_compute; reflexivity.
    + split; vm_compute; reflexivity.
  - refine (proj1 (deleteNode_spec three_nodes_state 0 0 _ _ _ _) _).
    + vm_compute; reflexivity.
    + vm_compute; reflexivity.
    + left. intros E. apply (f_equal (λ X : gset Z, bool_decide (0 ∈ X))) in E.
      vm_compute in E. discriminate.
Defined.

(** ** Undo and redo undo each other *)

(** [undo()] on a non-empty undo stack followed by [redo()]: both return
    and every global but [errCode] is as before the [undo()]. *)
Theorem undo_then_redo (s : State) :
  netSetStack s ≠ [] →
  ∃ s1 s2, undo s = Ok tt s1 ∧ redo s1 = Ok tt s2
           ∧ networkDict s2 = networkDict s
           ∧ netSetStack s2 = netSetStack s
           ∧ redoStack s2 = redoStack s
           ∧ stackFlag s2 = stackFlag s
           ∧ lastNetIndex s2 = lastNetIndex s.
Proof.
  intros Hne. destruct (exists_last Hne) as (rest & top & Hl).
  eexists _, _. split; [apply (undo_nonempty s top rest Hl)|].
  split.
  - erewrite redo_nonempty; [|reflexivity]. simpl. reflexivity.
  - simpl. by rewrite Hl.
Qed.

Lemma undo_then_redo_witness :
  let s := run_ops [O_call (C_newNetwork "a")] initial_state in
  netSetStack s ≠ []
  ∧ ∃ s1 s2, undo s = Ok tt s1 ∧ redo s1 = Ok tt s2
             ∧ networkDict s2 = networkDict s
             ∧ netSetStack s2 = netSetStack s
             ∧ redoStack s2 = redoStack s
             ∧ stackFlag s2 = stackFlag s
             ∧ lastNetIndex s2 = lastNetIndex s.
Proof.
  assert (H : netSetStack (run_ops [O_call (C_newNetwork "a")] initial_state) ≠ [])
    by (vm_compute; discriminate).
  split; [exact H|]. exact (undo_then_redo _ H).
Defined.

(** [redo()] on a non-empty redo stack followed by [undo()]: whether the
    [redo()] returned or raised from a stale error code, the [undo()]
    returns and every global but [errCode] is as before the [redo()]. *)
Theorem redo_then_undo (s : State) :
  redoStack s ≠ [] →
  ∃ s2, undo (state_of (redo s)) = Ok tt s2
        ∧ networkDict s2 = networkDict s
        ∧ netSetStack s2 = netSetStack s
        ∧ redoStack s2 = redoStack s
        ∧ stackFlag s2 = stackFlag s
        ∧ lastNetIndex s2 = lastNetIndex s.
Proof.
  intros Hne. destruct (exists_last Hne) as (rest & top & Hl).
  rewrite (redo_nonempty s top rest Hl).
  set (s' := mkState (stackFlag s) (errCode s) top
                     (netSetStack s ++ [networkDict s]) rest (lastNetIndex s)).
  assert (Hu : undo s' = Ok tt (mkState (stackFlag s) 0 (networkDict s)
                                  (netSetStack s) (rest ++ [top]) (lastNetIndex s)))
    by exact (undo_nonempty s' (networkDict s) (netSetStack s) eq_refl).
  exists (mkState (stackFlag s) 0 (networkDict s) (netSetStack s)
                  (rest ++ [top]) (lastNetIndex s)).
  split; [by destruct (decide (errCode s < 0))|].
  simpl. by rewrite Hl.
Qed.

Lemma redo_then_undo_witness :
  redoStack after_failed_undo ≠ []
  ∧ raised (redo after_failed_undo) = Some StackEmptyError
  ∧ ∃ s2, undo (state_of (redo after_failed_undo)) = Ok tt s2
          ∧ networkDict s2 = networkDict after_failed_undo
          ∧ netSetStack s2 = netSetStack after_failed_undo
          ∧ redoStack s2 = redoStack after_failed_undo
          ∧ stackFlag s2 = stackFlag after_failed_undo
          ∧ lastNetIndex s2 = lastNetIndex after_failed_undo.
Proof.
  assert (H : redoStack after_failed_undo ≠ []) by (vm_compute; discriminate).
  split; [exact H|]. split; [vm_compute; reflexivity|].
  exact (redo_then_undo _ H).
Defined.

(** ** Round trips through the schema *)

Lemma color_in_range_forallb (c : TColor) :
  color_in_range c ↔
  forallb (λ val, bool_decide (0 ≤ val ≤ 255)) [tc_r c; tc_g c; tc_b c; tc_a c] = true.
Proof.
  unfold color_in_range. simpl. rewrite !andb_true_iff, !bool_decide_eq_true.
  tauto.
Qed.

Lemma Color_deserialize_serialize (c : TColor) :
  Color_deserialize (Color_serialize c)
  = if forallb (λ val, bool_decide (0 ≤ val ≤ 255)) [tc_r c; tc_g c; tc_b c; tc_a c]
    then Loaded c else Invalid.
Proof.
  destruct c as [r g b a]. unfold Color_serialize, Color_deserialize.
  cbn [tc_r tc_g tc_b tc_a].
  destruct (decide (a ≠ 255)) as [Ha|Ha]; simpl.
  - done.
  - apply dec_stable in Ha. subst a.
    rewrite (bool_decide_eq_true_2 (0 ≤ 255 ≤ 255)) by lia.
    rewrite !andb_true_r. done.
Qed.

Lemma Color_roundtrip_ok (c : TColor) :
  color_in_range c → Color_deserialize (Color_serialize c) = Loaded c.
Proof.
  intros H. rewrite Color_deserialize_serialize.
  by rewrite (proj1 (color_in_range_forallb c) H).
Qed.

(** A colour survives [Color._serialize] followed by [Color._deserialize]
    exactly when all its channels are in [0, 255]; otherwise its dump is
    refused on load.  The alpha channel is written only when it is not
    255. *)
Theorem Color_roundtrip (c : TColor) :
  (Color_deserialize (Color_serialize c) = Loaded c ↔ color_in_range c)
  ∧ (¬ color_in_range c → Color_deserialize (Color_serialize c) = Invalid)
  ∧ (length (Color_serialize c) = 3%nat ↔ tc_a c = 255).
Proof.
  rewrite Color_deserialize_serialize, color_in_range_forallb.
  split; [|split].
  - destruct (forallb _ _); split; done.
  - destruct (forallb _ _); [intros H; by destruct H|done].
  - unfold Color_serialize.
    destruct (decide (tc_a c ≠ 255)) as [Ha|Ha]; simpl.
    + split; [discriminate|done].
    + apply dec_stable in Ha. done.
Qed.

Lemma Dim2_roundtrip (v : Vec2) : Dim2_deserialize (Dim2_serialize v) = Loaded v.
Proof. by destruct v. Qed.

Lemma Dim_deserialize_ok (q : Q) : Qleb 0 q = true → Dim_deserialize q = Loaded q.
Proof. intros H. unfold Dim_deserialize. by rewrite H. Qed.

Lemma SpeciesNode_roundtrip (sn : TSpeciesNode) :
  SpeciesNode_load (SpeciesNode_dump sn) = Loaded sn.
Proof. destruct sn as [st [x y]]. reflexivity. Qed.

Lemma any_value_false {V} (p : V → bool) (d : gmap Z V) :
  (∀ k v, d !! k = Some v → p v = false) → any_value p d = false.
Proof.
  intros H. destruct (any_value p d) eqn:E; [|done].
  apply any_value_spec in E as (k & v & Hk & Hp).
  rewrite (H _ _ Hk) in Hp. discriminate.
Qed.

(** A mapping field whose every value loads, loads as the mapping of the
    loaded values. *)
Lemma load_map_fmap {A B C} (f : B → loaded C) (g : A → B) (h : A → C)
    (m : gmap Z A) :
  (∀ k x, m !! k = Some x → f (g x) = Loaded (h x)) →
  load_map f (g <$> m) = Loaded (h <$> m).
Proof.
  intros H. unfold load_map.
  assert (Hall : ∀ k v, (f <$> (g <$> m)) !! k = Some v →
                        ∃ x, m !! k = Some x ∧ v = Loaded (h x)).
  { intros k v Hk. rewrite !lookup_fmap in Hk.
    destruct (m !! k) as [x|] eqn:E; [|discriminate].
    simpl in Hk. injection Hk as <-. exists x. split; [done|]. by apply (H k). }
  rewrite any_value_false; [|intros k v Hk; by destruct (Hall k v Hk) as (x & _ & ->)].
  rewrite any_value_false; [|intros k v Hk; by destruct (Hall k v Hk) as (x & _ & ->)].
  f_equal. apply map_eq. intros k.
  rewrite lookup_omap, !lookup_fmap.
  destruct (m !! k) as [x|] eqn:E; simpl; [|done].
  by rewrite (H k x E).
Qed.

Lemma NodeSchema_load_dump (n : TNode) :
  node_loadable n →
  NodeSchema_load (NodeSchema_dump n) = Loaded (set_n_compi (-1) n).
Proof.
  intros (Hf & Ho & Ht). destruct n as [id pos size fl compi fc oc th].
  unfold NodeSchema_load, NodeSchema_dump, node_loadable in *.
  cbn -[Dim2_deserialize Dim2_serialize Color_deserialize Color_serialize Dim_deserialize] in *.
  rewrite !Dim2_roundtrip, !Color_roundtrip_ok, Dim_deserialize_ok by done.
  reflexivity.
Qed.

(** A node whose colours are bytes and whose outline thickness is not
    negative loads from its own dump; its [id], [position], [rectSize],
    [floating], [fillColor], [outlineColor] and [outlineThickness] come
    back as they were, and its compartment reference [compi] comes back as
    -1.  (The [font], which the schema does not carry either, is not part
    of this development.) *)
Theorem NodeSchema_roundtrip (n : TNode) :
  node_loadable n →
  ∃ n', NodeSchema_load (NodeSchema_dump n) = Loaded n'
        ∧ n_id n' = n_id n
        ∧ n_position n' = n_position n
        ∧ n_rectSize n' = n_rectSize n
        ∧ n_floating n' = n_floating n
        ∧ n_fillColor n' = n_fillColor n
        ∧ n_outlineColor n' = n_outlineColor n
        ∧ n_outlineThickness n' = n_outlineThickness n
        ∧ n_compi n' = -1.
Proof.
  intros H. exists (set_n_compi (-1) n).
  split; [by apply NodeSchema_load_dump|]. by repeat split.
Qed.

Lemma NodeSchema_roundtrip_witness :
  let n := set_n_compi 4 (TNode_new "A" (mkVec2 0 0) (mkVec2 10 10) false) in
  node_loadable n
  ∧ ∃ n', NodeSchema_load (NodeSchema_dump n) = Loaded n'
          ∧ n_id n' = n_id n
          ∧ n_position n' = n_position n
          ∧ n_rectSize n' = n_rectSize n
          ∧ n_floating n' = n_floating n
          ∧ n_fillColor n' = n_fillColor n
          ∧ n_outlineColor n' = n_outlineColor n
          ∧ n_outlineThickness n' = n_outlineThickness n
          ∧ n_compi n' = -1.
Proof.
  assert (H : node_loadable
                (set_n_compi 4 (TNode_new "A" (mkVec2 0 0) (mkVec2 10 10) false))).
  { split; [|split]; [repeat split; simpl; lia ..|reflexivity]. }
  split; [exact H|]. exact (NodeSchema_roundtrip _ H).
Defined.

Lemma ReactionSchema_load_dump (x : TReaction) :
  reaction_loadable x →
  ReactionSchema_load (ReactionSchema_dump x) = Loaded (reaction_reloaded x).
Proof.
  intros (Hf & Ht). destruct x as [rid cp rl rs ps fc th chp bz].
  unfold ReactionSchema_load, ReactionSchema_dump in *.
  cbn -[Dim2_deserialize Dim2_serialize Color_deserialize Color_serialize Dim_deserialize load_map SpeciesNode_load SpeciesNode_dump] in *.
  rewrite !(load_map_fmap SpeciesNode_load SpeciesNode_dump id)
    by (intros; apply SpeciesNode_roundtrip).
  rewrite !map_fmap_id.
  rewrite Dim2_roundtrip, Color_roundtrip_ok, Dim_deserialize_ok by done.
  reflexivity.
Qed.

(** A reaction whose colour is a byte quadruple and whose thickness is not
    negative loads from its own dump with its identifier, rate law,
    reactants, products (stoichiometries and handles), colour, thickness
    and centre handle as they were; the centre position is reset to
    [None] and the curve flag to [True], which the schema does not
    carry. *)
Theorem ReactionSchema_roundtrip (x : TReaction) :
  reaction_loadable x →
  ReactionSchema_load (ReactionSchema_dump x) = Loaded (reaction_reloaded x).
Proof. apply ReactionSchema_load_dump. Qed.

Lemma ReactionSchema_roundtrip_witness :
  let x := set_r_centerPos (Some (mkVec2 5 5))
             (set_r_reactants (species_of [0; 1]) (TReaction_new "r")) in
  reaction_loadable x
  ∧ ReactionSchema_load (ReactionSchema_dump x) = Loaded (reaction_reloaded x).
Proof.
  assert (H : reaction_loadable
                (set_r_centerPos (Some (mkVec2 5 5))
                   (set_r_reactants (species_of [0; 1]) (TReaction_new "r")))).
  { split; [repeat split; simpl; lia|reflexivity]. }
  split; [exact H|]. exact (ReactionSchema_roundtrip _ H).
Defined.

Lemma CompartmentSchema_load_dump (c : TCompartment) :
  compartment_loadable c →
  CompartmentSchema_load (CompartmentSchema_dump c)
  = Loaded (set_c_node_indices ∅ c).
Proof.
  intros (Hf & Ho & Hv & Ht). destruct c as [id pos size ns vol fc oc th].
  unfold CompartmentSchema_load, CompartmentSchema_dump in *.
  cbn -[Dim2_deserialize Dim2_serialize Color_deserialize Color_serialize Dim_deserialize] in *.
  rewrite !Dim2_roundtrip, !Color_roundtrip_ok, !Dim_deserialize_ok by done.
  reflexivity.
Qed.

(** A compartment whose colours are bytes and whose volume and outline
    thickness are not negative loads from its own dump with every field
    as it was except the node set, which comes back empty. *)
Theorem CompartmentSchema_roundtrip (c : TCompartment) :
  compartment_loadable c →
  CompartmentSchema_load (CompartmentSchema_dump c)
  = Loaded (set_c_node_indices ∅ c).
Proof. apply CompartmentSchema_load_dump. Qed.

Lemma CompartmentSchema_roundtrip_witness :
  let c := set_c_node_indices {[0; 1]}
             (TCompartment_new "C" (mkVec2 0 0) (mkVec2 100 100)) in
  compartment_loadable c
  ∧ CompartmentSchema_load (CompartmentSchema_dump c)
    = Loaded (set_c_node_indices ∅ c).
Proof.
  assert (H : compartment_loadable
                (set_c_node_indices {[0; 1]}
                   (TCompartment_new "C" (mkVec2 0 0) (mkVec2 100 100)))).
  { split; [|split; [|split]]; [repeat split; simpl; lia ..|reflexivity|reflexivity]. }
  split; [exact H|]. exact (CompartmentSchema_roundtrip _ H).
Defined.

(** The dump of a network all of whose entities pass the validators loads
    as the network rebuilt by [TNetwork.__init__] from the same
    identifier and the reloaded entities under their old indices. *)
Theorem NetworkSchema_roundtrip (net : TNetwork) :
  network_loadable net →
  NetworkSchema_load (NetworkSchema_dump net) = Loaded (network_reloaded net).
Proof.
  intros (Hn & Hr & Hc). unfold NetworkSchema_load, NetworkSchema_dump.
  cbn -[load_map NodeSchema_load NodeSchema_dump ReactionSchema_load ReactionSchema_dump CompartmentSchema_load CompartmentSchema_dump TNetwork_init].
  rewrite (load_map_fmap NodeSchema_load NodeSchema_dump (set_n_compi (-1)))
    by (intros k x Hk; apply NodeSchema_load_dump, (Hn _ _ Hk)).
  rewrite (load_map_fmap ReactionSchema_load ReactionSchema_dump reaction_reloaded)
    by (intros k x Hk; apply ReactionSchema_load_dump, (Hr _ _ Hk)).
  rewrite (load_map_fmap CompartmentSchema_load CompartmentSchema_dump
             (set_c_node_indices ∅))
    by (intros k x Hk; apply CompartmentSchema_load_dump, (Hc _ _ Hk)).
  reflexivity.
Qed.

Lemma NetworkSchema_roundtrip_witness :
  let net := TNetwork_init "n" nodes_in_comp1 ∅ comps_with_comp1 in
  network_loadable net
  ∧ NetworkSchema_load (NetworkSchema_dump net) = Loaded (network_reloaded net).
Proof.
  assert (H : network_loadable (TNetwork_init "n" nodes_in_comp1 ∅ comps_with_comp1)).
  { split; [|split]; simpl.
    - apply map_Forall_singleton.
      split; [|split]; [repeat split; simpl; lia ..|reflexivity].
    - apply map_Forall_empty.
    - apply map_Forall_singleton.
      split; [|split; [|split]];
        [repeat split; simpl; lia ..|reflexivity|reflexivity]. }
  split; [exact H|]. exact (NetworkSchema_roundtrip _ H).
Defined.

(** [loadNetwork]: an object the schema refuses leaves every global as it
    was.  An object that loads replaces the whole registry by the one
    loaded network, at index 0, and sets the network counter to 1; with
    no group open this pushes two snapshots, the registry before the call
    and then the emptied registry, and clears the redo stack; inside a
    group the stacks stay as they are. *)
Theorem loadNetwork_outcome (o : NetworkObj) (s : State) :
  match NetworkSchema_load o with
  | Loaded net =>
      ∃ s', loadNetwork o s = Ok 0 s'
            ∧ networkDict s' = {[0 := net]}
            ∧ lastNetIndex s' = 1
            ∧ stackFlag s' = stackFlag s
            ∧ if stackFlag s
              then netSetStack s' = netSetStack s ++ [networkDict s; ∅]
                   ∧ redoStack s' = []
              else netSetStack s' = netSetStack s ∧ redoStack s' = redoStack s
  | _ => raised (loadNetwork o s) ≠ None ∧ state_of (loadNetwork o s) = s
  end.
Proof.
  unfold loadNetwork. destruct (NetworkSchema_load o) as [net| |]; [|done|done].
  unfold clearNetworks, _addNetwork, _pushUndoStack. monad_unfold. simpl.
  destruct (stackFlag s) eqn:E; simpl;
    (rewrite any_value_false by (intros k v Hk; by rewrite lookup_empty in Hk));
    simpl; rewrite ?E; simpl.
  - eexists. split; [reflexivity|]. simpl.
    repeat split; try done. unfold TStack_push. by rewrite <- app_assoc.
  - eexists. split; [reflexivity|]. simpl. by repeat split.
Qed.

(** ** Registry invariants in general *)

Section dict_inv.
Context (Pd : TNetworkDict → Prop).

Lemma dict_inv_errCode (c : Z) : keeps (dict_inv Pd) (modify (set_errCode c)).
Proof. apply keeps_modify. intros s H. exact H. Qed.

Lemma dict_inv_lastNetIndex (g : State → Z) :
  keeps (dict_inv Pd) (modify (λ s, set_lastNetIndex (g s) s)).
Proof. apply keeps_modify. intros s H. exact H. Qed.

Lemma dict_inv_networkDict (g : TNetworkDict → Z → TNetworkDict) :
  (∀ d i, Pd d → Pd (g d i)) →
  keeps (dict_inv Pd)
        (modify (λ s, set_networkDict (g (networkDict s) (lastNetIndex s)) s)).
Proof.
  intros Hg. apply keeps_modify. intros s (Hd & Hu & Hr).
  split; [by apply Hg|]. by split.
Qed.

Lemma dict_inv_pushUndoStack : keeps (dict_inv Pd) _pushUndoStack.
Proof.
  intros s (Hd & Hu & Hr). rewrite _pushUndoStack_eq. unfold pushed.
  destruct (stackFlag s); [|by split].
  split; [done|]. split; simpl; [|done].
  apply Forall_app. split; [done|]. by apply Forall_singleton.
Qed.

Lemma dict_inv_update_net (neti : Z) f :
  (∀ d, Pd d → Pd (alter f neti d)) → keeps (dict_inv Pd) (update_net neti f).
Proof.
  intros Hf s (Hd & Hu & Hr). split; [by apply Hf|]. by split.
Qed.

Lemma dict_inv_pure {A} (m : M A) :
  (∀ s, networkDict (state_of (m s)) = networkDict s
        ∧ netSetStack (state_of (m s)) = netSetStack s
        ∧ redoStack (state_of (m s)) = redoStack s) →
  keeps (dict_inv Pd) m.
Proof.
  intros H s (Hd & Hu & Hr). destruct (H s) as (E1 & E2 & E3).
  unfold dict_inv. rewrite E1, E2, E3. by split.
Qed.

Lemma dict_inv_undo : keeps (dict_inv Pd) undo.
Proof.
  intros s (Hd & Hu & Hr).
  destruct (decide (netSetStack s = [])) as [E|E].
  - rewrite (undo_empty s E). by split.
  - destruct (exists_last E) as (rest & top & Hl).
    rewrite (undo_nonempty s top rest Hl). rewrite Hl in Hu.
    apply Forall_app in Hu as [Hrest Htop].
    apply (proj1 (Forall_singleton _ _)) in Htop.
    split; [exact Htop|]. split; [exact Hrest|]. simpl.
    apply Forall_app. split; [done|]. by apply Forall_singleton.
Qed.

Lemma dict_inv_redo : keeps (dict_inv Pd) redo.
Proof.
  intros s (Hd & Hu & Hr).
  destruct (decide (redoStack s = [])) as [E|E].
  - rewrite (redo_empty s E). by split.
  - destruct (exists_last E) as (rest & top & Hl).
    rewrite (redo_nonempty s top rest Hl). rewrite Hl in Hr.
    apply Forall_app in Hr as [Hrest Htop].
    apply (proj1 (Forall_singleton _ _)) in Htop.
    assert (Hnew : dict_inv Pd (mkState (stackFlag s) (errCode s) top
                                  (netSetStack s ++ [networkDict s]) rest
                                  (lastNetIndex s))).
    { split; [exact Htop|]. split; [|exact Hrest]. simpl.
      apply Forall_app. split; [done|]. by apply Forall_singleton. }
    by destruct (decide (errCode s < 0)).
Qed.

Lemma dict_inv_startGroup : keeps (dict_inv Pd) startGroup.
Proof.
  intros s (Hd & Hu & Hr). split; [done|]. split; simpl; [|done].
  apply Forall_app. split; [done|]. by apply Forall_singleton.
Qed.

Lemma dict_inv_endGroup : keeps (dict_inv Pd) endGroup.
Proof. intros s H. exact H. Qed.

Lemma dict_inv_reset : Pd ∅ → keeps (dict_inv Pd) reset.
Proof. intros H s _. split; [exact H|]. by split. Qed.

Lemma dict_inv_initial : Pd ∅ → dict_inv Pd initial_state.
Proof. intros H. split; [exact H|]. by split. Qed.

End dict_inv.

(** For a property of single networks. *)
Lemma each_net_alter (Pn : TNetwork → Prop) (neti : Z) f (d : TNetworkDict) :
  (∀ net, Pn net → Pn (f net)) → each_net Pn d → each_net Pn (alter f neti d).
Proof.
  intros Hf Hd i net Hi.
  apply lookup_alter_Some in Hi as [(-> & net' & Hi & ->)|[? Hi]].
  - apply Hf. by apply (Hd _ _ Hi).
  - by apply (Hd _ _ Hi).
Qed.

Lemma each_net_update_net (Pn : TNetwork → Prop) (neti : Z) f :
  (∀ net, Pn net → Pn (f net)) →
  keeps (dict_inv (each_net Pn)) (update_net neti f).
Proof. intros Hf. apply dict_inv_update_net. intros d. by apply each_net_alter. Qed.

Lemma each_net_insert (Pn : TNetwork → Prop) (i : Z) (net : TNetwork) d :
  Pn net → each_net Pn d → each_net Pn (<[i := net]> d).
Proof. intros. by apply map_Forall_insert_2. Qed.

(** The calls that read the indices change them only through the
    defaultdict, which no per-entity property sees. *)
Ltac each_net_leaf solve_net :=
  match goal with
  | |- keeps (dict_inv _) _pushUndoStack => apply dict_inv_pushUndoStack
  | |- keeps (dict_inv _) (modify (set_errCode _)) => apply dict_inv_errCode
  | |- keeps (dict_inv _) (modify (λ s, set_lastNetIndex _ s)) =>
      apply dict_inv_lastNetIndex
  | |- keeps (dict_inv _) (modify (set_lastNetIndex ?v)) =>
      apply (dict_inv_lastNetIndex _ (λ _, v))
  | |- keeps (dict_inv (each_net _)) (update_net _ _) =>
      apply each_net_update_net;
      let n := fresh "n" in let H := fresh "H" in intros n H; solve_net n H
  end.

Ltac each_net_tac solve_net :=
  repeat first
    [ keeps_step
    | each_net_leaf solve_net
    | progress unfold _raiseError, _getNetwork, _getNode, _getReaction,
        _getCompartment, update_node, update_reaction, update_compartment,
        baseNodes_remove, node_indices_remove, read_srcMap,
        read_destMap, srcMap_remove, destMap_remove, getCompartmentOfNode,
        node_setter, reaction_setter, species_setter ].

(** The unfolding of every call but [loadNetwork]. *)
Ltac unfold_calls :=
  unfold newNetwork, deleteNetwork, clearNetworks, clearNetwork,
    addNode, deleteNode, setNodeID, setNodeCoordinate,
    setNodeSize, setNodeFloatingStatus, setNodeFillColorRGB,
    setNodeFillColorAlpha, setNodeOutlineColorRGB, setNodeOutlineColorAlpha,
    setNodeOutlineThickness, createReaction, deleteReaction, clearReactions,
    setReactionID, setRateLaw, setReactionCenterPos, setReactionSrcNodeStoich,
    setReactionDestNodeStoich, setReactionSrcNodeHandlePosition,
    setReactionDestNodeHandlePosition, setReactionFillColorRGB,
    setReactionFillColorAlpha, setReactionLineThickness,
    setReactionBezierCurves, setReactionCenterHandlePosition, addCompartment,
    deleteCompartment, setCompartmentOfNode, setCompartmentPosition,
    setCompartmentSize, setCompartmentVolume, setCompartmentID,
    setCompartmentFillColor, setCompartmentOutlineColor,
    setCompartmentOutlineThickness.

(** ** What a loaded network looks like *)

Lemma lap_Loaded {A B} (f : loaded (A → B)) (x : loaded A) (y : B) :
  lap f x = Loaded y → ∃ g a, f = Loaded g ∧ x = Loaded a ∧ y = g a.
Proof.
  destruct f as [g| |], x as [a| |]; simpl; try discriminate.
  intros [= <-]. by exists g, a.
Qed.

Lemma ljoin_Loaded {A} (x : loaded (loaded A)) (y : A) :
  ljoin x = Loaded y → x = Loaded (Loaded y).
Proof. destruct x as [z| |]; simpl; try discriminate. by intros ->. Qed.

Lemma opt_field_Loaded {A B} (f : A → loaded B) (x : option A) (y : option B) :
  opt_field f x = Loaded y →
  match y with
  | None => x = None
  | Some b => ∃ a, x = Some a ∧ f a = Loaded b
  end.
Proof.
  destruct x as [a|]; simpl.
  - destruct (f a) as [b| |] eqn:E; simpl; try discriminate.
    intros [= <-]. by exists a.
  - by intros [= <-].
Qed.

Lemma Color_deserialize_Loaded (l : list Z) (c : TColor) :
  Color_deserialize l = Loaded c → color_in_range c.
Proof.
  unfold Color_deserialize.
  destruct (forallb _ l) eqn:E; [|discriminate].
  destruct l as [|r [|g [|b [|a [|? ?]]]]]; try discriminate;
    intros [= <-]; simpl in E;
    rewrite ?andb_true_iff, ?bool_decide_eq_true in E;
    unfold color_in_range; simpl; intuition lia.
Qed.

Lemma Dim_deserialize_Loaded (q q' : Q) :
  Dim_deserialize q = Loaded q' → Qleb 0 q' = true.
Proof.
  unfold Dim_deserialize. destruct (Qleb 0 q) eqn:E; [|discriminate].
  by intros [= <-].
Qed.

Lemma color_in_range_default (d : TColor) (x : option (list Z)) (y : option TColor) :
  color_in_range d → opt_field Color_deserialize x = Loaded y →
  color_in_range (default d y).
Proof.
  intros Hd H. apply opt_field_Loaded in H. destruct y as [c|]; [|done].
  destruct H as (l & _ & H). by apply Color_deserialize_Loaded in H.
Qed.

Lemma Dim_default (d : Q) (x y : option Q) :
  Qleb 0 d = true → opt_field Dim_deserialize x = Loaded y →
  Qleb 0 (default d y) = true.
Proof.
  intros Hd H. apply opt_field_Loaded in H. destruct y as [q|]; [|done].
  destruct H as (l & _ & H). by apply Dim_deserialize_Loaded in H.
Qed.

Lemma color_in_range_bytes (r g b a : Z) :
  0 ≤ r ≤ 255 → 0 ≤ g ≤ 255 → 0 ≤ b ≤ 255 → 0 ≤ a ≤ 255 →
  color_in_range (mkTColor r g b a).
Proof. intros. unfold color_in_range. simpl. tauto. Qed.

Lemma NodeSchema_load_Loaded (o : NodeObj) (n : TNode) :
  NodeSchema_load o = Loaded n → n_compi n = -1 ∧ node_loadable n.
Proof.
  unfold NodeSchema_load. intros H. apply ljoin_Loaded in H.
  apply lap_Loaded in H as (g8 & a8 & H & H8 & E8).
  apply lap_Loaded in H as (g7 & a7 & H & H7 & ->).
  apply lap_Loaded in H as (g6 & a6 & H & H6 & ->).
  apply lap_Loaded in H as (g5 & a5 & H & H5 & ->).
  apply lap_Loaded in H as (g4 & a4 & H & H4 & ->).
  apply lap_Loaded in H as (g3 & a3 & H & H3 & ->).
  apply lap_Loaded in H as (g2 & a2 & H & H2 & ->).
  apply lap_Loaded in H as (g1 & a1 & H & H1 & ->).
  injection H as <-. unfold TNode_kwargs in E8.
  destruct a5, a1, a2, a3, a4; try discriminate. injection E8 as E8. subst n.
  split; [done|]. split; [|split]; simpl.
  - apply (color_in_range_default _ _ _ (color_in_range_bytes 255 150 80 255
             ltac:(lia) ltac:(lia) ltac:(lia) ltac:(lia)) H6).
  - apply (color_in_range_default _ _ _ (color_in_range_bytes 255 100 80 255
             ltac:(lia) ltac:(lia) ltac:(lia) ltac:(lia)) H7).
  - exact (Dim_default 3%Q _ _ eq_refl H8).
Qed.

Lemma ReactionSchema_load_Loaded (o : ReactionObj) (x : TReaction) :
  ReactionSchema_load o = Loaded x → reaction_loadable x.
Proof.
  unfold ReactionSchema_load. intros H. apply ljoin_Loaded in H.
  apply lap_Loaded in H as (g7 & a7 & H & H7 & E7).
  apply lap_Loaded in H as (g6 & a6 & H & H6 & ->).
  apply lap_Loaded in H as (g5 & a5 & H & H5 & ->).
  apply lap_Loaded in H as (g4 & a4 & H & H4 & ->).
  apply lap_Loaded in H as (g3 & a3 & H & H3 & ->).
  apply lap_Loaded in H as (g2 & a2 & H & H2 & ->).
  apply lap_Loaded in H as (g1 & a1 & H & H1 & ->).
  injection H as <-. unfold TReaction_kwargs in E7.
  destruct a1; try discriminate. injection E7 as E7. subst x.
  split; simpl.
  - apply (color_in_range_default _ _ _ (color_in_range_bytes 255 150 80 255
             ltac:(lia) ltac:(lia) ltac:(lia) ltac:(lia)) H5).
  - exact (Dim_default 3%Q _ _ eq_refl H6).
Qed.

Lemma CompartmentSchema_load_Loaded (o : CompartmentObj) (c : TCompartment) :
  CompartmentSchema_load o = Loaded c → c_node_indices c = ∅.
Proof.
  unfold CompartmentSchema_load. intros H. apply ljoin_Loaded in H.
  apply lap_Loaded in H as (g8 & a8 & H & H8 & E8).
  apply lap_Loaded in H as (g7 & a7 & H & H7 & ->).
  apply lap_Loaded in H as (g6 & a6 & H & H6 & ->).
  apply lap_Loaded in H as (g5 & a5 & H & H5 & ->).
  apply lap_Loaded in H as (g4 & a4 & H & H4 & ->).
  apply lap_Loaded in H as (g3 & a3 & H & H3 & ->).
  apply lap_Loaded in H as (g2 & a2 & H & H2 & ->).
  apply lap_Loaded in H as (g1 & a1 & H & H1 & ->).
  injection H as <-. unfold TCompartment_kwargs in E8.
  destruct a4, a1, a2, a3; try discriminate. injection E8 as E8. by subst c.
Qed.

Lemma load_map_Loaded {A B} (f : A → loaded B) (m : gmap Z A) (r : gmap Z B) :
  load_map f m = Loaded r →
  ∀ k v, r !! k = Some v → ∃ x, m !! k = Some x ∧ f x = Loaded v.
Proof.
  unfold load_map.
  destruct (any_value is_Broken (f <$> m)); [discriminate|].
  destruct (any_value is_Invalid (f <$> m)); [discriminate|].
  intros [= <-] k v Hk. rewrite lookup_omap, lookup_fmap in Hk.
  destruct (m !! k) as [x|]; [|discriminate]. simpl in Hk.
  exists x. split; [done|]. destruct (f x); simpl in Hk; by simplify_eq.
Qed.

Lemma opt_load_map_Forall {A B} (f : A → loaded B) (P : B → Prop)
    (x : option (gmap Z A)) (y : option (gmap Z B)) :
  (∀ a b, f a = Loaded b → P b) →
  opt_field (load_map f) x = Loaded y →
  map_Forall (λ _ b, P b) (default ∅ y).
Proof.
  intros HP H. apply opt_field_Loaded in H. destruct y as [r|]; simpl.
  - destruct H as (m & _ & H). intros k v Hk.
    destruct (load_map_Loaded f m r H k v Hk) as (a & _ & Ha). by apply (HP a).
  - apply map_Forall_empty.
Qed.

(** Every network that [NetworkSchema] loads is built by
    [TNetwork.__init__] from nodes that are all outside compartments and
    pass the validators, reactions that pass them, and compartments with
    empty node sets. *)
Lemma NetworkSchema_load_Loaded (o : NetworkObj) (net : TNetwork) :
  NetworkSchema_load o = Loaded net →
  ∃ id ns rs cs,
    net = TNetwork_init id ns rs cs
    ∧ map_Forall (λ _ n, n_compi n = -1) ns
    ∧ map_Forall (λ _ n, node_loadable n) ns
    ∧ map_Forall (λ _ x, reaction_loadable x) rs
    ∧ map_Forall (λ _ c, c_node_indices c = ∅) cs.
Proof.
  unfold NetworkSchema_load. intros H. apply ljoin_Loaded in H.
  apply lap_Loaded in H as (g4 & a4 & H & H4 & E4).
  apply lap_Loaded in H as (g3 & a3 & H & H3 & ->).
  apply lap_Loaded in H as (g2 & a2 & H & H2 & ->).
  apply lap_Loaded in H as (g1 & a1 & H & H1 & ->).
  injection H as <-. unfold TNetwork_kwargs in E4.
  destruct a1 as [id|]; [|discriminate]. injection E4 as E4. subst net.
  exists id, (default ∅ a2), (default ∅ a3), (default ∅ a4).
  split; [done|]. split; [|split; [|split]].
  - apply (opt_load_map_Forall NodeSchema_load (λ n, n_compi n = -1) _ _
             (λ a b Hab, proj1 (NodeSchema_load_Loaded a b Hab)) H2).
  - apply (opt_load_map_Forall NodeSchema_load node_loadable _ _
             (λ a b Hab, proj2 (NodeSchema_load_Loaded a b Hab)) H2).
  - apply (opt_load_map_Forall ReactionSchema_load reaction_loadable _ _
             ReactionSchema_load_Loaded H3).
  - apply (opt_load_map_Forall CompartmentSchema_load (λ c, c_node_indices c = ∅)
             _ _ CompartmentSchema_load_Loaded H4).
Qed.

(** The registry-level calls, for any property of single networks that
    holds of a freshly constructed network. *)
Section each_net_registry.
Context (Pn : TNetwork → Prop).
Context (Pn_init : ∀ id ns rs cs,
            map_Forall (λ _ n, n_compi n = -1) ns →
            map_Forall (λ _ n, node_loadable n) ns →
            map_Forall (λ _ x, reaction_loadable x) rs →
            map_Forall (λ _ c, c_node_indices c = ∅) cs →
            Pn (TNetwork_init id ns rs cs)).

Lemma Pn_new (id : string) : Pn (TNetwork_new id).
Proof. apply Pn_init; apply map_Forall_empty. Qed.

Lemma each_net_newNetwork (netID : string) :
  keeps (dict_inv (each_net Pn)) (newNetwork netID).
Proof.
  unfold newNetwork.
  each_net_tac ltac:(fun n H => fail).
  apply (dict_inv_networkDict _ (λ d i, <[i := TNetwork_new netID]> d)).
  intros d i Hd. apply each_net_insert; [apply Pn_new|done].
Qed.

Lemma each_net_deleteNetwork (neti : Z) :
  keeps (dict_inv (each_net Pn)) (deleteNetwork neti).
Proof.
  unfold deleteNetwork.
  each_net_tac ltac:(fun n H => fail).
  apply (dict_inv_networkDict _ (λ d _, delete neti d)).
  intros d _ Hd. by apply map_Forall_delete.
Qed.

Lemma each_net_clearNetworks : keeps (dict_inv (each_net Pn)) clearNetworks.
Proof.
  unfold clearNetworks.
  each_net_tac ltac:(fun n H => fail).
  apply (dict_inv_networkDict _ (λ _ _, ∅)).
  intros d _ _. apply map_Forall_empty.
Qed.

Lemma each_net_clearNetwork (neti : Z) :
  keeps (dict_inv (each_net Pn)) (clearNetwork neti).
Proof.
  unfold clearNetwork.
  each_net_tac ltac:(fun n H => fail).
  apply (dict_inv_networkDict _
           (λ d _, alter (λ net, TNetwork_new (net_id net)) neti d)).
  intros d _ Hd. apply each_net_alter; [|done]. intros net _. apply Pn_new.
Qed.

Lemma each_net_loadNetwork (o : NetworkObj) :
  keeps (dict_inv (each_net Pn)) (loadNetwork o).
Proof.
  unfold loadNetwork.
  destruct (NetworkSchema_load o) as [net| |] eqn:E;
    [|apply keeps_raise|apply keeps_raise].
  apply NetworkSchema_load_Loaded in E
    as (id & ns & rs & cs & -> & H1 & H2 & H3 & H4).
  pose proof (Pn_init id ns rs cs H1 H2 H3 H4) as Hnet.
  unfold clearNetworks, _addNetwork.
  each_net_tac ltac:(fun n H => fail).
  - apply (dict_inv_networkDict _ (λ _ _, ∅)).
    intros d _ _. apply map_Forall_empty.
  - apply (dict_inv_networkDict _ (λ d i, <[i := TNetwork_init id ns rs cs]> d)).
    intros d i Hd. by apply each_net_insert.
Qed.

(** All calls, given the calls that act on an existing network. *)
Lemma each_net_registry_call (c : Call) :
  (∀ c', match c' with
         | C_newNetwork _ | C_deleteNetwork _ | C_clearNetworks
         | C_clearNetwork _ | C_loadNetwork _ => True
         | _ => keeps (dict_inv (each_net Pn)) (call c')
         end) →
  keeps (dict_inv (each_net Pn)) (call c).
Proof.
  intros H. specialize (H c). destruct c; simpl; try exact H.
  - apply each_net_newNetwork.
  - apply each_net_deleteNetwork.
  - apply each_net_clearNetworks.
  - apply each_net_clearNetwork.
  - apply keeps_void, each_net_loadNetwork.
Qed.

(** All operations, given all calls. *)
Lemma each_net_op (o : Op) :
  (∀ c, keeps (dict_inv (each_net Pn)) (call c)) →
  (∀ neti k, keeps (dict_inv (each_net Pn)) (read_srcMap neti k)) →
  (∀ neti k, keeps (dict_inv (each_net Pn)) (read_destMap neti k)) →
  keeps (dict_inv (each_net Pn)) (op o).
Proof.
  intros Hc Hs Hd. destruct o; simpl.
  - apply Hc.
  - apply dict_inv_undo.
  - apply dict_inv_redo.
  - apply dict_inv_startGroup.
  - apply dict_inv_endGroup.
  - apply dict_inv_reset, map_Forall_empty.
  - apply keeps_void. unfold getSrcReactions.
    apply keeps_bind; [|intros ?; apply Hs].
    unfold _getNetwork. each_net_tac ltac:(fun n H => fail).
  - apply keeps_void. unfold getDestReactions.
    apply keeps_bind; [|intros ?; apply Hd].
    unfold _getNetwork. each_net_tac ltac:(fun n H => fail).
Qed.

End each_net_registry.

(** ** Indices are handed out once *)

Lemma counters_fresh_init (id : string) ns rs cs :
  counters_fresh (TNetwork_init id ns rs cs).
Proof. split; [|split]; simpl; apply next_index_above. Qed.

(** How an index can be in use after an update of a map. *)
Ltac in_use_cases Hi :=
  repeat match type of Hi with
  | is_Some (alter _ _ _ !! _) => apply lookup_alter_is_Some in Hi
  | is_Some (delete _ _ !! _) =>
      apply lookup_delete_is_Some in Hi; destruct Hi as [_ Hi]
  | is_Some (∅ !! _) => rewrite lookup_empty in Hi; by destruct Hi
  | is_Some (<[?k := _]> _ !! ?i) =>
      apply lookup_insert_is_Some' in Hi; destruct Hi as [Hi|Hi]
  end.

Ltac counters_fresh_solve n H :=
  let H1 := fresh "H1" in let H2 := fresh "H2" in let H3 := fresh "H3" in
  let i := fresh "i" in let Hi := fresh "Hi" in
  destruct H as (H1 & H2 & H3);
  unfold net_addNode, net_addReaction, net_addCompartment;
  split; [|split]; simpl; intros i Hi; in_use_cases Hi;
  first [ by auto
        | subst; lia
        | specialize (H1 _ Hi); lia
        | specialize (H2 _ Hi); lia
        | specialize (H3 _ Hi); lia ].

Lemma counters_fresh_call (c : Call) :
  keeps (dict_inv (each_net counters_fresh)) (call c).
Proof.
  apply each_net_registry_call;
    [intros; apply counters_fresh_init|].
  intros c'. destruct c'; try exact I; simpl; unfold_calls;
    each_net_tac counters_fresh_solve.
Qed.

(** In every state the program reaches, in every network, every node
    index, reaction index and compartment index in use is below the
    network's next-index counter of its kind; so [addNode],
    [createReaction] and [addCompartment], which store at the counter,
    never replace an existing entity, and an index freed by a deletion is
    not handed out again by that network. *)
Theorem indices_below_counters (os : list Op) (neti : Z) (net : TNetwork) :
  networkDict (run_ops os initial_state) !! neti = Some net →
  (∀ i, is_Some (nodes net !! i) → i < lastNodeIdx net)
  ∧ (∀ i, is_Some (reactions net !! i) → i < lastReactionIdx net)
  ∧ (∀ i, is_Some (compartments net !! i) → i < lastCompartmentIdx net).
Proof.
  intros Hnet.
  assert (H : dict_inv (each_net counters_fresh) (run_ops os initial_state)).
  { apply keeps_run_ops; [|apply dict_inv_initial, map_Forall_empty].
    intros o. apply each_net_op.
    - apply counters_fresh_call.
    - intros. unfold read_srcMap. each_net_tac counters_fresh_solve.
    - intros. unfold read_destMap. each_net_tac counters_fresh_solve. }
  exact (proj1 H _ _ Hnet).
Qed.

Lemma indices_below_counters_witness :
  ∃ net, networkDict (run_ops delete_ops initial_state) !! 0 = Some net
         ∧ dom (nodes net) = {[0]}
         ∧ lastNodeIdx net = 2
         ∧ lastReactionIdx net = 1
         ∧ (∀ i, is_Some (nodes net !! i) → i < lastNodeIdx net)
         ∧ (∀ i, is_Some (reactions net !! i) → i < lastReactionIdx net)
         ∧ (∀ i, is_Some (compartments net !! i) → i < lastCompartmentIdx net).
Proof.
  destruct (networkDict (run_ops delete_ops initial_state) !! 0)
    as [net|] eqn:E; [|vm_compute in E; discriminate].
  exists net. split; [reflexivity|].
  split; [vm_compute in E; injection E as <-; vm_compute; reflexivity|].
  split; [vm_compute in E; by injection E as <-|].
  split; [vm_compute in E; by injection E as <-|].
  exact (indices_below_counters delete_ops 0 net E).
Defined.

(** ** Nodes and reactions stay within what the schema accepts *)

Lemma rgb_in_range (r g b : Z) :
  rgb_out_of_range r g b = false → 0 ≤ r ≤ 255 ∧ 0 ≤ g ≤ 255 ∧ 0 ≤ b ≤ 255.
Proof.
  unfold rgb_out_of_range. rewrite !orb_false_iff, !bool_decide_eq_false. lia.
Qed.

Lemma Qleb_false (x y : Q) : Qleb x y = false → Qleb y x = true.
Proof.
  unfold Qleb. intros H. apply Qle_bool_iff.
  destruct (Qlt_le_dec y x) as [Hlt|Hle].
  - by apply Qlt_le_weak.
  - apply Qle_bool_iff in Hle. congruence.
Qed.

(** [int(a * 255)] for [0 <= a <= 1] is a byte. *)
Lemma alpha_byte (a : Q) :
  alpha_out_of_range a = false → 0 ≤ int_of_Q (a * 255)%Q ≤ 255.
Proof.
  unfold alpha_out_of_range, Qltb. rewrite orb_false_iff, !negb_false_iff.
  intros [H0 H1]. apply Qle_bool_iff in H0, H1.
  destruct a as [n d]. unfold Qle in H0, H1. simpl in H0, H1.
  unfold int_of_Q. simpl.
  rewrite Z.quot_div_nonneg by lia.
  split.
  - apply Z.div_pos; lia.
  - apply Z.div_le_upper_bound; lia.
Qed.

Lemma map_Forall_alter_2 {A} (P : A → Prop) (f : A → A) (k : Z) (m : gmap Z A) :
  (∀ x, P x → P (f x)) →
  map_Forall (λ _ x, P x) m → map_Forall (λ _ x, P x) (alter f k m).
Proof.
  intros Hf Hm i x Hi.
  apply lookup_alter_Some in Hi as [(-> & y & Hi & ->)|[? Hi]].
  - apply Hf, (Hm _ _ Hi).
  - apply (Hm _ _ Hi).
Qed.

Lemma entities_loadable_init (id : string) ns rs cs :
  map_Forall (λ _ n, node_loadable n) ns →
  map_Forall (λ _ x, reaction_loadable x) rs →
  entities_loadable (TNetwork_init id ns rs cs).
Proof. intros Hn Hr. by split. Qed.

(** What the value tests of the setters leave in the context. *)
Ltac value_facts :=
  repeat match goal with
  | H : rgb_out_of_range _ _ _ = false |- _ => apply rgb_in_range in H
  | H : alpha_out_of_range _ = false |- _ => apply alpha_byte in H
  | H : Qleb _ 0 = false |- _ => apply Qleb_false in H
  end.

Ltac entity_solve :=
  unfold node_loadable, reaction_loadable, color_in_range, swapped in *; simpl;
  first [ assumption | intuition (first [assumption | lia | reflexivity]) ].

Ltac entities_side Hn Hr :=
  first
    [ exact Hn | exact Hr
    | apply map_Forall_empty
    | apply map_Forall_delete; first [exact Hn | exact Hr]
    | apply map_Forall_insert_2; [entity_solve | first [exact Hn | exact Hr]]
    | apply map_Forall_alter_2; [intros ? ?; entity_solve | first [exact Hn | exact Hr]] ].

Ltac entities_loadable_solve n H :=
  let Hn := fresh "Hn" in let Hr := fresh "Hr" in
  destruct H as (Hn & Hr); value_facts;
  unfold net_addNode, net_addReaction, net_addCompartment;
  split; simpl; entities_side Hn Hr.

(** [each_net_tac] keeping the outcome of every test. *)
Ltac each_net_cases solve_net :=
  repeat first
    [ match goal with
      | |- keeps _ (if ?b then _ else _) => destruct b eqn:?
      end
    | keeps_step
    | each_net_leaf solve_net
    | progress unfold _raiseError, _getNetwork, _getNode, _getReaction,
        _getCompartment, update_node, update_reaction, update_compartment,
        baseNodes_remove, node_indices_remove, read_srcMap,
        read_destMap, srcMap_remove, destMap_remove, getCompartmentOfNode,
        node_setter, reaction_setter, species_setter ].

Lemma entities_loadable_call (c : Call) :
  keeps (dict_inv (each_net entities_loadable)) (call c).
Proof.
  apply each_net_registry_call;
    [intros; by apply entities_loadable_init|].
  intros c'. destruct c'; try exact I; simpl; unfold_calls;
    each_net_cases entities_loadable_solve.
Qed.
(** In every state the program reaches, every node and every reaction of
    every network has what the schema validates on load: fill and outline
    colours with all channels in [0, 255] and a thickness that is not
    negative.  The setters test their values ([int(a * 255)] of an alpha
    in [0, 1] is a byte), new entities get the defaults, and a loaded
    network was validated. *)
Theorem nodes_and_reactions_stay_loadable (os : list Op) (neti : Z) (net : TNetwork) :
  networkDict (run_ops os initial_state) !! neti = Some net →
  map_Forall (λ _ n, node_loadable n) (nodes net)
  ∧ map_Forall (λ _ x, reaction_loadable x) (reactions net).
Proof.
  intros Hnet.
  assert (H : dict_inv (each_net entities_loadable) (run_ops os initial_state)).
  { apply keeps_run_ops; [|apply dict_inv_initial, map_Forall_empty].
    intros o. apply each_net_op.
    - apply entities_loadable_call.
    - intros. unfold read_srcMap. each_net_cases entities_loadable_solve.
    - intros. unfold read_destMap. each_net_cases entities_loadable_solve. }
  exact (proj1 H _ _ Hnet).
Qed.

Lemma nodes_and_reactions_stay_loadable_witness :
  let s := run_ops colour_ops initial_state in
  ∃ net, networkDict s !! 0 = Some net
         ∧ (tc_a ∘ n_fillColor <$> nodes net) !! 0 = Some 127
         ∧ map_Forall (λ _ n, node_loadable n) (nodes net)
         ∧ map_Forall (λ _ x, reaction_loadable x) (reactions net).
Proof.
  intros s.
  destruct (networkDict s !! 0) as [net|] eqn:E; [|vm_compute in E; discriminate].
  exists net. split; [reflexivity|].
  split; [vm_compute in E; by injection E as <-|].
  exact (nodes_and_reactions_stay_loadable colour_ops 0 net E).
Defined.

(** ** Saving and loading *)

Lemma NetworkSchema_load_dump (net : TNetwork) :
  network_loadable net →
  NetworkSchema_load (NetworkSchema_dump net) = Loaded (network_reloaded net).
Proof.
  intros (Hn & Hr & Hc). unfold NetworkSchema_load, NetworkSchema_dump.
  cbn -[load_map NodeSchema_load NodeSchema_dump ReactionSchema_load ReactionSchema_dump CompartmentSchema_load CompartmentSchema_dump TNetwork_init].
  rewrite (load_map_fmap NodeSchema_load NodeSchema_dump (set_n_compi (-1)))
    by (intros k x Hk; apply NodeSchema_load_dump, (Hn _ _ Hk)).
  rewrite (load_map_fmap ReactionSchema_load ReactionSchema_dump reaction_reloaded)
    by (intros k x Hk; apply ReactionSchema_load_dump, (Hr _ _ Hk)).
  rewrite (load_map_fmap CompartmentSchema_load CompartmentSchema_dump
             (set_c_node_indices ∅))
    by (intros k x Hk; apply CompartmentSchema_load_dump, (Hc _ _ Hk)).
  reflexivity.
Qed.

(** The dump of a compartment never breaks the constructor: it loads or
    is refused by a validator. *)
Lemma CompartmentSchema_load_dump_cases (c : TCompartment) :
  (compartment_loadable c
   ∧ CompartmentSchema_load (CompartmentSchema_dump c)
     = Loaded (set_c_node_indices ∅ c))
  ∨ (¬ compartment_loadable c
     ∧ CompartmentSchema_load (CompartmentSchema_dump c) = Invalid).
Proof.
  destruct c as [id pos size ns vol fc oc th].
  unfold CompartmentSchema_load, CompartmentSchema_dump, compartment_loadable.
  cbn -[Dim2_deserialize Dim2_serialize Color_deserialize Color_serialize Dim_deserialize].
  rewrite !Dim2_roundtrip, !Color_deserialize_serialize.
  rewrite !color_in_range_forallb. unfold Dim_deserialize.
  destruct (forallb _ [tc_r fc; _; _; _]), (forallb _ [tc_r oc; _; _; _]),
    (Qleb 0 vol), (Qleb 0 th); simpl;
    first [ left; by repeat split
          | right; split; [intros (? & ? & ? & ?); discriminate|reflexivity] ].
Qed.

Lemma load_map_Invalid {A B C} (f : B → loaded C) (g : A → B) (m : gmap Z A) :
  (∀ k x, m !! k = Some x → f (g x) ≠ Broken) →
  (∃ k x, m !! k = Some x ∧ f (g x) = Invalid) →
  load_map f (g <$> m) = Invalid.
Proof.
  intros Hnb (k & x & Hk & Hx). unfold load_map.
  rewrite any_value_false.
  - assert (Hi : any_value is_Invalid (f <$> (g <$> m)) = true).
    { apply any_value_spec. exists k, Invalid.
      rewrite !lookup_fmap, Hk. simpl. by rewrite Hx. }
    by rewrite Hi.
  - intros k' v Hv. rewrite !lookup_fmap in Hv.
    destruct (m !! k') as [y|] eqn:E; [|discriminate].
    simpl in Hv. injection Hv as <-.
    specialize (Hnb _ _ E). by destruct (f (g y)).
Qed.

(** Saving and loading.  In every state the program reaches,
    [dumpNetwork] of an existing network returns its dump and changes
    nothing.  [loadNetwork] of that dump succeeds when every compartment
    of the network has byte colours and a volume and an outline thickness
    that are not negative: the registry is then the reloaded network alone,
    at index 0.  If some compartment has not, [loadNetwork] raises
    [ValidationError] and changes nothing.  (Nodes and reactions never
    stand in the way: their setters test what the schema validates; the
    setters of compartments do not.) *)
Theorem save_then_load (os : list Op) (neti : Z) (net : TNetwork) :
  let s := run_ops os initial_state in
  networkDict s !! neti = Some net →
  dumpNetwork neti s = Ok (NetworkSchema_dump net) s
  ∧ (map_Forall (λ _ c, compartment_loadable c) (compartments net) →
     ∃ s', loadNetwork (NetworkSchema_dump net) s = Ok 0 s'
           ∧ networkDict s' = {[0 := network_reloaded net]}
           ∧ lastNetIndex s' = 1)
  ∧ (∀ k c, compartments net !! k = Some c → ¬ compartment_loadable c →
     loadNetwork (NetworkSchema_dump net) s = Raise ValidationError s).
Proof.
  intros s Hnet.
  assert (H : dict_inv (each_net entities_loadable) s).
  { apply keeps_run_ops; [|apply dict_inv_initial, map_Forall_empty].
    intros o. apply each_net_op.
    - apply entities_loadable_call.
    - intros. unfold read_srcMap. each_net_cases entities_loadable_solve.
    - intros. unfold read_destMap. each_net_cases entities_loadable_solve. }
  destruct (proj1 H _ _ Hnet) as [Hn Hr].
  split; [|split].
  - unfold dumpNetwork. monad_unfold.
    by rewrite (_getNetwork_at s neti net Hnet).
  - intros Hc. unfold loadNetwork.
    rewrite (NetworkSchema_load_dump net (conj Hn (conj Hr Hc))).
    unfold clearNetworks, _addNetwork, _pushUndoStack. monad_unfold. simpl.
    destruct (stackFlag s) eqn:E; simpl;
      (rewrite any_value_false by (intros ? ? Hk; by rewrite lookup_empty in Hk));
      simpl; rewrite ?E; simpl; eexists; (split; [reflexivity|]); by simpl.
  - intros k c Hk Hc. unfold loadNetwork.
    assert (E : NetworkSchema_load (NetworkSchema_dump net) = Invalid).
    { unfold NetworkSchema_load, NetworkSchema_dump.
      cbn -[load_map NodeSchema_load NodeSchema_dump ReactionSchema_load ReactionSchema_dump CompartmentSchema_load CompartmentSchema_dump TNetwork_init].
      rewrite (load_map_fmap NodeSchema_load NodeSchema_dump (set_n_compi (-1)))
        by (intros ? x Hx; apply NodeSchema_load_dump, (Hn _ _ Hx)).
      rewrite (load_map_fmap ReactionSchema_load ReactionSchema_dump reaction_reloaded)
        by (intros ? x Hx; apply ReactionSchema_load_dump, (Hr _ _ Hx)).
      rewrite (load_map_Invalid CompartmentSchema_load CompartmentSchema_dump).
      - reflexivity.
      - intros k' x _.
        by destruct (CompartmentSchema_load_dump_cases x) as [[_ ->]|[_ ->]].
      - exists k, c. split; [done|].
        by destruct (CompartmentSchema_load_dump_cases c) as [[? _]|[_ ->]]. }
    by rewrite E.
Qed.

Lemma save_then_load_witness :
  let s := run_ops negative_volume_ops initial_state in
  ∃ net, networkDict s !! 0 = Some net
         ∧ dumpNetwork 0 s = Ok (NetworkSchema_dump net) s
         ∧ loadNetwork (NetworkSchema_dump net) s = Raise ValidationError s.
Proof.
  intros s.
  destruct (networkDict s !! 0) as [net|] eqn:E; [|vm_compute in E; discriminate].
  exists net. split; [reflexivity|].
  destruct (save_then_load negative_volume_ops 0 net E) as (Hd & _ & Hl).
  split; [exact Hd|].
  destruct (compartments net !! 0) as [c|] eqn:Ec.
  - apply (Hl 0 c Ec). intros (_ & _ & Hv & _).
    vm_compute in E. injection E as <-. vm_compute in Ec. injection Ec as <-.
    vm_compute in Hv. discriminate.
  - vm_compute in E. injection E as <-. vm_compute in Ec. discriminate.
Defined.

(** ** One call, one undo step *)

Lemma hoare_keeps {A} (P : State → Prop) (m : M A) : keeps P m → hoare P m P.
Proof. intros H s Hs. specialize (H s Hs). by destruct (m s). Qed.

Lemma hoare_mbind {A B} (P R Q : State → Prop) (m : M A) (f : A → M B) :
  hoare P m R → (∀ a, hoare R (f a) Q) → hoare P (m ≫= f) Q.
Proof.
  intros Hm Hf s Hs. specialize (Hm s Hs). unfold mbind, M_bind.
  destruct (m s) as [a s'|e s']; [|done]. by apply Hf.
Qed.

Lemma hoare_bind {A B} (P R Q : State → Prop) (m : M A) (f : A → M B) :
  hoare P m R → (∀ a, hoare R (f a) Q) → hoare P (bind m f) Q.
Proof. apply hoare_mbind. Qed.

Lemma hoare_void {A} (P Q : State → Prop) (m : M A) :
  hoare P m Q → hoare P (void m) Q.
Proof.
  intros H. unfold void. apply (hoare_bind P Q Q); [done|].
  intros _ s Hs. exact Hs.
Qed.

Lemma hoare_raise {A} (P Q : State → Prop) (e : Exn) : hoare P (raise (A:=A) e) Q.
Proof. by intros s _. Qed.

Lemma hoare_raise_errCode {A} (P Q : State → Prop) :
  hoare P (raise_errCode (A:=A)) Q.
Proof. intros s _. unfold raise_errCode. by destruct (ExceptionDict (errCode s)). Qed.

Lemma hoare_raise_asserted {A} (P Q : State → Prop) :
  hoare P (raise_asserted (A:=A)) Q.
Proof.
  intros s _. unfold raise_asserted. monad_unfold.
  destruct (decide (errCode s < 0)); [|done].
  by destruct (ExceptionDict (errCode s)).
Qed.

Lemma hoare_raiseError {A} (P Q : State → Prop) (eCode : Z) :
  hoare P (_raiseError (A:=A) eCode) Q.
Proof.
  intros s _. unfold _raiseError. destruct (decide (eCode < 0)); [|done].
  monad_unfold. simpl. by destruct (ExceptionDict eCode).
Qed.

Lemma hoare_pushUndoStack (d : TNetworkDict) (stk : TStack) :
  hoare (before d stk) _pushUndoStack (after d stk).
Proof.
  intros s (Hf & Hd & Hs). unfold _pushUndoStack. monad_unfold. simpl.
  rewrite Hf. simpl. unfold TStack_push. by rewrite Hd, Hs.
Qed.

(** Steps that leave the registry and the stacks alone. *)
Ltac stack_leaf :=
  match goal with
  | |- keeps _ (modify _) =>
      apply keeps_modify; intros ? (? & ? & ?); repeat split; simpl; assumption
  end.

Ltac before_tac :=
  repeat first
    [ keeps_step
    | stack_leaf
    | progress unfold _getNetwork, _getNode, _getReaction, _getCompartment,
        getCompartmentOfNode, _raiseError ].

(** Steps after the snapshot: anything but another snapshot. *)
Ltac after_tac :=
  repeat first
    [ keeps_step
    | stack_leaf
    | progress unfold _raiseError, _getNetwork, _getNode, _getReaction,
        _getCompartment, update_node, update_reaction, update_compartment,
        update_net, baseNodes_remove, node_indices_remove, read_srcMap,
        read_destMap, srcMap_remove, destMap_remove, getCompartmentOfNode ].

Ltac hoare_tac :=
  cbv beta;
  lazymatch goal with
  | |- hoare _ (raise _) _ => apply hoare_raise
  | |- hoare _ raise_errCode _ => apply hoare_raise_errCode
  | |- hoare _ raise_asserted _ => apply hoare_raise_asserted
  | |- hoare _ (_raiseError _) _ => apply hoare_raiseError
  | |- hoare (before _ _) _pushUndoStack (after _ _) => apply hoare_pushUndoStack
  | |- hoare (after ?d ?k) _ (after ?d ?k) =>
      apply hoare_keeps; solve [after_tac]
  | |- hoare _ (void _) _ => apply hoare_void; hoare_tac
  | |- hoare ?P (mbind _ _) ?Q =>
      first [ apply (hoare_mbind P P Q);
              [apply hoare_keeps; solve [before_tac] | intros ?; hoare_tac]
            | apply (hoare_mbind P Q Q); [hoare_tac | intros ?; hoare_tac] ]
  | |- hoare ?P (bind _ _) ?Q =>
      first [ apply (hoare_bind P P Q);
              [apply hoare_keeps; solve [before_tac] | intros ?; hoare_tac]
            | apply (hoare_bind P Q Q); [hoare_tac | intros ?; hoare_tac] ]
  | |- hoare _ (if ?b then _ else _) _ => destruct b; hoare_tac
  | |- hoare _ (match ?x with _ => _ end) _ => destruct x; hoare_tac
  | |- hoare _ (node_setter _ _ _ _) _ => unfold node_setter; hoare_tac
  | |- hoare _ (reaction_setter _ _ _ _) _ => unfold reaction_setter; hoare_tac
  | |- hoare _ (species_setter _ _ _ _ _ _ _) _ => unfold species_setter; hoare_tac
  end.

(** [addNode] reports its errors from a [finally]: when its body has
    returned without a snapshot, the error code is negative. *)
Lemma hoare_addNode (d : TNetworkDict) (stk : TStack) neti nodeID x y w h fl :
  hoare (before d stk) (addNode neti nodeID x y w h fl) (after d stk).
Proof.
  intros s (Hf & Hd & Hs).
  unfold addNode, try_finally, _getNetwork, update_net, _pushUndoStack,
    raise_if_errCode.
  monad_unfold. simpl.
  destruct (networkDict s !! neti) as [net|]; simpl.
  - destruct (any_value _ (nodes net)); simpl.
    + unfold raise_errCode. simpl. done.
    + destruct (Qltb x 0 || Qltb y 0 || Qleb w 0 || Qleb h 0); simpl.
      * unfold raise_errCode. simpl. done.
      * rewrite Hf. simpl. unfold TStack_push. by rewrite Hd, Hs.
  - done.
Qed.

Lemma hoare_call (d : TNetworkDict) (stk : TStack) (c : Call) :
  one_snapshot c = true →
  (∀ neti nodei, c ≠ C_deleteNode neti nodei) →
  hoare (before d stk) (call c) (after d stk).
Proof.
  intros Hc Hn. destruct c; try discriminate Hc; simpl.
  all: try apply hoare_addNode.
  all: try (exfalso; by eapply Hn).
  all: unfold_calls; hoare_tac.
Qed.
Lemma after_deleteNode (s s1 : State) (neti nodei : Z) :
  stackFlag s = true →
  deleteNode neti nodei s = Ok tt s1 →
  after (alter (after_both_reads nodei) neti (networkDict s)) (netSetStack s) s1.
Proof.
  intros Hf H.
  destruct (networkDict s !! neti) as [net|] eqn:En.
  - destruct (nodes net !! nodei) as [node|] eqn:Ei.
    + rewrite (deleteNode_at s neti nodei net node En Ei) in H.
      rewrite (alter_alt_Some _ _ _ _ En).
      unfold deleteNode_outcome in H.
      repeat (let E := fresh in destruct (decide _) as [E|E] in H; try discriminate H);
      try (destruct (compartments net !! n_compi node) as [comp|];
           [destruct (decide _) in H|]; try discriminate H);
      injection H as <-; unfold pushed, put_net; simpl; rewrite Hf; simpl;
      by repeat split.
    + exfalso. unfold deleteNode in H. monad_unfold. rewrite En in H.
      destruct (decide (nodei ∉ dom (nodes net))) as [Hd|Hd].
      * simpl in H. by destruct (ExceptionDict (-7)).
      * apply Hd. by apply not_elem_of_dom.
  - exfalso. unfold deleteNode in H. monad_unfold. rewrite En in H.
    simpl in H. by destruct (ExceptionDict (-5)).
Qed.

(** Outside a group, a call that returns takes exactly one snapshot, of
    the registry it was called with (for [deleteNode], of that registry
    after the call's two reads of the index maps), and clears the redo
    stack; one [undo()] then returns and puts that registry back, with the
    undo stack as before the call.  This holds of every mutating call but
    [loadNetwork], which takes two snapshots, and [setReactionCenterPos],
    which takes none. *)
Theorem call_is_one_undo_step (c : Call) (s s1 : State) :
  one_snapshot c = true →
  stackFlag s = true →
  call c s = Ok tt s1 →
  netSetStack s1 = netSetStack s ++ [snapshot_before c s]
  ∧ redoStack s1 = []
  ∧ ∃ s2, undo s1 = Ok tt s2
          ∧ networkDict s2 = snapshot_before c s
          ∧ netSetStack s2 = netSetStack s
          ∧ redoStack s2 = [networkDict s1].
Proof.
  intros Hc Hf H.
  assert (Ha : after (snapshot_before c s) (netSetStack s) s1).
  { assert (Hcases : (∃ neti nodei, c = C_deleteNode neti nodei)
                     ∨ (∀ neti nodei, c ≠ C_deleteNode neti nodei)).
    { destruct c; first [right; intros ? ?; discriminate | left; by eexists _, _]. }
    destruct Hcases as [(neti & nodei & ->)|Hn].
    - by apply after_deleteNode.
    - assert (Hs : snapshot_before c s = networkDict s).
      { destruct c; try reflexivity. exfalso. by apply (Hn neti nodei). }
      rewrite Hs.
      pose proof (hoare_call (networkDict s) (netSetStack s) c Hc Hn s
                    (conj Hf (conj eq_refl eq_refl))) as Hh.
      by rewrite H in Hh. }
  destruct Ha as (Hf1 & Hs1 & Hr1).
  split; [done|]. split; [done|].
  exists (mkState (stackFlag s1) 0 (snapshot_before c s) (netSetStack s)
                  (redoStack s1 ++ [networkDict s1]) (lastNetIndex s1)).
  split; [exact (undo_nonempty s1 _ _ Hs1)|].
  simpl. by rewrite Hr1.
Qed.

Lemma call_is_one_undo_step_witness :
  let s := run_ops [O_call (C_newNetwork "n")] initial_state in
  let c := C_addNode 0 "A" 0 0 10 10 false in
  ∃ s1, call c s = Ok tt s1
        ∧ netSetStack s1 = netSetStack s ++ [networkDict s]
        ∧ redoStack s1 = []
        ∧ ∃ s2, undo s1 = Ok tt s2
                ∧ networkDict s2 = networkDict s
                ∧ netSetStack s2 = netSetStack s
                ∧ redoStack s2 = [networkDict s1].
Proof.
  intros s c.
  destruct (call c s) as [[] s1|e s1] eqn:E; [|vm_compute in E; discriminate].
  exists s1. split; [reflexivity|].
  exact (call_is_one_undo_step c s s1 eq_refl eq_refl E).
Defined.

(** ** A refused call changes nothing *)

(** Evaluation of a call by cases on every test it makes. *)
Ltac sym_exec :=
  repeat first
    [ progress cbn [state_of raised set_errCode set_networkDict set_netSetStack
                    set_redoStack set_lastNetIndex stackFlag errCode networkDict
                    netSetStack redoStack lastNetIndex]
    | match goal with
      | |- context [match ?x with _ => _ end] =>
          lazymatch x with
          | context [match _ with _ => _ end] => fail
          | _ => destruct x eqn:?
          end
      | |- context [if ?x then _ else _] =>
          lazymatch x with
          | context [if _ then _ else _] => fail
          | context [match _ with _ => _ end] => fail
          | _ => destruct x eqn:?
          end
      end ].

(** A key that passed the membership test is found. *)
Ltac found_key :=
  exfalso;
  match goal with
  | n : ¬ (_ ∉ dom _), H : _ !! _ = None |- _ =>
      apply n; by apply not_elem_of_dom
  end.

(** A call that makes its tests before it takes its snapshot and raises
    leaves every global but [errCode] as it was: the registry, both
    stacks, the group flag and the network counter.  This holds of the
    registry calls, [addNode], the setters of nodes and of reactions other
    than the three alpha setters, [createReaction], [clearReactions],
    [addCompartment] and [loadNetwork]. *)
Theorem refused_call_changes_nothing (c : Call) (s : State) :
  validates_first c = true →
  raised (call c s) ≠ None →
  unchanged s (state_of (call c s)).
Proof.
  intros Hc. destruct c; try discriminate Hc; clear Hc; simpl;
    unfold_calls;
    unfold loadNetwork, clearNetworks, _addNetwork, node_setter, reaction_setter,
      species_setter, try_finally, raise_if_errCode,
      _getNode, _getReaction, _getCompartment, _getNetwork, _raiseError, update_node, update_reaction,
      update_compartment, update_net, _pushUndoStack, raise_errCode, unchanged;
    monad_unfold; sym_exec; intros; first [done | lia | found_key].
Qed.

Lemma refused_call_changes_nothing_witness :
  let s := run_ops one_node_ops initial_state in
  let c := C_addNode 0 "A" 5 5 10 10 false in
  raised (call c s) = Some IDRepeatError
  ∧ unchanged s (state_of (call c s)).
Proof.
  intros s c.
  assert (H : raised (call c s) = Some IDRepeatError) by (vm_compute; reflexivity).
  split; [exact H|].
  apply (refused_call_changes_nothing c s eq_refl). rewrite H. discriminate.
Defined.

(** The setters of a compartment take their snapshot before they look the
    compartment up.  Outside a group, such a call that raises for another
    reason than a value out of range (the network or the compartment is
    missing) leaves the registry as it was, but has pushed a snapshot of it
    and has cleared the redo stack. *)
Theorem compartment_setter_snapshots_first (c : Call) (s : State) (e : Exn) :
  compartment_setter c = true →
  stackFlag s = true →
  raised (call c s) = Some e →
  e ≠ ValueError →
  (e = NetIndexError ∨ e = CompartmentIndexError)
  ∧ networkDict (state_of (call c s)) = networkDict s
  ∧ netSetStack (state_of (call c s)) = netSetStack s ++ [networkDict s]
  ∧ redoStack (state_of (call c s)) = [].
Proof.
  intros Hc Hf. destruct c; try discriminate Hc; clear Hc; simpl;
    unfold_calls;
    unfold _getCompartment, _getNetwork, _raiseError, update_compartment,
      update_net, _pushUndoStack, raise_errCode;
    monad_unfold; simpl; rewrite ?Hf; sym_exec; rewrite ?Hf; sym_exec;
    unfold TStack_push; intros He Hv; simplify_eq; try done;
    repeat split; auto.
Qed.

Lemma compartment_setter_snapshots_first_witness :
  let s := state_of (undo (run_ops one_node_ops initial_state)) in
  let c := C_setCompartmentVolume 0 3 1 in
  raised (call c s) = Some CompartmentIndexError
  ∧ redoStack s ≠ []
  ∧ networkDict (state_of (call c s)) = networkDict s
  ∧ netSetStack (state_of (call c s)) = netSetStack s ++ [networkDict s]
  ∧ redoStack (state_of (call c s)) = [].
Proof.
  intros s c.
  assert (H : raised (call c s) = Some CompartmentIndexError)
    by (vm_compute; reflexivity).
  split; [exact H|]. split; [vm_compute; discriminate|].
  apply (compartment_setter_snapshots_first c s CompartmentIndexError eq_refl);
    [vm_compute; reflexivity|exact H|discriminate].
Defined.

(** ** Packed colours *)

Lemma lor_shiftl_byte (x g : Z) :
  0 ≤ g < 256 → Z.lor (Z.shiftl x 8) g = 256 * x + g.
Proof.
  intros Hg.
  assert (H0 : Z.land (Z.shiftl x 8) g = 0).
  { apply Z.bits_inj'. intros n Hn. rewrite Z.land_spec, Z.bits_0.
    destruct (decide (n < 8)) as [Hlt|Hge].
    - rewrite Z.shiftl_spec_low by lia. done.
    - rewrite (Z.bits_above_log2 g n); [by rewrite andb_false_r|lia|].
      destruct (decide (g = 0)) as [->|Hnz]; [simpl; lia|].
      apply Z.log2_lt_pow2; [lia|].
      apply Z.lt_le_trans with (2 ^ 8); [simpl; lia|].
      apply Z.pow_le_mono_r; lia. }
  pose proof (Z.add_lor_land (Z.shiftl x 8) g) as H.
  rewrite H0 in H. rewrite Z.shiftl_mul_pow2 in * by lia.
  change (2 ^ 8) with 256 in *. lia.
Qed.

Lemma pack_rgb_value (c : TColor) :
  0 ≤ tc_g c ≤ 255 → 0 ≤ tc_b c ≤ 255 →
  pack_rgb c = 65536 * tc_r c + 256 * tc_g c + tc_b c.
Proof.
  intros Hg Hb. unfold pack_rgb. rewrite !lor_shiftl_byte by lia. lia.
Qed.

(** Channels in [0, 255] are recovered from the packed value by shifts
    and masks. *)
Lemma unpack_rgb (r g b : Z) :
  0 ≤ r ≤ 255 → 0 ≤ g ≤ 255 → 0 ≤ b ≤ 255 →
  let v := 65536 * r + 256 * g + b in
  0 ≤ v < 2 ^ 24
  ∧ Z.shiftr v 16 = r
  ∧ Z.land (Z.shiftr v 8) 255 = g
  ∧ Z.land v 255 = b.
Proof.
  intros Hr Hg Hb v. unfold v.
  change 255 with (Z.ones 8).
  rewrite !Z.land_ones, !Z.shiftr_div_pow2 by lia.
  change (2 ^ 16) with 65536. change (2 ^ 8) with 256. change (2 ^ 24) with 16777216.
  split; [lia|]. split; [|split].
  - symmetry. apply (Z.div_unique _ _ _ (256 * g + b)); lia.
  - replace ((65536 * r + 256 * g + b) / 256) with (256 * r + g).
    + symmetry. apply (Z.mod_unique _ _ r); lia.
    + apply (Z.div_unique _ _ _ b); lia.
  - symmetry. apply (Z.mod_unique _ _ (256 * r + g)); lia.
Qed.

(** [setNodeFillColorRGB] followed by [getNodeFillColorRGB]: when the
    setter returns, the three channels were in [0, 255], and the getter
    then returns them packed as [r * 65536 + g * 256 + b], a number below
    [2 ^ 24] from which shifts and masks give the channels back; the
    getter changes nothing but [errCode]. *)
Theorem setNodeFillColorRGB_then_get (s s1 : State) (neti nodei r g b : Z) :
  setNodeFillColorRGB neti nodei r g b s = Ok tt s1 →
  let v := 65536 * r + 256 * g + b in
  getNodeFillColorRGB neti nodei s1 = Ok v (set_errCode 0 s1)
  ∧ 0 ≤ v < 2 ^ 24
  ∧ Z.shiftr v 16 = r
  ∧ Z.land (Z.shiftr v 8) 255 = g
  ∧ Z.land v 255 = b.
Proof.
  intros H v.
  assert (Hok : (0 ≤ r ≤ 255 ∧ 0 ≤ g ≤ 255 ∧ 0 ≤ b ≤ 255)
                ∧ ∃ net node, networkDict s1 !! neti = Some net
                              ∧ nodes net !! nodei = Some node
                              ∧ n_fillColor node
                                = mkTColor r g b (tc_a (n_fillColor node))).
  { revert H. unfold setNodeFillColorRGB, node_setter, update_node, update_net,
      _pushUndoStack, raise_errCode.
    monad_unfold. sym_exec; intros H; try discriminate H.
    all: injection H as <-; split; [by apply rgb_in_range|]; simpl.
    all: match goal with
         | H : networkDict _ !! ?i = Some ?n, Hd : ¬ (?j ∉ dom (nodes ?n)) |- _ =>
             destruct (nodes n !! j) as [node|] eqn:En;
               [|exfalso; apply Hd; by apply not_elem_of_dom];
             rewrite lookup_alter_eq, H;
             eexists _, _; split; [reflexivity|]; simpl;
             rewrite lookup_alter_eq, En; split; reflexivity
         end. }
  destruct Hok as ((Hr & Hg & Hb) & net & node & Hn & Hi & Hc).
  split; [|by apply unpack_rgb].
  unfold getNodeFillColorRGB, node_getter. monad_unfold. simpl.
  rewrite Hn, Hi. simpl. f_equal.
  rewrite pack_rgb_value; rewrite Hc; simpl; lia.
Qed.

Lemma setNodeFillColorRGB_then_get_witness :
  let s := run_ops one_node_ops initial_state in
  ∃ s1, setNodeFillColorRGB 0 0 18 52 86 s = Ok tt s1
        ∧ getNodeFillColorRGB 0 0 s1 = Ok 1193046 (set_errCode 0 s1)
        ∧ Z.shiftr 1193046 16 = 18.
Proof.
  intros s.
  destruct (setNodeFillColorRGB 0 0 18 52 86 s) as [[] s1|e s1] eqn:E;
    [|vm_compute in E; discriminate].
  exists s1. split; [reflexivity|].
  destruct (setNodeFillColorRGB_then_get s s1 0 0 18 52 86 E) as (Hg & _ & Hr & _).
  split; [exact Hg|exact Hr].
Defined.






(** ** The partition of the nodes is kept *)













Lemma dict_inv_set_errCode (Pd : TNetworkDict → Prop) (c : Z) (s : State) :
  dict_inv Pd s → dict_inv Pd (set_errCode c s).
Proof. intros H. exact H. Qed.




















(** ** Recipes and the group they open *)

Ltac group_leaf :=
  match goal with
  | |- keeps _ (modify _) =>
      apply keeps_modify; intros ? (? & ? & ?); repeat split; simpl; assumption
  | |- keeps _ _pushUndoStack =>
      let s := fresh "s" in
      let Hf := fresh "Hf" in
      intros s (Hf & ? & ?); unfold _pushUndoStack; monad_unfold; simpl;
      rewrite Hf; simpl; repeat split; assumption
  end.

Ltac group_tac :=
  repeat first
    [ keeps_step
    | group_leaf
    | progress unfold _raiseError, _getNetwork, _getNode, _getReaction,
        _getCompartment, update_node, update_reaction, update_compartment,
        update_net, node_setter, reaction_setter, species_setter ].

Lemma group_open_createReaction d stk neti reaID sources targets :
  keeps (group_open d stk) (createReaction neti reaID sources targets).
Proof. unfold createReaction. group_tac. Qed.

Lemma group_open_getReactionIndex d stk neti reaID :
  keeps (group_open d stk) (getReactionIndex neti reaID).
Proof. unfold getReactionIndex. group_tac. Qed.

Lemma group_open_src d stk neti reai i q :
  keeps (group_open d stk) (setReactionSrcNodeStoich neti reai i q).
Proof. unfold setReactionSrcNodeStoich. group_tac. Qed.

Lemma group_open_dest d stk neti reai i q :
  keeps (group_open d stk) (setReactionDestNodeStoich neti reai i q).
Proof. unfold setReactionDestNodeStoich. group_tac. Qed.

Lemma group_open_setRateLaw d stk neti reai l :
  keeps (group_open d stk) (setRateLaw neti reai l).
Proof. unfold setRateLaw. group_tac. Qed.

Lemma startGroup_opens (s : State) :
  ∃ s', startGroup s = Ok tt s'
        ∧ group_open (networkDict s) (netSetStack s) s'.
Proof. eexists. split; [reflexivity|]. by repeat split. Qed.

Lemma closes_group_endGroup d stk : closes_group d stk endGroup.
Proof. intros s (? & ? & ?). by repeat split. Qed.

Lemma closes_group_mbind {A} d stk (m : M A) (f : A → M unit) :
  keeps (group_open d stk) m → (∀ a, closes_group d stk (f a)) →
  closes_group d stk (m ≫= f).
Proof.
  intros Hm Hf s Hs. specialize (Hm s Hs). unfold mbind, M_bind.
  destruct (m s) as [a s'|e s']; simpl in *.
  - by apply Hf.
  - destruct Hm as (? & ? & ?). by repeat split.
Qed.

Lemma closes_group_bind {A} d stk (m : M A) (f : A → M unit) :
  keeps (group_open d stk) m → (∀ a, closes_group d stk (f a)) →
  closes_group d stk (bind m f).
Proof. apply closes_group_mbind. Qed.

(** What runs between [startGroup()] and [endGroup()] in a recipe. *)
Ltac recipe_body :=
  repeat match goal with
  | |- closes_group _ _ endGroup => apply closes_group_endGroup
  | |- closes_group _ _ (mbind _ _) => apply closes_group_mbind; [|intros ?]
  | |- closes_group _ _ (bind _ _) => apply closes_group_bind; [|intros ?]
  | |- keeps _ (createReaction _ _ _ _) => apply group_open_createReaction
  | |- keeps _ (getReactionIndex _ _) => apply group_open_getReactionIndex
  | |- keeps _ (setReactionSrcNodeStoich _ _ _ _) => apply group_open_src
  | |- keeps _ (setReactionDestNodeStoich _ _ _ _) => apply group_open_dest
  | |- keeps _ (setRateLaw _ _ _) => apply group_open_setRateLaw
  end.

(** A recipe opens a group and closes it only when every step has
    returned.  If the recipe returns, it was one undo step: the undo stack
    has grown by the registry the recipe was called with, the redo stack
    is empty and the group is closed.  If the recipe raises (the reaction
    id is taken, a node is missing, a stoichiometry is not positive, ...),
    the snapshot is taken all the same and the group stays open: the flag
    is off, so that later calls take no snapshot until [endGroup()] is
    called. *)
Theorem recipe_outcome (r : Recipe) (s : State) :
  netSetStack (state_of (recipe r s)) = netSetStack s ++ [networkDict s]
  ∧ redoStack (state_of (recipe r s)) = []
  ∧ stackFlag (state_of (recipe r s))
    = match raised (recipe r s) with None => true | Some _ => false end.
Proof.
  assert (H : ∀ rest : M unit,
            closes_group (networkDict s) (netSetStack s) rest →
            netSetStack (state_of ((startGroup ;; rest) s))
            = netSetStack s ++ [networkDict s]
            ∧ redoStack (state_of ((startGroup ;; rest) s)) = []
            ∧ stackFlag (state_of ((startGroup ;; rest) s))
              = match raised ((startGroup ;; rest) s) with
                | None => true | Some _ => false
                end).
  { intros rest Hr. destruct (startGroup_opens s) as (s1 & Hs1 & Hg).
    unfold mbind, M_bind. rewrite Hs1. by apply Hr. }
  destruct r; simpl;
    unfold createUniUni, CreateUniBi, CreateBiUni, CreateBiBi;
    apply H; recipe_body.
Qed.

(** A recipe refused for its stoichiometry: the reaction has been created
    and the group is left open. *)
Example createUniUni_refused_stoich :
  let s := run_ops two_nodes_ops initial_state in
  let x := createUniUni 0 "r" "k*A" 0 1 0 1 s in
  raised x = Some StoichError
  ∧ stackFlag (state_of x) = false
  ∧ (dom ∘ reactions <$> networkDict (state_of x) !! 0) = Some {[0]}.
Proof. repeat split; vm_compute; reflexivity. Qed.

(** ** Calls on a network that does not exist *)

(** No call does anything to the registry for a network index that is not
    in it: the call raises, [NetIndexError] unless a test of its other
    arguments comes first and raises [ValueError], and the registry is as
    it was. *)
Theorem call_on_missing_network (c : Call) (s : State) (neti : Z) :
  network_of c = Some neti →
  networkDict s !! neti = None →
  (raised (call c s) = Some NetIndexError ∨ raised (call c s) = Some ValueError)
  ∧ networkDict (state_of (call c s)) = networkDict s.
Proof.
  intros Hc Hnone.
  assert (Hdom : neti ∉ dom (networkDict s)) by (by apply not_elem_of_dom).
  destruct c; try discriminate Hc; injection Hc as ->; simpl;
    unfold_calls;
    unfold deleteNode, deleteReaction, deleteCompartment, setCompartmentOfNode,
      node_setter, reaction_setter, species_setter, try_finally,
      raise_if_errCode, raise_asserted,
      _getNode, _getReaction, _getCompartment, _getNetwork, _raiseError,
      _pushUndoStack, raise_errCode;
    monad_unfold;
    cbn [state_of raised set_errCode set_networkDict set_netSetStack
         set_redoStack set_lastNetIndex stackFlag errCode networkDict
         netSetStack redoStack lastNetIndex];
    rewrite ?Hnone; rewrite ?decide_True by exact Hdom;
    sym_exec; try (simplify_eq; fail); try lia; auto.
Qed.

Lemma call_on_missing_network_witness :
  let s := run_ops one_node_ops initial_state in
  let c := C_setCompartmentVolume 3 0 1 in
  network_of c = Some 3
  ∧ networkDict s !! 3 = None
  ∧ (raised (call c s) = Some NetIndexError ∨ raised (call c s) = Some ValueError)
  ∧ networkDict (state_of (call c s)) = networkDict s.
Proof.
  intros s c.
  assert (H : networkDict s !! 3 = None) by (vm_compute; reflexivity).
  split; [reflexivity|]. split; [exact H|].
  exact (call_on_missing_network c s 3 eq_refl H).
Defined.
